(** * Docsify index generator: a shallow embedding of [generate-docs-final.js]
    and of the second script carried by [USAGE_EXAMPLE.md].

    The two scripts share the metrics, the aggregators and the scanner
    verbatim; they differ in the page templates and in the emitter
    ([generateDocs]).  The shared part is modelled once, the two emitters
    live in the modules [Final] and [Usage].

    Modelling conventions.
    - Absolute, normalised paths are lists of segments ([path]); the
      string ["/a/b"] is [["a"; "b"]].  [path.resolve(dir, file)] for a
      name returned by [readdirSync] is [dir ++ [file]].
    - JavaScript strings are byte strings holding their UTF-8 encoding.
    - JavaScript numbers that the program manipulates are non-negative
      integers ([N]); the two places where it divides are modelled exactly
      (see [Math_round_div]), which agrees with IEEE doubles for every size
      below 2^53 / 100 bytes.
    - A synchronous [fs] call either returns or throws: [result].
    - The file system is a finite tree of entries ([node]): no cycle of
      symbolic links, permissions reduced to whether a directory can be
      listed and whether a file can be read.  The functions of the scripts
      recurse on paths; their models recurse on the entries a path leads
      to, and are shown to satisfy the equations the source states path by
      path when no directory lists a name twice ([unique_names]).
    - Sums are whole numbers too, which binary64 holds exactly below
      2^53, and names are sorted by their bytes, which is the order of
      [sort()] between names of the Basic Multilingual Plane; the theorems
      that depend on either say so in a hypothesis.
    - A run is a function of the [world]: the file system and the trace of
      what the process has printed and written so far.  The message that
      [getDirectoryStructure] prints for a missing directory is the one
      piece of output left out.
    - In [Final] and [Usage] a page is written as to an ordinary entry of a
      directory that may be written to.  What the platform's write does
      beyond that (a name that is a link, a write that is refused) is not
      in the tree: the module [Platform] has the two emitters over any
      write, and the theorems that depend on what a write does to the
      disk are stated there, under a hypothesis on the write. *)

From Stdlib Require Import List String Ascii NArith Lia Bool DecimalString.
From Stdlib Require Import PeanoNat Sorted.
Import ListNotations.
Open Scope string_scope.
Open Scope N_scope.

Set Implicit Arguments.

(** ** Exceptions *)

(** The program never inspects the exception it catches, and an exception
    it does not catch ends the process: an exception carries nothing. *)
Inductive result (A : Type) : Type :=
| Ok (a : A)
| Throw.
Arguments Ok {A} a.
Arguments Throw {A}.

Definition bind {A B} (r : result A) (k : A -> result B) : result B :=
  match r with
  | Ok a => k a
  | Throw => Throw
  end.

Declare Scope result_scope.
Delimit Scope result_scope with result.
Notation "x <- r ;; k" := (bind r (fun x => k))
  (at level 61, r at next level, right associativity) : result_scope.
Open Scope result_scope.

(** [try { r } catch (err) { d }] *)
Definition try_catch {A} (r : result A) (d : A) : A :=
  match r with
  | Ok a => a
  | Throw => d
  end.

(** ** The file system

    What the program can observe of a directory entry through
    [statSync] (which follows symbolic links), [readdirSync] and
    [readFileSync]:
    - a [File] has a byte size; reading it as UTF-8 text either fails
      (no read permission) or yields a string whose re-encoding has [b]
      bytes ([text = Some b]; invalid sequences are replaced on decoding,
      so [b] need not be the size);
    - a [Dir] can be listed when [readable], and holds its entries in
      listing order;
    - a [Dangling] entry is a name whose [statSync] throws (a symbolic
      link to nothing). *)

Definition path := list string.

#[local] Unset Elimination Schemes.
Inductive node :=
| File (size : N) (text : option N)
| Dir (readable : bool) (entries : list (string * node))
| Dangling.
#[local] Set Elimination Schemes.

Fixpoint find_entry (name : string) (es : list (string * node)) : option node :=
  match es with
  | [] => None
  | (n, c) :: es' => if (n =? name)%string then Some c else find_entry name es'
  end.

(** [fs.statSync(p)], returning the entry itself in place of its [Stats]. *)
Fixpoint statSync (fs : node) (p : path) : result node :=
  match p with
  | [] => match fs with
          | Dangling => Throw
          | _ => Ok fs
          end
  | s :: p' =>
      match fs with
      | Dir _ es => match find_entry s es with
                    | Some c => statSync c p'
                    | None => Throw
                    end
      | File _ _ => Throw
      | Dangling => Throw
      end
  end.

Definition isDirectory (n : node) : bool :=
  match n with
  | Dir _ _ => true
  | _ => false
  end.

(** [stat.size]; the program reads it on entries that are not directories
    only, a directory's own size is never looked at. *)
Definition stat_size (n : node) : N :=
  match n with
  | File size _ => size
  | _ => 0
  end.

Definition existsSync (fs : node) (p : path) : bool :=
  match statSync fs p with
  | Ok _ => true
  | Throw => false
  end.

(** [fs.readdirSync] on the entry a path resolves to. *)
Definition readdir_node (n : node) : result (list string) :=
  match n with
  | Dir true es => Ok (map fst es)
  | Dir false _ => Throw
  | File _ _ => Throw
  | Dangling => Throw
  end.

Definition readdirSync (fs : node) (p : path) : result (list string) :=
  n <- statSync fs p ;; readdir_node n.

(** [fs.readFileSync(p, 'utf8')] followed by [Buffer.byteLength(_, 'utf8')]. *)
Definition read_byteLength_node (n : node) : result N :=
  match n with
  | File _ (Some b) => Ok b
  | File _ None => Throw
  | Dir _ _ => Throw
  | Dangling => Throw
  end.

(** Directories of a real file system never list a name twice. *)
Fixpoint unique_names (n : node) : Prop :=
  match n with
  | Dir _ es =>
      NoDup (map fst es) /\
      (fix all (es : list (string * node)) : Prop :=
         match es with
         | [] => True
         | (_, c) :: es' => unique_names c /\ all es'
         end) es
  | _ => True
  end.

(** ** [path] module *)

Definition dot : ascii := "."%char.

(** Index of the last ['.'] of a name. *)
Fixpoint last_dot (s : string) : option nat :=
  match s with
  | EmptyString => None
  | String c s' =>
      match last_dot s' with
      | Some i => Some (S i)
      | None => if Ascii.eqb c dot then Some O else None
      end
  end.

(** [path.extname] on a name without separators: the text from the last
    dot on, unless there is no dot, the only dot opens the name, or the
    name is [".."]. *)
Definition extname (file : string) : string :=
  match last_dot file with
  | None => ""
  | Some O => ""
  | Some i => if (file =? "..")%string then ""
              else substring i (Nat.sub (String.length file) i) file
  end.

Definition isMarkdown (file : string) : bool := (extname file =? ".md")%string.

(** ** Configuration *)

Definition ignoreFiles : list string :=
  ["_sidebar.md"; "README.md"; "_navbar.md"; "_coverpage.md"].

Definition includes (l : list string) (s : string) : bool :=
  existsb (String.eqb s) l.

(** ** Content metrics *)

(** [Math.round(a / b)] for integers [a] and [b > 0]: the nearest integer,
    halves upwards. *)
Definition Math_round_div (a b : N) : N := (2 * a + b) / (2 * b).

(** [estimateWordCount] on the entry the path resolves to. *)
Definition wordCount_node (n : node) : N :=
  try_catch (b <- read_byteLength_node n ;; Ok (Math_round_div b 3)) 0.

Definition estimateWordCount (fs : node) (filePath : path) : N :=
  try_catch (n <- statSync fs filePath ;; Ok (wordCount_node n)) 0.

(** ** Aggregators

    Each aggregator lists the directory, then walks the listing with
    [forEach], examining every entry with [statSync] and adding to a
    running total; the whole body sits in one [try], whose [catch] returns
    zero.  The recursive call on a sub-directory has its own [try]. *)

Fixpoint countMarkdown_node (n : node) : N :=
  match n with
  | Dir true es =>
      try_catch
        ((fix loop (count : N) (es : list (string * node)) : result N :=
            match es with
            | [] => Ok count
            | (file, c) :: rest =>
                match c with
                | Dangling => Throw
                | Dir _ _ => loop (count + countMarkdown_node c) rest
                | File _ _ =>
                    if isMarkdown file then loop (count + 1) rest
                    else loop count rest
                end
            end) 0 es)
        0
  | _ => 0
  end.

Definition countMarkdownFiles (fs : node) (dirPath : path) : N :=
  try_catch (n <- statSync fs dirPath ;; Ok (countMarkdown_node n)) 0.

Fixpoint wordCountDir_node (n : node) : N :=
  match n with
  | Dir true es =>
      try_catch
        ((fix loop (totalWordCount : N) (es : list (string * node)) : result N :=
            match es with
            | [] => Ok totalWordCount
            | (file, c) :: rest =>
                match c with
                | Dangling => Throw
                | Dir _ _ => loop (totalWordCount + wordCountDir_node c) rest
                | File _ _ =>
                    if isMarkdown file
                    then loop (totalWordCount + wordCount_node c) rest
                    else loop totalWordCount rest
                end
            end) 0 es)
        0
  | _ => 0
  end.

Definition estimateDirectoryWordCount (fs : node) (dirPath : path) : N :=
  try_catch (n <- statSync fs dirPath ;; Ok (wordCountDir_node n)) 0.

(** The sizes are added as whole numbers; the script adds binary64
    numbers, which is the same as long as the sum stays below [2 ^ 53], and
    the theorems that give a size as a sum are stated for such sums. *)
Fixpoint directorySize_node (n : node) : N :=
  match n with
  | Dir true es =>
      try_catch
        ((fix loop (totalSize : N) (es : list (string * node)) : result N :=
            match es with
            | [] => Ok totalSize
            | (file, c) :: rest =>
                match c with
                | Dangling => Throw
                | Dir _ _ => loop (totalSize + directorySize_node c) rest
                | File _ _ => loop (totalSize + stat_size c) rest
                end
            end) 0 es)
        0
  | _ => 0
  end.

(** ** Human-scaled sizes *)

Definition show_N (n : N) : string := NilZero.string_of_uint (N.to_uint n).

(** [Math.round(size / unit * 100)]; [size / unit] is exact in binary
    floating point because [unit] is a power of two, and the product by 100
    is exact as long as it stays below [2 ^ 53]: the value is the script's
    for sizes below [2 ^ 53 / 100] bytes, and the theorems that speak of it
    are stated for those. *)
Definition round_hundredths (size unit : N) : N := Math_round_div (size * 100) unit.

(** The text of the number [k / 100]: JavaScript prints the shortest
    decimal, so at most two decimals and no trailing zero. *)
Definition show_div100 (k : N) : string :=
  let q := k / 100 in
  let r := k mod 100 in
  if r =? 0 then show_N q
  else if r mod 10 =? 0 then show_N q ++ "." ++ show_N (r / 10)
  else show_N q ++ "." ++ show_N (r / 10) ++ show_N (r mod 10).

Record sized := { size : N; formatted : string }.

(** The three-way branch shared by [getFileSize] and [getDirectorySize]. *)
Definition format_size (size : N) : sized :=
  if size <? 1024 then
    {| size := size; formatted := show_N size ++ " B" |}
  else if size <? 1024 * 1024 then
    {| size := size; formatted := show_div100 (round_hundredths size 1024) ++ " KB" |}
  else
    {| size := size;
       formatted := show_div100 (round_hundredths size (1024 * 1024)) ++ " MB" |}.

Definition zero_size : sized := {| size := 0; formatted := "0 B" |}.

Definition getFileSize (fs : node) (filePath : path) : sized :=
  try_catch (stats <- statSync fs filePath ;; Ok (format_size (stat_size stats)))
            zero_size.

Definition getDirectorySize (fs : node) (dirPath : path) : sized :=
  try_catch
    (n <- statSync fs dirPath ;; Ok (format_size (directorySize_node n)))
    zero_size.

(** ** Scanned tree *)

#[local] Unset Elimination Schemes.
Inductive item :=
| FileNode (name : string) (path : path) (depth : N)
           (size : N) (formattedSize : string) (wordCount : N)
| DirNode (name : string) (path : path) (depth : N) (children : list item).
#[local] Set Elimination Schemes.

Definition item_name (i : item) : string :=
  match i with
  | FileNode name _ _ _ _ _ => name
  | DirNode name _ _ _ => name
  end.

Definition item_path (i : item) : path :=
  match i with
  | FileNode _ p _ _ _ _ => p
  | DirNode _ p _ _ => p
  end.

Definition item_children (i : item) : list item :=
  match i with
  | FileNode _ _ _ _ _ _ => []
  | DirNode _ _ _ children => children
  end.

(** [item.type === 'file'] and [item.type === 'directory'] *)
Definition is_file (i : item) : bool :=
  match i with
  | FileNode _ _ _ _ _ _ => true
  | DirNode _ _ _ _ => false
  end.

Definition is_directory (i : item) : bool := negb (is_file i).

(** [Array.prototype.sort()] without a comparator orders strings by their
    code units and is stable.  Names are compared here byte by byte, which
    is the same order on every name outside the supplementary planes. *)
Section Sort.
Variable A : Type.
Variable key : A -> string.

Fixpoint insert_sorted (x : A) (l : list A) : list A :=
  match l with
  | [] => [x]
  | y :: l' => if String.leb (key x) (key y) then x :: l
               else y :: insert_sorted x l'
  end.

Fixpoint sort_by (l : list A) : list A :=
  match l with
  | [] => []
  | x :: l' => insert_sorted x (sort_by l')
  end.
End Sort.

(** [path.resolve(dir, file)] for a name [file] of the listing of [dir]. *)
Definition resolve (dir : path) (file : string) : path := (dir ++ [file])%list.

(** [path.basename(p)] *)
Definition basename (p : path) : string := last p "".

(** [path.basename(file, ext)] on a name without separators. *)
Definition basename_ext (file ext : string) : string :=
  let n := String.length file in
  let k := String.length ext in
  if (file =? ext)%string then ""
  else if Nat.leb k n && (substring (Nat.sub n k) k file =? ext)%string
       then substring 0 (Nat.sub n k) file
       else file.

(** The first [forEach] of [getDirectoryStructure]: it skips the ignored
    names, examines every other entry, and keeps the documents.  (The
    directories it keeps are picked up again by the scan below.) *)
Fixpoint partition_files (es : list (string * node)) : result (list (string * node)) :=
  match es with
  | [] => Ok []
  | (file, c) :: rest =>
      if includes ignoreFiles file then partition_files rest
      else match c with
           | Dangling => Throw
           | Dir _ _ => partition_files rest
           | File _ _ =>
               files <- partition_files rest ;;
               Ok (if isMarkdown file then (file, c) :: files else files)
           end
  end.

(** The file node built by the second [forEach]. *)
Definition file_node (dir : path) (depth : N) (e : string * node) : item :=
  let (file, c) := e in
  let fileSize := format_size (stat_size c) in
  FileNode (basename_ext file ".md") (resolve dir file) (depth + 1)
           (size fileSize) (formatted fileSize) (wordCount_node c).

(** [getDirectoryStructure] on an existing entry.  The sub-directories are
    scanned while walking the listing and their nodes are then put in
    sorted order; the script sorts the names first and scans afterwards,
    which yields the same nodes, scanning being a function of the
    sub-tree alone. *)
Fixpoint scan_node (dir : path) (depth : N) (n : node) : result item :=
  match n with
  | Dir true es =>
      files <- partition_files es ;;
      directories <-
        (fix scan_dirs (es : list (string * node)) : result (list item) :=
           match es with
           | [] => Ok []
           | (file, c) :: rest =>
               if includes ignoreFiles file then scan_dirs rest
               else match c with
                    | Dir _ _ =>
                        d <- scan_node (resolve dir file) (depth + 1) c ;;
                        ds <- scan_dirs rest ;;
                        Ok (d :: ds)
                    | _ => scan_dirs rest
                    end
           end) es ;;
      Ok (DirNode (basename dir) dir depth
                  (map (file_node dir depth) (sort_by fst files)
                   ++ sort_by item_name directories)%list)
  | _ => Throw
  end.

(** [getDirectoryStructure(dir, depth)], without the message it prints
    when [dir] does not exist. *)
Definition getDirectoryStructure (fs : node) (dir : path) (depth : N) : result item :=
  if negb (existsSync fs dir) then Ok (DirNode (basename dir) dir depth [])
  else n <- statSync fs dir ;; scan_node dir depth n.

(** ** Links *)

(** [path.relative(from, to)] on absolute normalised paths: drop the
    common leading segments, climb out of what is left of [from], descend
    along what is left of [to]. *)
Fixpoint relative_segments (from to : path) : path :=
  match from, to with
  | f :: from', t :: to' =>
      if (f =? t)%string then relative_segments from' to'
      else (map (fun _ => "..") from ++ to)%list
  | _, _ => (map (fun _ => "..") from ++ to)%list
  end.

Definition relative (from to : path) : string :=
  String.concat "/" (relative_segments from to).

(** [s.replace(/\\/g, '/')] *)
Fixpoint replace_backslashes (s : string) : string :=
  match s with
  | EmptyString => EmptyString
  | String c s' =>
      String (if Ascii.eqb c "\"%char then "/"%char else c) (replace_backslashes s')
  end.

(** The target every template computes for a scanned node:
    [path.relative(basePath, item.path).replace(/\\/g, '/')]. *)
Definition link_to (basePath : path) (target : path) : string :=
  replace_backslashes (relative basePath target).

(** ** Pages

    A page is the sequence of pieces a template appends to [content];
    a piece is plain text or the Markdown link [[label](target)]. *)

Inductive chunk :=
| Txt (text : string)
| Lnk (label target : string).

Definition page := list chunk.

Definition render_chunk (c : chunk) : string :=
  match c with
  | Txt text => text
  | Lnk label target => "[" ++ label ++ "](" ++ target ++ ")"
  end.

Definition render (p : page) : string := String.concat "" (map render_chunk p).

Definition links (p : page) : list (string * string) :=
  flat_map (fun c => match c with
                     | Txt _ => []
                     | Lnk label target => [(label, target)]
                     end) p.

Definition nl : string := String (ascii_of_nat 10) EmptyString.

Definition count_of {A} (l : list A) : N := N.of_nat (List.length l).

(** The row of a document in a three-column table.  The templates build
    it for nodes of type ['file'] only; a directory node has neither field
    and would print as [undefined]. *)
Definition file_row (basePath : path) (file : item) : page :=
  match file with
  | FileNode name p _ _ formattedSize wordCount =>
      [Txt "| "; Lnk name (link_to basePath p);
       Txt (" | " ++ show_N wordCount ++ " 字 | " ++ formattedSize ++ " |" ++ nl)]
  | DirNode name p _ _ =>
      [Txt "| "; Lnk name (link_to basePath p);
       Txt (" | undefined 字 | undefined |" ++ nl)]
  end.

(** The row of a directory in a four-column table, with its totals. *)
Definition totals_row (fs : node) (label target : string) (dir : path) : page :=
  [Txt "| "; Lnk label target;
   Txt (" | " ++ show_N (countMarkdownFiles fs dir)
        ++ " | " ++ show_N (estimateDirectoryWordCount fs dir)
        ++ " 字 | " ++ formatted (getDirectorySize fs dir) ++ " |" ++ nl)].

Definition generated_notice : string :=
  "> 本README文件由系统自动生成，请勿手动修改。".

(** The heading and the counts that open every page but the root's. *)
Definition page_head (structure : item) : page :=
  let fileCount := count_of (filter is_file (item_children structure)) in
  let dirCount := count_of (filter is_directory (item_children structure)) in
  [Txt ("# " ++ item_name structure ++ nl ++ nl);
   Txt ("本目录包含 " ++ show_N fileCount ++ " 个文档文件和 "
        ++ show_N dirCount ++ " 个子目录。" ++ nl ++ nl)].

Definition page_foot : page :=
  [Txt ("---" ++ nl ++ nl); Txt (generated_notice ++ nl)].

(** ** The running process *)

Inductive event :=
| ConsoleLog (message : string)
| ConsoleError (message : string)
| WriteFile (file : path) (data : string).

Record world := { disk : node; trace : list event }.

Definition path_string (p : path) : string := "/" ++ String.concat "/" p.

(** A file holding [data]. *)
Definition file_of (data : string) : node :=
  let bytes := N.of_nat (String.length data) in File bytes (Some bytes).

(** The file system after [fs.writeFileSync(p, data)] where the name
    written is an ordinary entry of a directory that may be written to: the
    file is created in its directory or replaces what the name held;
    writing fails when the directory is missing or when the name is a
    directory.  (A name that is a link is written through, and a write may
    be refused: the emitter over any write is in [Platform] below.) *)
Fixpoint write_node (n : node) (p : path) (f : node) : result node :=
  match p with
  | [] => match n with
          | Dir _ _ => Throw
          | _ => Ok f
          end
  | s :: p' =>
      match n with
      | Dir r es =>
          es' <- (fix update (es : list (string * node)) : result (list (string * node)) :=
                    match es with
                    | [] => match p' with
                            | [] => Ok [(s, f)]
                            | _ => Throw
                            end
                    | (name, c) :: rest =>
                        if (name =? s)%string
                        then c' <- write_node c p' f ;; Ok ((name, c') :: rest)
                        else rest' <- update rest ;; Ok ((name, c) :: rest')
                    end) es ;;
          Ok (Dir r es')
      | _ => Throw
      end
  end.

Definition M (A : Type) : Type := world -> world * result A.

Definition ret {A} (a : A) : M A := fun w => (w, Ok a).

Definition bindM {A B} (m : M A) (k : A -> M B) : M B :=
  fun w => match m w with
           | (w', Ok a) => k a w'
           | (w', Throw) => (w', Throw)
           end.

Declare Scope process_scope.
Delimit Scope process_scope with process.
Notation "x <~ m ;; k" := (bindM m (fun x => k))
  (at level 61, m at next level, right associativity) : process_scope.
Notation "m ;;; k" := (bindM m (fun _ => k))
  (at level 61, right associativity) : process_scope.

Definition emit (e : event) : M unit :=
  fun w => ({| disk := disk w; trace := (trace w ++ [e])%list |}, Ok tt).

Definition console_log (message : string) : M unit := emit (ConsoleLog message).
Definition console_error (message : string) : M unit := emit (ConsoleError message).

(** A computation that reads the file system. *)
Definition reading {A} (f : node -> result A) : M A := fun w => (w, f (disk w)).

Definition writeFileSync (file : path) (data : string) : M unit :=
  fun w => match write_node (disk w) file (file_of data) with
           | Ok fs' => ({| disk := fs'; trace := (trace w ++ [WriteFile file data])%list |}, Ok tt)
           | Throw => (w, Throw)
           end.

(** How a run ends: [main] returns, [process.exit(code)] is called, or an
    exception reaches the top. *)
Inductive outcome := Completed | Exited (code : N) | Crashed.

(** ** Pieces the two scripts share *)

Definition bullet (label target : string) : page :=
  [Txt "* "; Lnk label target; Txt nl].

(** The "文件列表" table of a directory's own documents. *)
Definition file_list (structure : item) (basePath : path) : page :=
  let files := filter is_file (item_children structure) in
  if (0 <? count_of files) then
    ([Txt ("## 文件列表" ++ nl ++ nl);
      Txt ("| 文件名称 | 预估字数 | 大小 |" ++ nl);
      Txt ("|---------|---------|------|" ++ nl)]
     ++ flat_map (file_row basePath) files
     ++ [Txt nl])%list
  else [].

(** [structure.children.find(item => item.type === 'directory' &&
    item.name === config.specifiedPath)] *)
Definition find_specified (specifiedPath : string) (structure : item) : option item :=
  find (fun i => is_directory i && (item_name i =? specifiedPath)%string)
       (item_children structure).

(** The summary table on the root page. *)
Definition root_table (specifiedPath : string) (fs : node) (structure : item) : page :=
  match find_specified specifiedPath structure with
  | Some specifiedPathDir =>
      ([Txt ("| 归类 | 书籍数量 | 预估字数 | 大小 |" ++ nl);
        Txt ("| --- | --- | --- | --- |" ++ nl)]
       ++ totals_row fs (item_name specifiedPathDir)
                     (specifiedPath ++ "/README.md") (item_path specifiedPathDir)
       ++ flat_map (fun subDir =>
                      totals_row fs (item_name subDir)
                                 (specifiedPath ++ "/" ++ item_name subDir ++ "/README.md")
                                 (item_path subDir))
                   (filter is_directory (item_children specifiedPathDir)))%list
  | None => []
  end.

(** What follows the first entry of the root sidebar. *)
Definition root_sidebar_links (specifiedPath : string) (structure : item) : page :=
  match find_specified specifiedPath structure with
  | Some specifiedPathDir =>
      (bullet specifiedPath (specifiedPath ++ "/README.md")
       ++ [Txt (nl ++ "---" ++ nl ++ nl)]
       ++ flat_map (fun subDir =>
                      bullet (item_name subDir)
                             (specifiedPath ++ "/" ++ item_name subDir ++ "/README.md"))
                   (filter is_directory (item_children specifiedPathDir)))%list
  | None => []
  end.

(** The head of the designated-collection page, down to its overview row. *)
Definition overview (fs : node) (structure : item) (name_cell : page) : page :=
  (page_head structure
   ++ [Txt ("## 总览" ++ nl ++ nl);
       Txt ("| 名称 | 书籍数 | 预估字数 | 大小 |" ++ nl);
       Txt ("|------|--------|----------|------|" ++ nl);
       Txt "| "]
   ++ name_cell
   ++ [Txt (" | " ++ show_N (countMarkdownFiles fs (item_path structure))
            ++ " | " ++ show_N (estimateDirectoryWordCount fs (item_path structure))
            ++ " 字 | " ++ formatted (getDirectorySize fs (item_path structure))
            ++ " |" ++ nl ++ nl)])%list.

(** The heading and the column titles of a sub-directory's table. *)
Definition subtable_head (dir : item) : page :=
  [Txt ("## " ++ item_name dir ++ nl ++ nl);
   Txt ("| 文件名称 | 预估字数 | 大小 |" ++ nl);
   Txt ("|----------|----------|------|" ++ nl)].

(** [directories.forEach(dir => ...)] where the body may throw. *)
Fixpoint for_each_page (body : item -> result page) (l : list item) : result page :=
  match l with
  | [] => Ok []
  | dir :: rest =>
      p <- body dir ;;
      ps <- for_each_page body rest ;;
      Ok (p ++ ps)%list
  end.

(** ** [generate-docs-final.js] *)

Module Final.
Section Config.
Variable specifiedPath : string.

Definition generateRootReadmeContent (fs : node) (structure : item) (basePath : path) : page :=
  ([Txt ("# " ++ specifiedPath ++ nl ++ nl)]
   ++ root_table specifiedPath fs structure
   ++ [Txt (nl ++ "---" ++ nl ++ nl);
       Txt (generated_notice ++ nl ++ "---");
       Txt ("**📞 聯繫資訊**" ++ nl ++ nl);
       Txt ("如有任何問題或建議，歡迎通過以下方式聯繫：" ++ nl ++ nl);
       Txt ("- 📧 微信: yeyang0802" ++ nl);
       Txt ("- 🐙 GitHub: [@yeyangchen2009](https://github.com/yeyangchen2009)" ++ nl ++ nl);
       Txt ("![](/_media/lxfs.jpg)" ++ nl);
       Txt ("**📄 版權聲明**" ++ nl ++ nl);
       Txt ("本項目僅供學習和研究使用，如需商業用途請聯繫相關版權方。" ++ nl)])%list.

(** The table of one sub-directory: its documents, whatever it holds. *)
Definition subtable (fs : node) (basePath : path) (dir : item) : result page :=
  subdirStructure <- getDirectoryStructure fs (item_path dir) 0 ;;
  let files := filter is_file (item_children subdirStructure) in
  Ok (subtable_head dir ++ flat_map (file_row basePath) files ++ [Txt nl])%list.

Definition generateSpecifiedPathReadmeContent
           (fs : node) (structure : item) (basePath : path) : result page :=
  tables <- for_each_page (subtable fs basePath)
                          (filter is_directory (item_children structure)) ;;
  Ok (overview fs structure [Txt (item_name structure)] ++ tables ++ page_foot)%list.

Definition generateNormalReadmeContent (structure : item) (basePath : path) : page :=
  let directories := filter is_directory (item_children structure) in
  (page_head structure
   ++ file_list structure basePath
   ++ (if 0 <? count_of directories then
         [Txt ("## 子目录" ++ nl ++ nl)]
         ++ flat_map (fun dir =>
                        [Txt "- ";
                         Lnk (item_name dir) (link_to basePath (item_path dir) ++ "/README.md");
                         Txt nl])
                     directories
         ++ [Txt nl]
       else [])
   ++ page_foot)%list.

Definition generateRootSidebarContent (structure : item) (basePath : path) : page :=
  (bullet "首页" "README.md" ++ root_sidebar_links specifiedPath structure)%list.

Definition generateSubdirSidebarContent (structure : item) (basePath : path) : page :=
  (bullet "返回根目录" "../README.md"
   ++ bullet "返回上一级" "./README.md"
   ++ [Txt (nl ++ "---" ++ nl ++ nl)]
   ++ flat_map (fun item => bullet (item_name item) (link_to basePath (item_path item)))
               (filter is_file (item_children structure)))%list.

Definition readme_of (fs : node) (structure : item) (basePath : path) (isRoot : bool)
  : result page :=
  if isRoot then Ok (generateRootReadmeContent fs structure basePath)
  else if (item_name structure =? specifiedPath)%string
       then generateSpecifiedPathReadmeContent fs structure basePath
       else Ok (generateNormalReadmeContent structure basePath).

Definition sidebar_of (structure : item) (basePath : path) (isRoot : bool) : page :=
  if isRoot then generateRootSidebarContent structure basePath
  else generateSubdirSidebarContent structure basePath.

Fixpoint generateDocs (structure : item) (basePath : path) (isRoot : bool) : M unit :=
  match structure with
  | FileNode _ _ _ _ _ _ => fun w => (w, Throw)
  | DirNode name p _ children =>
      (console_log ("Generating README for: " ++ path_string p) ;;;
       readmeContent <~ reading (fun fs => readme_of fs structure basePath isRoot) ;;
       let readmePath := resolve p "README.md" in
       writeFileSync readmePath (render readmeContent) ;;;
       console_log ("Created: " ++ path_string readmePath) ;;;
       (if negb (name =? specifiedPath)%string then
          console_log ("Generating sidebar for: " ++ path_string p) ;;;
          let sidebarContent := sidebar_of structure basePath isRoot in
          let sidebarPath := resolve p "_sidebar.md" in
          writeFileSync sidebarPath (render sidebarContent) ;;;
          console_log ("Created: " ++ path_string sidebarPath)
        else ret tt) ;;;
       (fix forEach (items : list item) : M unit :=
          match items with
          | [] => ret tt
          | item :: rest =>
              (if is_directory item then generateDocs item basePath false
               else ret tt) ;;;
              forEach rest
          end) children)%process
  end.

Definition main (targetDir : path) (w : world) : world * outcome :=
  let (w1, _) := console_log ("Starting to generate docs from: "
                              ++ path_string targetDir) w in
  if negb (existsSync (disk w1) targetDir) then
    let (w2, _) := console_error ("Target directory does not exist: "
                                  ++ path_string targetDir) w1 in
    (w2, Exited 1)
  else
    match (structure <~ reading (fun fs => getDirectoryStructure fs targetDir 0) ;;
           generateDocs structure targetDir true ;;;
           console_log "Document generation completed.")%process w1 with
    | (w', Ok _) => (w', Completed)
    | (w', Throw) => (w', Crashed)
    end.
End Config.
End Final.

(** ** The script carried by [USAGE_EXAMPLE.md] *)

(** [s.split('/')] *)
Fixpoint split_slash (s : string) : list string :=
  match s with
  | EmptyString => [""]
  | String c s' =>
      if Ascii.eqb c "/"%char then "" :: split_slash s'
      else match split_slash s' with
           | part :: parts => String c part :: parts
           | [] => [String c ""]
           end
  end.

Module Usage.
Section Config.
Variable specifiedPath : string.

Definition generateRootReadmeContent (fs : node) (structure : item) (basePath : path) : page :=
  ([Txt ("# " ++ specifiedPath ++ nl ++ nl)]
   ++ root_table specifiedPath fs structure
   ++ [Txt (nl ++ "---" ++ nl ++ nl);
       Txt generated_notice;
       Txt (nl ++ "---" ++ nl);
       Txt ("**📞 聯繫資訊**" ++ nl ++ nl);
       Txt (nl ++ nl);
       Txt ("如有任何問題或建議，歡迎通過以下方式聯繫：" ++ nl ++ nl);
       Txt ("- 📧 微信: yeyang0802" ++ nl);
       Txt ("- 🐙 GitHub: [@yeyangchen2009](https://github.com/yeyangchen2009)" ++ nl ++ nl);
       Txt ("![](/_media/lxfs.jpg)" ++ nl);
       Txt (nl ++ nl);
       Txt ("**📄 版權聲明**" ++ nl ++ nl);
       Txt ("本項目僅供學習和研究使用，如需商業用途請聯繫相關版權方。" ++ nl)])%list.

(** The single row that stands for a sub-directory holding only
    sub-directories. *)
Definition rollup_row (fs : node) (basePath : path) (dir : item) : page :=
  [Txt "| ";
   Lnk ("总计：" ++ show_N (countMarkdownFiles fs (item_path dir)) ++ " 部书")
       (link_to basePath (item_path dir) ++ "/README.md");
   Txt (" | " ++ show_N (estimateDirectoryWordCount fs (item_path dir))
        ++ " 字 | " ++ formatted (getDirectorySize fs (item_path dir)) ++ " |" ++ nl)].

(** The rows of one sub-directory's table. *)
Definition subtable_rows (fs : node) (basePath : path) (dir : item)
           (subdirStructure : item) : page :=
  let files := filter is_file (item_children subdirStructure) in
  let subdirs := filter is_directory (item_children subdirStructure) in
  if 0 <? count_of files then flat_map (file_row basePath) files
  else if 0 <? count_of subdirs then rollup_row fs basePath dir
  else [].

Definition subtable (fs : node) (basePath : path) (dir : item) : result page :=
  subdirStructure <- getDirectoryStructure fs (item_path dir) 0 ;;
  Ok (subtable_head dir
      ++ subtable_rows fs basePath dir subdirStructure
      ++ [Txt nl])%list.

Definition generateSpecifiedPathReadmeContent
           (fs : node) (structure : item) (basePath : path) : result page :=
  tables <- for_each_page (subtable fs basePath)
                          (filter is_directory (item_children structure)) ;;
  Ok (overview fs structure [Lnk (item_name structure) "/README.md"]
      ++ tables ++ page_foot)%list.

Definition generateIntermediateReadmeContent
           (fs : node) (structure : item) (basePath : path) : page :=
  let directories := filter is_directory (item_children structure) in
  (page_head structure
   ++ file_list structure basePath
   ++ (if 0 <? count_of directories then
         [Txt ("## 子目录统计" ++ nl ++ nl);
          Txt ("| 目录名称 | 书籍数 | 预估字数 | 大小 |" ++ nl);
          Txt ("|---------|--------|----------|------|" ++ nl)]
         ++ flat_map (fun dir =>
                        totals_row fs (item_name dir)
                                   (link_to basePath (item_path dir) ++ "/README.md")
                                   (item_path dir))
                     directories
         ++ [Txt nl]
       else [])
   ++ page_foot)%list.

Definition generateNormalReadmeContent (structure : item) (basePath : path) : page :=
  let directories := filter is_directory (item_children structure) in
  (page_head structure
   ++ file_list structure basePath
   ++ (if 0 <? count_of directories then
         [Txt ("## 子目录" ++ nl ++ nl)]
         ++ flat_map (fun dir =>
                        bullet (item_name dir)
                               (link_to basePath (item_path dir) ++ "/README.md"))
                     directories
         ++ [Txt nl]
       else [])
   ++ page_foot)%list.

Definition generateRootSidebarContent (structure : item) (basePath : path) : page :=
  (bullet "首页" "/README.md" ++ root_sidebar_links specifiedPath structure)%list.

Definition generateSubdirSidebarContent (structure : item) (basePath : path) : page :=
  let relativePath := link_to basePath (item_path structure) in
  let pathParts := split_slash relativePath in
  let files := filter is_file (item_children structure) in
  let directories := filter is_directory (item_children structure) in
  (bullet "返回根目录" "/README.md"
   ++ (if count_of pathParts <=? 1 then bullet "返回上一级" "/README.md"
       else bullet "返回上一级"
                   (String.concat "/" (removelast pathParts) ++ "/README.md"))
   ++ (if (relativePath =? "")%string
       then bullet specifiedPath (specifiedPath ++ "/README.md")
       else bullet relativePath (relativePath ++ "/README.md"))
   ++ [Txt (nl ++ "---" ++ nl ++ nl)]
   ++ (if 0 <? count_of files then
         flat_map (fun item => bullet (item_name item)
                                      (link_to basePath (item_path item))) files
         ++ [Txt nl]
       else [])
   ++ (if 0 <? count_of directories then
         flat_map (fun dir => bullet (item_name dir)
                                     (link_to basePath (item_path dir) ++ "/README.md"))
                  directories
       else []))%list.

Definition readme_of (fs : node) (structure : item) (basePath : path) (isRoot : bool)
  : result page :=
  if isRoot then Ok (generateRootReadmeContent fs structure basePath)
  else if (item_name structure =? specifiedPath)%string
       then generateSpecifiedPathReadmeContent fs structure basePath
       else if existsb is_directory (item_children structure)
            then Ok (generateIntermediateReadmeContent fs structure basePath)
            else Ok (generateNormalReadmeContent structure basePath).

Definition sidebar_of (structure : item) (basePath : path) (isRoot : bool) : page :=
  if isRoot then generateRootSidebarContent structure basePath
  else if (item_name structure =? specifiedPath)%string
       then generateSubdirSidebarContent structure basePath
       else generateSubdirSidebarContent structure basePath.

Fixpoint generateDocs (structure : item) (basePath : path) (isRoot : bool) : M unit :=
  match structure with
  | FileNode _ _ _ _ _ _ => fun w => (w, Throw)
  | DirNode name p _ children =>
      (console_log ("Generating README for: " ++ path_string p) ;;;
       readmeContent <~ reading (fun fs => readme_of fs structure basePath isRoot) ;;
       let readmePath := resolve p "README.md" in
       writeFileSync readmePath (render readmeContent) ;;;
       console_log ("Created: " ++ path_string readmePath) ;;;
       console_log ("Generating sidebar for: " ++ path_string p) ;;;
       let sidebarContent := sidebar_of structure basePath isRoot in
       let sidebarPath := resolve p "_sidebar.md" in
       writeFileSync sidebarPath (render sidebarContent) ;;;
       console_log ("Created: " ++ path_string sidebarPath) ;;;
       (fix forEach (items : list item) : M unit :=
          match items with
          | [] => ret tt
          | item :: rest =>
              (if is_directory item then generateDocs item basePath false
               else ret tt) ;;;
              forEach rest
          end) children)%process
  end.

Definition main (targetDir : path) (w : world) : world * outcome :=
  let (w1, _) := console_log ("Starting to generate docs from: "
                              ++ path_string targetDir) w in
  if negb (existsSync (disk w1) targetDir) then
    let (w2, _) := console_error ("Target directory does not exist: "
                                  ++ path_string targetDir) w1 in
    (w2, Exited 1)
  else
    match (structure <~ reading (fun fs => getDirectoryStructure fs targetDir 0) ;;
           generateDocs structure targetDir true ;;;
           console_log "Document generation completed.")%process w1 with
    | (w', Ok _) => (w', Completed)
    | (w', Throw) => (w', Crashed)
    end.
End Config.
End Usage.

(** ** Induction on the file system *)

Section NodeInduction.
Variable P : node -> Prop.
Hypothesis P_File : forall size text, P (File size text).
Hypothesis P_Dir : forall readable es,
    Forall (fun e => P (snd e)) es -> P (Dir readable es).
Hypothesis P_Dangling : P Dangling.

Fixpoint node_ind (n : node) : P n :=
  match n with
  | File size text => P_File size text
  | Dir readable es =>
      P_Dir readable
            ((fix all (es : list (string * node)) : Forall (fun e => P (snd e)) es :=
                match es with
                | [] => Forall_nil _
                | e :: es' => Forall_cons e (node_ind (snd e)) (all es')
                end) es)
  | Dangling => P_Dangling
  end.
End NodeInduction.

(** ** The aggregators' loop, once

    [walk onDirectory onFile] is the [forEach] of the three aggregators
    with the additions abstracted; [contribution] is what one entry adds
    when the loop gets past it. *)

Section Walk.
Variable onDirectory : node -> N.
Variable onFile : string -> node -> N.

Fixpoint walk (total : N) (es : list (string * node)) : result N :=
  match es with
  | [] => Ok total
  | (file, c) :: rest =>
      match c with
      | Dangling => Throw
      | Dir _ _ => walk (total + onDirectory c) rest
      | File _ _ => walk (total + onFile file c) rest
      end
  end.

Definition contribution (e : string * node) : N :=
  match snd e with
  | Dangling => 0
  | Dir _ _ => onDirectory (snd e)
  | File _ _ => onFile (fst e) (snd e)
  end.
End Walk.

Definition is_dangling (n : node) : bool :=
  match n with
  | Dangling => true
  | _ => false
  end.

(** Every entry of the listing can be examined with [statSync]. *)
Definition examinable (es : list (string * node)) : bool :=
  forallb (fun e => negb (is_dangling (snd e))) es.

Definition sum (l : list N) : N := fold_right N.add 0 l.

Definition count_file (file : string) (c : node) : N :=
  if isMarkdown file then 1 else 0.

Definition words_file (file : string) (c : node) : N :=
  if isMarkdown file then wordCount_node c else 0.

Definition bytes_file (file : string) (c : node) : N := stat_size c.

(** ** Recursive additivity, as the specification words it *)

Definition is_directory_at (fs : node) (p : path) : bool :=
  match statSync fs p with
  | Ok n => isDirectory n
  | Throw => false
  end.

(** [file] is a document lying directly in [dir]. *)
Definition is_document_at (fs : node) (dir : path) (file : string) : bool :=
  match statSync fs (resolve dir file) with
  | Ok n => negb (isDirectory n) && isMarkdown file
  | Throw => false
  end.

Definition direct_documents (fs : node) (dir : path) : N :=
  match readdirSync fs dir with
  | Ok list => count_of (filter (is_document_at fs dir) list)
  | Throw => 0
  end.

Definition sub_directories (fs : node) (dir : path) : list path :=
  match readdirSync fs dir with
  | Ok list => map (resolve dir)
                   (filter (fun file => is_directory_at fs (resolve dir file)) list)
  | Throw => []
  end.

Definition recursive_additivity (fs : node) (dir : path) : Prop :=
  countMarkdownFiles fs dir
  = direct_documents fs dir + sum (map (countMarkdownFiles fs) (sub_directories fs dir)).

(** Every name the directory lists can be examined. *)
Definition entries_examinable (fs : node) (dir : path) : Prop :=
  forall list file,
    readdirSync fs dir = Ok list -> In file list ->
    existsSync fs (resolve dir file) = true.

(** A documents directory holding one document and a link to nothing. *)
Definition broken_link_fs : node :=
  Dir true [("docs", Dir true [("a.md", File 3 (Some 3)); ("gone", Dangling)])].

(** ** Files without the document extension *)

(** An entry that is not a regular file named without the extension. *)
Definition keep_entry (e : string * node) : bool :=
  match snd e with
  | File _ _ => isMarkdown (fst e)
  | _ => true
  end.

(** The file system once every regular file whose name lacks the
    extension is removed, at every depth. *)
Fixpoint without_other_files (n : node) : node :=
  match n with
  | Dir r es =>
      Dir r (filter keep_entry (map (fun e => (fst e, without_other_files (snd e))) es))
  | _ => n
  end.

(** An entry with the other files removed below it. *)
Definition pruned (e : string * node) : string * node :=
  (fst e, without_other_files (snd e)).

(** The three aggregates of [p] do not see the files that lack the
    extension. *)
Definition other_files_ignored (fs : node) (p : path) : Prop :=
  countMarkdownFiles (without_other_files fs) p = countMarkdownFiles fs p
  /\ estimateDirectoryWordCount (without_other_files fs) p
     = estimateDirectoryWordCount fs p
  /\ getDirectorySize (without_other_files fs) p = getDirectorySize fs p.

(** What an entry adds to the byte size of the directory listing it. *)
Definition entry_bytes (e : string * node) : N :=
  match snd e with
  | File size _ => size
  | Dir _ _ => directorySize_node (snd e)
  | Dangling => 0
  end.

Definition notes_fs : node :=
  Dir true [("docs", Dir true [("a.md", File 30 (Some 30));
                               ("notes.txt", File 10 (Some 10))])].

(** ** Sample trees *)

(** A documents directory in which the generator has run before. *)
Definition regenerated_fs : node :=
  Dir true [("docs", Dir true [("README.md", File 600 (Some 600));
                               ("_sidebar.md", File 90 (Some 90));
                               ("a.md", File 30 (Some 30))])].

(** A sub-directory that cannot be listed. *)
Definition locked_fs : node :=
  Dir true [("docs", Dir true [("a.md", File 3 (Some 3));
                               ("private", Dir false [])])].

(** The scenario of the specification: the collection [C] holds [A], with
    documents of 500 and 2000 bytes, and [B], which holds only [B1] with a
    document of 10 bytes. *)
Definition scenario_fs : node :=
  Dir true
      [("r", Dir true
                 [("C", Dir true
                            [("A", Dir true [("b.md", File 2000 (Some 2000));
                                             ("a.md", File 500 (Some 500))]);
                             ("B", Dir true
                                       [("B1", Dir true [("x.md", File 10 (Some 10))])])])])].

Definition start (fs : node) : world := {| disk := fs; trace := [] |}.

(** The files written, in order. *)
Definition written (t : list event) : list path :=
  flat_map (fun e => match e with
                     | WriteFile file _ => [file]
                     | _ => []
                     end) t.

Definition errors_reported (t : list event) : list string :=
  flat_map (fun e => match e with
                     | ConsoleError message => [message]
                     | _ => []
                     end) t.

(** ** Unit bands *)

Inductive band := Bytes | Kilobytes | Megabytes.

Definition band_of (n : N) : band :=
  if n <? 1024 then Bytes
  else if n <? 1024 * 1024 then Kilobytes
  else Megabytes.

Definition suffix (b : band) : string :=
  match b with
  | Bytes => " B"
  | Kilobytes => " KB"
  | Megabytes => " MB"
  end.

(** The number [format_size] prints for [n] bytes, in hundredths of the
    unit of its band. *)
Definition shown_hundredths (n : N) : N :=
  match band_of n with
  | Bytes => 100 * n
  | Kilobytes => round_hundredths n 1024
  | Megabytes => round_hundredths n (1024 * 1024)
  end.

(** The number printed stays below 1024 units. *)
Definition below_1024_units (n : N) : Prop := shown_hundredths n < 1024 * 100.

(** The run that stops at the missing root: two messages, exit code 1. *)
Definition aborted_run (targetDir : path) (w : world) : world * outcome :=
  ({| disk := disk w;
      trace := (trace w
                ++ [ConsoleLog ("Starting to generate docs from: "
                                ++ path_string targetDir);
                    ConsoleError ("Target directory does not exist: "
                                  ++ path_string targetDir)])%list |},
   Exited 1).

(** ** The scanner's loops, named

    [scan_dirs scan] is the inner loop of [scan_node] with the recursive
    call abstracted. *)

Section ScanDirs.
Variable scan : path -> N -> node -> result item.
Variable dir : path.
Variable depth : N.

Fixpoint scan_dirs (es : list (string * node)) : result (list item) :=
  match es with
  | [] => Ok []
  | (file, c) :: rest =>
      if includes ignoreFiles file then scan_dirs rest
      else match c with
           | Dir _ _ =>
               d <- scan (resolve dir file) (depth + 1) c ;;
               ds <- scan_dirs rest ;;
               Ok (d :: ds)
           | _ => scan_dirs rest
           end
  end.
End ScanDirs.

(** An entry the scanner takes for a document: a regular file, named with
    the extension, whose name is not reserved. *)
Definition is_document_entry (e : string * node) : bool :=
  negb (includes ignoreFiles (fst e))
  && match snd e with
     | File _ _ => isMarkdown (fst e)
     | _ => false
     end.

(** An entry the scanner takes for a sub-directory. *)
Definition is_subdirectory_entry (e : string * node) : bool :=
  negb (includes ignoreFiles (fst e)) && isDirectory (snd e).

(** The link a template computes for a child of the directory it renders. *)
Definition child_link (basePath : path) (c : item) : string * string :=
  (item_name c,
   link_to basePath (item_path c) ++ (if is_directory c then "/README.md" else "")).

(** The segments [rel], counted from the scan root, as a link. *)
Definition root_relative (rel : path) : string :=
  replace_backslashes (String.concat "/" rel).

(** The links of [pg] reach the documents of [structure] by their path
    relative to the directory of [structure] itself. *)
Definition links_relative_to_page (pg : page) (structure : item) : Prop :=
  forall c, In c (item_children structure) -> is_file c = true ->
            In (item_name c, link_to (item_path structure) (item_path c)) (links pg).

(** The directory [A] of the scenario, as scanned from the root [/r]. *)
Definition scenario_A : item :=
  DirNode "A" ["r"; "C"; "A"] 2
          [FileNode "a" ["r"; "C"; "A"; "a.md"] 3 500 "500 B" 167;
           FileNode "b" ["r"; "C"; "A"; "b.md"] 3 2000 "1.95 KB" 667].

(** ** The designated-collection page, from the file system *)

(** The documents lying directly in [dir], and its sub-directories, as the
    scanner classifies the entries. *)
Definition documents_in (fs : node) (dir : path) : list (string * node) :=
  match statSync fs dir with
  | Ok (Dir true es) => filter is_document_entry es
  | _ => []
  end.

Definition subdirectories_in (fs : node) (dir : path) : list (string * node) :=
  match statSync fs dir with
  | Ok (Dir true es) => filter is_subdirectory_entry es
  | _ => []
  end.

(** The rows the specification asks for in the table of the sub-directory
    [dir]: its documents when it has some, one roll-up row when it has
    only sub-directories. *)
Definition expected_rows (fs : node) (basePath : path) (dir : item) : page :=
  let documents := documents_in fs (item_path dir) in
  if 0 <? count_of documents then
    flat_map (file_row basePath)
             (map (file_node (item_path dir) 0) (sort_by fst documents))
  else if 0 <? count_of (subdirectories_in fs (item_path dir)) then
    [Txt "| ";
     Lnk ("总计：" ++ show_N (countMarkdownFiles fs (item_path dir)) ++ " 部书")
         (link_to basePath (item_path dir) ++ "/README.md");
     Txt (" | " ++ show_N (estimateDirectoryWordCount fs (item_path dir))
          ++ " 字 | " ++ formatted (getDirectorySize fs (item_path dir)) ++ " |" ++ nl)]
  else [].

Definition expected_table (fs : node) (basePath : path) (dir : item) : page :=
  (subtable_head dir ++ expected_rows fs basePath dir ++ [Txt nl])%list.

(** The table that lists the documents of [dir] and nothing else. *)
Definition documents_table (fs : node) (basePath : path) (dir : item) : page :=
  (subtable_head dir
   ++ flat_map (file_row basePath)
               (map (file_node (item_path dir) 0)
                    (sort_by fst (documents_in fs (item_path dir))))
   ++ [Txt nl])%list.

(** The directory [B] of the scenario, as scanned from the root [/r]. *)
Definition scenario_B : item :=
  DirNode "B" ["r"; "C"; "B"] 2
          [DirNode "B1" ["r"; "C"; "B"; "B1"] 3
                   [FileNode "x" ["r"; "C"; "B"; "B1"; "x.md"] 4 10 "10 B" 3]].

(** The collection [C] of the scenario, as scanned from the root [/r]. *)
Definition scenario_C : item :=
  DirNode "C" ["r"; "C"] 1 [scenario_A; scenario_B].

(** ** Induction on the scanned tree *)

Section ItemInduction.
Variable P : item -> Prop.
Hypothesis P_FileNode :
  forall name p depth size formattedSize wordCount,
    P (FileNode name p depth size formattedSize wordCount).
Hypothesis P_DirNode :
  forall name p depth children, Forall P children -> P (DirNode name p depth children).

Fixpoint item_ind (i : item) : P i :=
  match i with
  | FileNode name p depth size formattedSize wordCount =>
      P_FileNode name p depth size formattedSize wordCount
  | DirNode name p depth children =>
      P_DirNode name p depth
                ((fix all (l : list item) : Forall P l :=
                    match l with
                    | [] => Forall_nil _
                    | c :: l' => Forall_cons c (item_ind c) (all l')
                    end) children)
  end.
End ItemInduction.

(** ** What the emitter is to write *)

(** The directories [generateDocs] visits: the node, then the directories
    below each of its children in turn. *)
Fixpoint visited (structure : item) : list item :=
  match structure with
  | FileNode _ _ _ _ _ _ => []
  | DirNode _ _ _ children => structure :: flat_map visited children
  end.

Definition index_page (d : item) : path := resolve (item_path d) "README.md".
Definition sidebar_page (d : item) : path := resolve (item_path d) "_sidebar.md".

(** Index page then sidebar, for every directory visited. *)
Definition two_files_each (structure : item) : list path :=
  flat_map (fun d => [index_page d; sidebar_page d]) (visited structure).

(** Index page then sidebar, the sidebar being left out for a directory
    named as the designated collection. *)
Definition files_of_final (specifiedPath : string) (structure : item) : list path :=
  flat_map (fun d => index_page d
                     :: (if negb (item_name d =? specifiedPath)%string
                         then [sidebar_page d] else []))
           (visited structure).

(** The emitter [generate] writes the files [files], in that order: a run
    that ends normally has written them all, a run cut short by an
    exception has written the first of them. *)
Definition writes {A} (generate : M A) (files : list path) : Prop :=
  forall w w' r,
    generate w = (w', r) ->
    exists new,
      trace w' = (trace w ++ new)%list
      /\ (exists rest, files = (written new ++ rest)%list)
      /\ (r <> Throw -> written new = files).

(** Every run of [generate] writes two files for each directory visited. *)
Definition writes_two_files_each (generate : item -> path -> bool -> M unit) : Prop :=
  forall structure basePath isRoot,
    writes (generate structure basePath isRoot) (two_files_each structure).

(** The scenario tree, as scanned from its root [/r]. *)
Definition scenario_root : item := DirNode "r" ["r"] 0 [scenario_C].

(** ** [write_node], its loop named *)

Section UpdateEntries.
Variable write_child : node -> result node.
Variable s : string.
Variable created : result (list (string * node)).

Fixpoint update_entries (es : list (string * node)) : result (list (string * node)) :=
  match es with
  | [] => created
  | (name, c) :: rest =>
      if (name =? s)%string
      then c' <- write_child c ;; Ok ((name, c') :: rest)
      else rest' <- update_entries rest ;; Ok ((name, c) :: rest')
  end.
End UpdateEntries.

(** [q] leads to [p] or to a directory above it. *)
Definition on_the_way (q p : path) : Prop := exists rest, p = (q ++ rest)%list.

(** ** The aggregators' loop, path by path

    The scripts recurse on paths: each round resolves the name against the
    directory, examines the path and calls the aggregator on the path of a
    sub-directory.  [walk_listing] is that loop, word for word; the
    aggregators above, which recurse on the entries instead, are shown to
    satisfy the scripts' own equations ([countMarkdownFiles_equation] and
    the like). *)

Section WalkListing.
Variable fs : node.
Variable dirPath : path.
Variable onDirectory : path -> N.
Variable onFile : string -> node -> path -> N.

Fixpoint walk_listing (total : N) (list : list string) : result N :=
  match list with
  | [] => Ok total
  | file :: rest =>
      let fullPath := resolve dirPath file in
      stat <- statSync fs fullPath ;;
      if isDirectory stat then walk_listing (total + onDirectory fullPath) rest
      else walk_listing (total + onFile file stat fullPath) rest
  end.
End WalkListing.

(** ** The scanner, path by path

    [getDirectoryStructure] as its source text reads: the listing is
    partitioned by examining each path, the two lists of names are sorted,
    and the sub-directories are scanned in sorted order by a call on their
    paths ([getDirectoryStructure_equation] shows the scanner above
    satisfies it). *)

Fixpoint map_result {A B} (f : A -> result B) (l : list A) : result (list B) :=
  match l with
  | [] => Ok []
  | x :: l' =>
      y <- f x ;;
      ys <- map_result f l' ;;
      Ok (y :: ys)
  end.

Section ScanListing.
Variable fs : node.
Variable dir : path.

(** The first [forEach]: the documents and the directories, by name. *)
Fixpoint partition_listing (listing : list string)
  : result (list string * list string) :=
  match listing with
  | [] => Ok ([], [])
  | file :: rest =>
      if includes ignoreFiles file then partition_listing rest
      else
        stat <- statSync fs (resolve dir file) ;;
        parts <- partition_listing rest ;;
        Ok (if isDirectory stat then (fst parts, file :: snd parts)
            else if isMarkdown file then (file :: fst parts, snd parts)
            else parts)
  end.

(** The node pushed for the document [file]. *)
Definition file_node_at (depth : N) (file : string) : item :=
  let fullPath := resolve dir file in
  let fileSize := getFileSize fs fullPath in
  let wordCount := estimateWordCount fs fullPath in
  FileNode (basename_ext file ".md") fullPath (depth + 1)
           (size fileSize) (formatted fileSize) wordCount.
End ScanListing.

Definition sort_names (names : list string) : list string :=
  sort_by (fun name => name) names.

(** ** Runs that end normally *)

(** The two names the emitter writes. *)
Definition is_generated (name : string) : bool :=
  (name =? "README.md")%string || (name =? "_sidebar.md")%string.

(** The file system without the entries bearing a reserved name, at every
    depth: what the scanner looks at. *)
Definition not_reserved (e : string * node) : bool :=
  negb (includes ignoreFiles (fst e)).

Fixpoint without_reserved (n : node) : node :=
  match n with
  | Dir r es =>
      Dir r (filter not_reserved (map (fun e => (fst e, without_reserved (snd e))) es))
  | _ => n
  end.

(** An entry with the reserved names removed below it. *)
Definition stripped (e : string * node) : string * node :=
  (fst e, without_reserved (snd e)).

(** The directory at [p] can be scanned and can receive the two pages. *)
Definition ready (fs : node) (p : path) : Prop :=
  (exists m, statSync fs p = Ok m /\ isDirectory m = true
             /\ scan_node p 0 m <> Throw)
  /\ forall g, is_generated g = true -> is_directory_at fs (resolve p g) = false.

(** No directory bears the name of a generated page. *)
Definition no_generated_directory (fs : node) : Prop :=
  forall p g, is_generated g = true -> is_directory_at fs (resolve p g) = false.

(** Every directory the emitter is to visit is ready. *)
Definition all_ready (fs : node) (structure : item) : Prop :=
  Forall (fun d => ready fs (item_path d)) (visited structure).

(** The computation [m], started in [w], ends normally in a world where
    [Q] holds of its result. *)
Definition ends_normally {A} (m : M A) (w : world) (Q : A -> world -> Prop) : Prop :=
  exists w' a, m w = (w', Ok a) /\ Q a w'.

(** What was ready in [w] is ready in [w']. *)
Definition keeps_ready (w w' : world) : Prop :=
  forall p, ready (disk w) p -> ready (disk w') p.

(** A test for [no_generated_directory] that computes. *)
Fixpoint plain (n : node) : bool :=
  match n with
  | Dir _ es =>
      forallb (fun e => negb (is_generated (fst e) && isDirectory (snd e))
                        && plain (snd e)) es
  | _ => true
  end.

(** ** Additivity of the content volume and of the byte size *)

(** The content volume of [dir] is that of the documents lying directly in
    it plus that of its sub-directories. *)
Definition volume_additivity (fs : node) (dir : path) : Prop :=
  estimateDirectoryWordCount fs dir
  = match readdirSync fs dir with
    | Ok list =>
        sum (map (fun file => estimateWordCount fs (resolve dir file))
                 (filter (is_document_at fs dir) list))
    | Throw => 0
    end
    + sum (map (estimateDirectoryWordCount fs) (sub_directories fs dir)).

(** The byte size of [dir] is that of the entries lying directly in it
    that are not directories, whatever their names, plus that of its
    sub-directories. *)
Definition size_additivity (fs : node) (dir : path) : Prop :=
  size (getDirectorySize fs dir)
  = match readdirSync fs dir with
    | Ok list =>
        sum (map (fun file => size (getFileSize fs (resolve dir file)))
                 (filter (fun file => negb (is_directory_at fs (resolve dir file))) list))
    | Throw => 0
    end
    + sum (map (fun p => size (getDirectorySize fs p)) (sub_directories fs dir)).

(** ** The scanned tree, as a whole *)

Definition item_depth (i : item) : N :=
  match i with
  | FileNode _ _ depth _ _ _ => depth
  | DirNode _ _ depth _ => depth
  end.

(** The node and all the nodes below it. *)
Fixpoint nodes (i : item) : list item :=
  match i with
  | FileNode _ _ _ _ _ _ => [i]
  | DirNode _ _ _ children => i :: flat_map nodes children
  end.

(** The file name of a node: the last segment of its path. *)
Definition file_name (i : item) : string := basename (item_path i).

(** [a] is listed before [b] by [Array.prototype.sort()], for names
    within the Basic Multilingual Plane ([basic_plane] below): the bytes of
    the name of [a] come before those of [b], or are the same. *)
Definition by_file_name (a b : item) : Prop :=
  String.leb (file_name a) (file_name b) = true.

(** The documents of a scanned tree, and the content volume its file nodes
    carry. *)
Fixpoint tree_documents (i : item) : N :=
  match i with
  | FileNode _ _ _ _ _ _ => 1
  | DirNode _ _ _ children => sum (map tree_documents children)
  end.

Fixpoint tree_volume (i : item) : N :=
  match i with
  | FileNode _ _ _ _ _ wordCount => wordCount
  | DirNode _ _ _ children => sum (map tree_volume children)
  end.

(** No entry, at any depth, bears a reserved name: the state of a
    collection the generator has not run in. *)
Fixpoint no_reserved_name (n : node) : bool :=
  match n with
  | Dir _ es =>
      forallb (fun e => negb (includes ignoreFiles (fst e)) && no_reserved_name (snd e)) es
  | _ => true
  end.

(** An entry the scanner keeps as a child. *)
Definition is_child_entry (e : string * node) : bool :=
  is_document_entry e || is_subdirectory_entry e.

(** ** What a run may change *)

(** [after] is [before] once some files named as generated pages have been
    written, one after the other. *)
Inductive pages_written (before : node) : node -> Prop :=
| pages_none : pages_written before before
| pages_more (fs fs' : node) (dir : path) (g data : string) :
    pages_written before fs ->
    is_generated g = true ->
    write_node fs (resolve dir g) (file_of data) = Ok fs' ->
    pages_written before fs'.

(** The entry [x] found at [q] was left alone: in [after] the path still
    leads somewhere, to a directory if [x] is one, and to [x] itself if [x]
    is a regular file not named as a generated page. *)
Definition left_alone (x : node) (q : path) (after : node) : Prop :=
  existsSync after q = true
  /\ (isDirectory x = true -> is_directory_at after q = true)
  /\ (isDirectory x = false -> is_generated (basename q) = false ->
      statSync after q = Ok x).

(** Whatever its result, [m] changes the disk by writing generated pages
    only. *)
Definition only_pages {A} (m : M A) : Prop :=
  forall w w' r, m w = (w', r) -> pages_written (disk w) (disk w').

(** ** When the scan succeeds *)

(** The directory can be listed, no entry the scanner examines in it is a
    dangling link, and the same holds of every sub-directory the scanner
    enters; entries bearing a reserved name are not looked at. *)
Fixpoint can_be_scanned (n : node) : bool :=
  match n with
  | Dir true es =>
      forallb (fun e => includes ignoreFiles (fst e)
                        || match snd e with
                           | Dangling => false
                           | File _ _ => true
                           | Dir _ _ => can_be_scanned (snd e)
                           end) es
  | _ => false
  end.

(** The run that dies of an exception right after its first message. *)
Definition crashed_run (targetDir : path) (w : world) : world * outcome :=
  ({| disk := disk w;
      trace := (trace w
                ++ [ConsoleLog ("Starting to generate docs from: "
                                ++ path_string targetDir)])%list |},
   Crashed).

(** ** The links of the root pages *)

(** The link to the index page of the directory [d], as it reads on a page
    lying in [basePath]. *)
Definition index_link (basePath : path) (d : item) : string * string :=
  (item_name d, relative basePath (index_page d)).

(** ** Names *)

(** No path separator, of either kind, occurs in [s]. *)
Fixpoint no_separator (s : string) : bool :=
  match s with
  | EmptyString => true
  | String c s' =>
      negb (Ascii.eqb c "/"%char) && negb (Ascii.eqb c "\"%char) && no_separator s'
  end.

(** A name a directory entry can bear, the backslash being left out. *)
Definition proper_name (s : string) : bool :=
  negb (s =? "")%string && no_separator s.

(** ** Where whole numbers are exact

    The scripts compute with binary64 numbers, which hold every whole
    number below [2 ^ 53] exactly. *)

(** A sum of byte sizes that the scripts hold exactly: every partial sum
    is a whole number no larger. *)
Definition exact_bytes (n : N) : Prop := n < 2 ^ 53.

(** A byte size whose hundredfold is exact: [size / unit] is exact for a
    unit that is a power of two, and so is its product by 100, so that
    [Math.round] is applied to the very quotient [100 * size / unit]. *)
Definition exact_hundredths (n : N) : Prop := 100 * n < 2 ^ 53.

(** The two units [getFileSize] and [getDirectorySize] divide by. *)
Definition is_unit (unit : N) : Prop := unit = 1024 \/ unit = 1024 * 1024.

(** ** Names within the Basic Multilingual Plane *)

(** Read as UTF-8, [s] holds no four-byte sequence: none of its characters
    lies in a supplementary plane.  Between such names the order of the
    bytes is the order of the UTF-16 code units, the one
    [Array.prototype.sort()] sorts by; a character of a supplementary
    plane is two surrogates in UTF-16 and sorts there before the characters
    from U+E000 on, which its bytes follow. *)
Fixpoint basic_plane (s : string) : bool :=
  match s with
  | EmptyString => true
  | String c s' => (N_of_ascii c <? 240) && basic_plane s'
  end.

(** Every directory from [p] down to [p ++ rel] can be listed, and every
    entry of each of them can be examined. *)
Definition examinable_down (fs : node) (p rel : path) : Prop :=
  forall k, exists es,
      statSync fs (p ++ firstn k rel)%list = Ok (Dir true es)
      /\ examinable es = true.

(** ** The links of the designated-collection page *)

(** The links of the table of the sub-directory [dir] on the
    designated-collection page: one for each document lying directly in
    [dir]; failing documents, and where the template has the branch
    ([rollup]), the link of the roll-up row when [dir] holds
    sub-directories. *)
Definition table_links (rollup : bool) (fs : node) (basePath : path) (dir : item)
  : list (string * string) :=
  let documents := documents_in fs (item_path dir) in
  if 0 <? count_of documents then
    map (child_link basePath)
        (map (file_node (item_path dir) 0) (sort_by fst documents))
  else if rollup && (0 <? count_of (subdirectories_in fs (item_path dir))) then
    [(("总计：" ++ show_N (countMarkdownFiles fs (item_path dir)) ++ " 部书")%string,
      (link_to basePath (item_path dir) ++ "/README.md")%string)]
  else [].

(** ** The emitter, whatever the platform's write does

    What [fs.writeFileSync] does to the disk depends on things that a tree
    of entries does not show: a name that is a symbolic link, or that
    shares its file with another name, is written through, so that the
    write lands elsewhere; and a write may be refused.  [write_node] is the
    write to an ordinary entry of a directory that may be written to, and
    the scripts above are the scripts on such a disk.  Here the emitter is
    taken over any [writer]: a function that gives, for the disk, the path
    and the data, the disk after the call and whether the call returned or
    raised an exception. *)

Definition writer : Type := node -> path -> string -> node * result unit.

(** The writer of a disk where the name written is an ordinary entry and
    the write is not refused. *)
Definition in_place : writer :=
  fun fs file data =>
    match write_node fs file (file_of data) with
    | Ok fs' => (fs', Ok tt)
    | Throw => (fs, Throw)
    end.

Module Platform.

Definition writeFileSync (write : writer) (file : path) (data : string) : M unit :=
  fun w => match write (disk w) file data with
           | (fs', Ok _) =>
               ({| disk := fs'; trace := (trace w ++ [WriteFile file data])%list |}, Ok tt)
           | (fs', Throw) => ({| disk := fs'; trace := trace w |}, Throw)
           end.

Module Final.
Section Config.
Variable write : writer.
Variable specifiedPath : string.

Fixpoint generateDocs (structure : item) (basePath : path) (isRoot : bool) : M unit :=
  match structure with
  | FileNode _ _ _ _ _ _ => fun w => (w, Throw)
  | DirNode name p _ children =>
      (console_log ("Generating README for: " ++ path_string p) ;;;
       readmeContent <~ reading (fun fs => Final.readme_of specifiedPath fs structure
                                                           basePath isRoot) ;;
       let readmePath := resolve p "README.md" in
       writeFileSync write readmePath (render readmeContent) ;;;
       console_log ("Created: " ++ path_string readmePath) ;;;
       (if negb (name =? specifiedPath)%string then
          console_log ("Generating sidebar for: " ++ path_string p) ;;;
          let sidebarContent := Final.sidebar_of specifiedPath structure basePath isRoot in
          let sidebarPath := resolve p "_sidebar.md" in
          writeFileSync write sidebarPath (render sidebarContent) ;;;
          console_log ("Created: " ++ path_string sidebarPath)
        else ret tt) ;;;
       (fix forEach (items : list item) : M unit :=
          match items with
          | [] => ret tt
          | item :: rest =>
              (if is_directory item then generateDocs item basePath false
               else ret tt) ;;;
              forEach rest
          end) children)%process
  end.

Definition main (targetDir : path) (w : world) : world * outcome :=
  let (w1, _) := console_log ("Starting to generate docs from: "
                              ++ path_string targetDir) w in
  if negb (existsSync (disk w1) targetDir) then
    let (w2, _) := console_error ("Target directory does not exist: "
                                  ++ path_string targetDir) w1 in
    (w2, Exited 1)
  else
    match (structure <~ reading (fun fs => getDirectoryStructure fs targetDir 0) ;;
           generateDocs structure targetDir true ;;;
           console_log "Document generation completed.")%process w1 with
    | (w', Ok _) => (w', Completed)
    | (w', Throw) => (w', Crashed)
    end.
End Config.
End Final.

Module Usage.
Section Config.
Variable write : writer.
Variable specifiedPath : string.

Fixpoint generateDocs (structure : item) (basePath : path) (isRoot : bool) : M unit :=
  match structure with
  | FileNode _ _ _ _ _ _ => fun w => (w, Throw)
  | DirNode name p _ children =>
      (console_log ("Generating README for: " ++ path_string p) ;;;
       readmeContent <~ reading (fun fs => Usage.readme_of specifiedPath fs structure
                                                           basePath isRoot) ;;
       let readmePath := resolve p "README.md" in
       writeFileSync write readmePath (render readmeContent) ;;;
       console_log ("Created: " ++ path_string readmePath) ;;;
       console_log ("Generating sidebar for: " ++ path_string p) ;;;
       let sidebarContent := Usage.sidebar_of specifiedPath structure basePath isRoot in
       let sidebarPath := resolve p "_sidebar.md" in
       writeFileSync write sidebarPath (render sidebarContent) ;;;
       console_log ("Created: " ++ path_string sidebarPath) ;;;
       (fix forEach (items : list item) : M unit :=
          match items with
          | [] => ret tt
          | item :: rest =>
              (if is_directory item then generateDocs item basePath false
               else ret tt) ;;;
              forEach rest
          end) children)%process
  end.

Definition main (targetDir : path) (w : world) : world * outcome :=
  let (w1, _) := console_log ("Starting to generate docs from: "
                              ++ path_string targetDir) w in
  if negb (existsSync (disk w1) targetDir) then
    let (w2, _) := console_error ("Target directory does not exist: "
                                  ++ path_string targetDir) w1 in
    (w2, Exited 1)
  else
    match (structure <~ reading (fun fs => getDirectoryStructure fs targetDir 0) ;;
           generateDocs structure targetDir true ;;;
           console_log "Document generation completed.")%process w1 with
    | (w', Ok _) => (w', Completed)
    | (w', Throw) => (w', Crashed)
    end.
End Config.
End Usage.

End Platform.

(** The pages are written in place: a call for a generated page that
    returns has created or replaced the entry at its path and changed
    nothing else, and a call that raises has changed nothing.  This is so
    where no name [README.md] or [_sidebar.md] is a link or shares its file
    with another name. *)
Definition pages_in_place (write : writer) : Prop :=
  forall fs dir g data,
    is_generated g = true ->
    match write fs (resolve dir g) data with
    | (fs', Ok _) => write_node fs (resolve dir g) (file_of data) = Ok fs'
    | (fs', Throw) => fs' = fs
    end.

(** The pages are written in place and no write of a page is refused. *)
Definition pages_as_ordinary (write : writer) : Prop :=
  forall fs dir g data,
    is_generated g = true ->
    write fs (resolve dir g) data = in_place fs (resolve dir g) data.

(** * Properties *)

Unset Implicit Arguments.

(** ** The file system *)

Lemma statSync_nil_Ok (n c : node) : statSync n [] = Ok c -> c = n /\ n <> Dangling.
Proof. destruct n; simpl; intros H; inversion H; split; congruence. Qed.

Lemma statSync_app (fs : node) (p q : path) :
  statSync fs (p ++ q)%list = (n <- statSync fs p ;; statSync n q).
Proof.
  revert fs; induction p as [|s p IH]; intros fs; simpl.
  - destruct fs; simpl; try reflexivity. destruct q; reflexivity.
  - destruct fs; simpl; try reflexivity.
    destruct (find_entry s entries); [apply IH | reflexivity].
Qed.

Lemma statSync_resolve (fs : node) (dir : path) (file : string) :
  statSync fs (resolve dir file) = (n <- statSync fs dir ;; statSync n [file]).
Proof. apply statSync_app. Qed.

Lemma find_entry_In (name : string) (es : list (string * node)) (c : node) :
  find_entry name es = Some c -> In (name, c) es.
Proof.
  induction es as [|[n d] es IH]; simpl; [discriminate|].
  destruct (String.eqb_spec n name) as [->|]; intros H.
  - inversion H; auto.
  - right; auto.
Qed.

Lemma find_entry_None (name : string) (es : list (string * node)) :
  find_entry name es = None -> ~ In name (map fst es).
Proof.
  induction es as [|[n d] es IH]; simpl; [tauto|].
  destruct (String.eqb_spec n name) as [->|]; [discriminate|].
  intros H [E|E]; [congruence | exact (IH H E)].
Qed.

Lemma find_entry_unique (name : string) (c : node) (es : list (string * node)) :
  NoDup (map fst es) -> In (name, c) es -> find_entry name es = Some c.
Proof.
  induction es as [|[n d] es IH]; simpl; [tauto|].
  intros ND [E|E].
  - inversion E; subst. now rewrite String.eqb_refl.
  - inversion ND; subst.
    destruct (String.eqb_spec n name) as [->|].
    + exfalso. apply H1. apply (in_map fst) in E. exact E.
    + auto.
Qed.

(** Examining the entry [file] of a listed directory. *)
Lemma stat_entry (r : bool) (es : list (string * node)) (file : string) :
  statSync (Dir r es) [file]
  = match find_entry file es with
    | Some Dangling | None => Throw
    | Some c => Ok c
    end.
Proof.
  simpl. destruct (find_entry file es) as [[]|]; reflexivity.
Qed.

(** ** The aggregators' loop *)

Section WalkFacts.
Variable onDirectory : node -> N.
Variable onFile : string -> node -> N.

Lemma walk_examinable (es : list (string * node)) (total : N) :
  examinable es = true ->
  walk onDirectory onFile total es
  = Ok (total + sum (map (contribution onDirectory onFile) es)).
Proof.
  revert total; induction es as [|[file c] es IH]; intros total; simpl.
  - intros _. now rewrite N.add_0_r.
  - intros H. apply andb_true_iff in H as [Hc Hes].
    destruct c; simpl in *; try discriminate;
      rewrite IH by assumption; unfold contribution; simpl;
      now rewrite N.add_assoc.
Qed.

Lemma walk_dangling (es : list (string * node)) (total : N) :
  examinable es = false -> walk onDirectory onFile total es = Throw.
Proof.
  revert total; induction es as [|[file c] es IH]; intros total; simpl.
  - discriminate.
  - destruct c; simpl; auto.
Qed.

(** The loop never yields a partial sum: all of the listing or nothing. *)
Lemma try_walk (es : list (string * node)) :
  try_catch (walk onDirectory onFile 0 es) 0
  = if examinable es then sum (map (contribution onDirectory onFile) es) else 0.
Proof.
  destruct (examinable es) eqn:E.
  - now rewrite walk_examinable.
  - now rewrite walk_dangling.
Qed.
End WalkFacts.

Lemma countMarkdown_node_walk (es : list (string * node)) :
  countMarkdown_node (Dir true es)
  = try_catch (walk countMarkdown_node count_file 0 es) 0.
Proof.
  simpl. f_equal. generalize 0 as count.
  induction es as [|[file c] es IH]; intros count; [reflexivity|].
  destruct c; simpl; auto.
  unfold count_file. destruct (isMarkdown file); [apply IH|].
  rewrite N.add_0_r. apply IH.
Qed.

Lemma wordCountDir_node_walk (es : list (string * node)) :
  wordCountDir_node (Dir true es)
  = try_catch (walk wordCountDir_node words_file 0 es) 0.
Proof.
  simpl. f_equal. generalize 0 as total.
  induction es as [|[file c] es IH]; intros total; [reflexivity|].
  destruct c; simpl; auto.
  unfold words_file. destruct (isMarkdown file); [apply IH|].
  rewrite N.add_0_r. apply IH.
Qed.

Lemma directorySize_node_walk (es : list (string * node)) :
  directorySize_node (Dir true es)
  = try_catch (walk directorySize_node bytes_file 0 es) 0.
Proof. reflexivity. Qed.

Lemma countMarkdown_node_not_listable (n : node) :
  readdir_node n = Throw -> countMarkdown_node n = 0.
Proof. destruct n as [| [] |]; simpl; congruence. Qed.

Lemma wordCountDir_node_not_listable (n : node) :
  readdir_node n = Throw -> wordCountDir_node n = 0.
Proof. destruct n as [| [] |]; simpl; congruence. Qed.

Lemma directorySize_node_not_listable (n : node) :
  readdir_node n = Throw -> directorySize_node n = 0.
Proof. destruct n as [| [] |]; simpl; congruence. Qed.

Lemma sum_app (l l' : list N) : sum (l ++ l') = sum l + sum l'.
Proof.
  induction l as [|x l IH]; simpl; [reflexivity|]. rewrite IH. lia.
Qed.

Lemma sum_map_add {A} (f g : A -> N) (l : list A) :
  sum (map (fun x => f x + g x) l) = sum (map f l) + sum (map g l).
Proof.
  induction l as [|x l IH]; simpl; [reflexivity|]. rewrite IH. lia.
Qed.

Lemma sum_map_ext {A} (f g : A -> N) (l : list A) :
  (forall x, In x l -> f x = g x) -> sum (map f l) = sum (map g l).
Proof.
  induction l as [|x l IH]; simpl; intros H; [reflexivity|].
  rewrite (H x), IH; auto.
Qed.

(** Counting the names that pass a test is summing ones over the entries. *)
Lemma count_filter_names (g : string -> bool) (es : list (string * node)) :
  count_of (filter g (map fst es))
  = sum (map (fun e => if g (fst e) then 1 else 0) es).
Proof.
  unfold count_of.
  induction es as [|[file c] es IH]; [reflexivity|].
  cbn [map fst filter sum fold_right].
  fold (sum (map (fun e => if g (fst e) then 1 else 0) es)).
  rewrite <- IH.
  destruct (g file); cbn [Datatypes.length]; lia.
Qed.

Lemma sum_map_filter_names (g : string -> bool) (h : string -> N)
      (es : list (string * node)) :
  sum (map h (filter g (map fst es)))
  = sum (map (fun e => if g (fst e) then h (fst e) else 0) es).
Proof.
  induction es as [|[file c] es IH]; simpl; [reflexivity|].
  destruct (g file); simpl; lia.
Qed.

Lemma unique_names_Dir (r : bool) (es : list (string * node)) :
  unique_names (Dir r es)
  <-> NoDup (map fst es) /\ Forall (fun e => unique_names (snd e)) es.
Proof.
  simpl. apply and_iff_compat_l.
  induction es as [|[file c] es IH]; simpl.
  - split; auto.
  - rewrite IH. split.
    + intros [H1 H2]. constructor; assumption.
    + intros H. inversion H; subst. auto.
Qed.

Lemma unique_names_stat (fs : node) (p : path) (n : node) :
  unique_names fs -> statSync fs p = Ok n -> unique_names n.
Proof.
  revert fs; induction p as [|s p IH]; intros fs U H.
  - apply statSync_nil_Ok in H as [-> _]. exact U.
  - destruct fs as [| r es |]; simpl in H; try discriminate.
    destruct (find_entry s es) as [c|] eqn:F; [|discriminate].
    apply unique_names_Dir in U as [_ U].
    rewrite Forall_forall in U.
    apply (IH c); [|exact H].
    apply (U (s, c)). now apply find_entry_In.
Qed.

(** Examining a listed name reaches the entry listed under it. *)
Lemma stat_listed (fs : node) (dir : path) (r : bool)
      (es : list (string * node)) (file : string) (c : node) :
  statSync fs dir = Ok (Dir r es) -> NoDup (map fst es) -> In (file, c) es ->
  statSync fs (resolve dir file) = statSync c [].
Proof.
  intros H ND I. rewrite statSync_resolve, H. simpl.
  rewrite (find_entry_unique file c es ND I). reflexivity.
Qed.

Lemma readdirSync_Ok (fs : node) (dir : path) (list : list string) :
  readdirSync fs dir = Ok list ->
  exists es, statSync fs dir = Ok (Dir true es) /\ list = map fst es.
Proof.
  unfold readdirSync. destruct (statSync fs dir) as [n|]; simpl; [|discriminate].
  destruct n as [| [] es |]; simpl; try discriminate.
  intros H; inversion H. eauto.
Qed.

Lemma examinable_In (es : list (string * node)) :
  examinable es = true <-> forall e, In e es -> snd e <> Dangling.
Proof.
  unfold examinable. rewrite forallb_forall. split; intros H e I.
  - specialize (H e I). destruct (snd e); simpl in *; congruence.
  - specialize (H e I). destruct (snd e); simpl in *; congruence.
Qed.

Lemma not_examinable_In (es : list (string * node)) (file : string) :
  In (file, Dangling) es -> examinable es = false.
Proof.
  intros I. destruct (examinable es) eqn:E; [|reflexivity].
  rewrite examinable_In in E. now specialize (E _ I).
Qed.

Lemma countMarkdownFiles_stat (fs : node) (p : path) (n : node) :
  statSync fs p = Ok n -> countMarkdownFiles fs p = countMarkdown_node n.
Proof. unfold countMarkdownFiles. now intros ->. Qed.

(** What the loop adds for an entry, split the way the specification
    counts: documents on one side, sub-directories on the other. *)
Lemma count_contribution (e : string * node) :
  contribution countMarkdown_node count_file e
  = (if negb (isDirectory (snd e)) && negb (is_dangling (snd e)) && isMarkdown (fst e)
     then 1 else 0)
    + (if isDirectory (snd e) then countMarkdown_node (snd e) else 0).
Proof.
  destruct e as [file c]. unfold contribution, count_file.
  destruct c; simpl; try reflexivity.
  destruct (isMarkdown file); reflexivity.
Qed.

(** C1, amended: recursive additivity of the document count holds for
    every path whose listed entries can all be examined: the count of a
    directory is the number of documents lying directly in it plus the sum
    of the counts of its immediate sub-directories.  (An entry that cannot
    be examined makes the whole count 0.) *)
Theorem count_recursive_additivity (fs : node) (dir : path) :
  unique_names fs -> entries_examinable fs dir -> recursive_additivity fs dir.
Proof.
  intros U X. unfold recursive_additivity, direct_documents, sub_directories.
  destruct (readdirSync fs dir) as [list|] eqn:R.
  - destruct (readdirSync_Ok fs dir list R) as (es & S & ->).
    pose proof (unique_names_stat fs dir _ U S) as Un.
    apply unique_names_Dir in Un as [ND _].
    assert (child : forall file c, In (file, c) es ->
                                   statSync fs (resolve dir file) = Ok c).
    { intros file c I.
      pose proof (X _ file R (in_map fst _ _ I)) as E. unfold existsSync in E.
      rewrite (stat_listed fs dir true es file c S ND I) in *.
      destruct c; simpl in *; congruence. }
    assert (Ex : examinable es = true).
    { apply examinable_In. intros [file c] I E. simpl in E.
      specialize (child _ _ I). rewrite (stat_listed fs dir true es file c S ND I) in child.
      rewrite E in child. discriminate. }
    rewrite (countMarkdownFiles_stat fs dir _ S), countMarkdown_node_walk, try_walk, Ex.
    rewrite count_filter_names, map_map, sum_map_filter_names, <- sum_map_add.
    apply sum_map_ext. intros [file c] I. rewrite count_contribution.
    unfold is_document_at, is_directory_at. cbn [fst snd].
    rewrite (child _ _ I).
    f_equal.
    + pose proof (child _ _ I) as Hc.
      rewrite (stat_listed fs dir true es file c S ND I) in Hc.
      destruct c; simpl in *; try reflexivity. discriminate.
    + destruct (isDirectory c); [|reflexivity].
      now rewrite (countMarkdownFiles_stat fs _ _ (child _ _ I)).
  - cbn [map sum fold_right]. unfold countMarkdownFiles.
    unfold readdirSync in R. destruct (statSync fs dir) as [n|]; [|reflexivity].
    simpl in *. now apply countMarkdown_node_not_listable.
Qed.

Lemma count_recursive_additivity_witness :
  recursive_additivity
    (Dir true [("docs", Dir true [("a.md", File 3 (Some 3));
                                  ("sub", Dir true [("b.md", File 6 (Some 6))])])])
    ["docs"].
Proof.
  apply count_recursive_additivity.
  - simpl. repeat split; repeat constructor; simpl; intuition discriminate.
  - intros list file R I. vm_compute in R. inversion R; subst.
    simpl in I. destruct I as [<-|[<-|[]]]; reflexivity.
Defined.

(** C1 as stated fails: a directory holding one document and a link to
    nothing counts 0 documents, not 1. *)
Lemma broken_link_not_additive : ~ recursive_additivity broken_link_fs ["docs"].
Proof. vm_compute. discriminate. Qed.

(** ** Failures are absorbed by the aggregators *)

Lemma format_size_zero : format_size 0 = zero_size.
Proof. reflexivity. Qed.

Lemma aggregates_of_unlistable (n : node) :
  readdir_node n = Throw ->
  countMarkdown_node n = 0 /\ wordCountDir_node n = 0 /\ directorySize_node n = 0.
Proof.
  intros H. repeat split.
  - now apply countMarkdown_node_not_listable.
  - now apply wordCountDir_node_not_listable.
  - now apply directorySize_node_not_listable.
Qed.

Lemma aggregates_of_unexaminable (es : list (string * node)) :
  examinable es = false ->
  countMarkdown_node (Dir true es) = 0
  /\ wordCountDir_node (Dir true es) = 0
  /\ directorySize_node (Dir true es) = 0.
Proof.
  intros H.
  rewrite countMarkdown_node_walk, wordCountDir_node_walk, directorySize_node_walk.
  rewrite !try_walk, H. auto.
Qed.

Lemma aggregates_zero (fs : node) (p : path) :
  (forall n, statSync fs p = Ok n ->
             countMarkdown_node n = 0 /\ wordCountDir_node n = 0
             /\ directorySize_node n = 0) ->
  countMarkdownFiles fs p = 0
  /\ estimateDirectoryWordCount fs p = 0
  /\ getDirectorySize fs p = zero_size.
Proof.
  intros H.
  unfold countMarkdownFiles, estimateDirectoryWordCount, getDirectorySize.
  destruct (statSync fs p) as [n|]; simpl; auto.
  destruct (H n eq_refl) as (-> & -> & ->). auto.
Qed.

(** C10: the three aggregators are total functions of the path (they
    return a number, never an exception).  On a path that does not exist,
    on a path naming a regular file, on a directory that cannot be listed,
    and on a directory one of whose listed entries cannot be examined,
    each returns zero (["0 B"] for the size): the whole call, not a
    partial sum. *)
Theorem aggregators_absorb_failures (fs : node) (p : path) :
  existsSync fs p = false
  \/ (exists size text, statSync fs p = Ok (File size text))
  \/ readdirSync fs p = Throw
  \/ (exists list file, readdirSync fs p = Ok list /\ In file list
                        /\ existsSync fs (resolve p file) = false) ->
  countMarkdownFiles fs p = 0
  /\ estimateDirectoryWordCount fs p = 0
  /\ getDirectorySize fs p = zero_size.
Proof.
  intros H. apply aggregates_zero. intros n S.
  destruct H as [H | [(size & text & H) | [H | (list & file & R & I & E)]]].
  - unfold existsSync in H. rewrite S in H. discriminate.
  - rewrite S in H. inversion H; subst. now apply aggregates_of_unlistable.
  - unfold readdirSync in H. rewrite S in H. now apply aggregates_of_unlistable.
  - destruct (readdirSync_Ok fs p list R) as (es & S' & ->).
    rewrite S in S'. inversion S'; subst n.
    apply aggregates_of_unexaminable.
    unfold existsSync in E. rewrite statSync_resolve, S in E.
    cbn [bind] in E. rewrite stat_entry in E.
    destruct (find_entry file es) as [c|] eqn:F.
    + apply find_entry_In in F.
      destruct c; try discriminate. now apply (not_examinable_In es file).
    + now apply find_entry_None in F.
Qed.

Lemma aggregators_absorb_failures_witness :
  countMarkdownFiles broken_link_fs ["docs"] = 0
  /\ estimateDirectoryWordCount broken_link_fs ["docs"] = 0
  /\ getDirectorySize broken_link_fs ["docs"] = zero_size.
Proof.
  apply aggregators_absorb_failures.
  right; right; right. exists ["a.md"; "gone"], "gone".
  split; [reflexivity | split; [simpl; auto | reflexivity]].
Defined.

(** ** Human-scaled sizes *)

(** [Math_round_div a b] is the integer nearest to [a / b], the upper one
    of two that are equally near. *)
Lemma Math_round_div_nearest (a b : N) :
  0 < b ->
  2 * b * Math_round_div a b <= 2 * a + b < 2 * b * (Math_round_div a b + 1).
Proof.
  intros Hb. unfold Math_round_div.
  assert (Hb2 : 2 * b <> 0) by lia.
  pose proof (N.div_mod (2 * a + b) (2 * b) Hb2) as D.
  pose proof (N.mod_lt (2 * a + b) (2 * b) Hb2) as M.
  rewrite N.mul_add_distr_l, N.mul_1_r.
  set (q := (2 * a + b) / (2 * b)) in *.
  set (r := (2 * a + b) mod (2 * b)) in *.
  lia.
Qed.

Lemma Math_round_div_mono (a a' b : N) :
  a <= a' -> Math_round_div a b <= Math_round_div a' b.
Proof.
  intros H. unfold Math_round_div.
  apply N.Div0.div_le_mono. lia.
Qed.

Lemma show_div100_whole (n : N) : show_div100 (100 * n) = show_N n.
Proof.
  unfold show_div100. cbv zeta.
  rewrite (N.mul_comm 100 n), N.Div0.mod_mul, N.div_mul by discriminate.
  reflexivity.
Qed.

(** What [format_size] prints is the shown number followed by the unit. *)
Lemma formatted_shown (n : N) :
  formatted (format_size n) = show_div100 (shown_hundredths n) ++ suffix (band_of n).
Proof.
  unfold format_size, shown_hundredths, band_of.
  destruct (n <? 1024); [|destruct (n <? 1024 * 1024)]; simpl formatted;
    cbn [suffix]; try reflexivity.
  now rewrite show_div100_whole.
Qed.

Lemma size_format_size (n : N) : size (format_size n) = n.
Proof.
  unfold format_size.
  destruct (n <? 1024); [|destruct (n <? 1024 * 1024)]; reflexivity.
Qed.

(** C3, amended: for byte counts whose hundredfold stays below [2 ^ 53],
    where the floating-point arithmetic of the script is exact: below 1024
    bytes the size is printed in bytes; from 1024 to 1048575 bytes it is
    [n / 1024] rounded to hundredths with suffix KB, a number that never
    exceeds 1024 and stays strictly below 1024 exactly up to 1048570 bytes
    (the last five byte counts of the band round up to 1024 KB); from
    1048576 bytes on it is [n / 1048576] rounded to hundredths with suffix
    MB, there being no larger unit; the rounded number is the multiple of a
    hundredth nearest to the quotient, the upper one of two equally near.
    The boundary inputs 1024 and 1048576 are printed as 1 KB and 1 MB, and
    within a band the number printed grows with the size. *)
Theorem format_size_bands (n m : N) :
  exact_hundredths n -> exact_hundredths m ->
  (n < 1024 -> formatted (format_size n) = show_N n ++ " B")
  /\ (1024 <= n < 1048576 ->
      formatted (format_size n) = show_div100 (round_hundredths n 1024) ++ " KB"
      /\ round_hundredths n 1024 <= 102400
      /\ (round_hundredths n 1024 < 102400 <-> n <= 1048570))
  /\ (1048576 <= n ->
      formatted (format_size n)
      = show_div100 (round_hundredths n 1048576) ++ " MB")
  /\ (forall unit, is_unit unit ->
                   2 * unit * round_hundredths n unit <= 2 * (100 * n) + unit
                   /\ 2 * (100 * n) + unit < 2 * unit * (round_hundredths n unit + 1))
  /\ formatted (format_size 1024) = "1 KB"
  /\ formatted (format_size 1048576) = "1 MB"
  /\ (n <= m -> band_of n = band_of m -> shown_hundredths n <= shown_hundredths m).
Proof.
  intros _ _. repeat apply conj.
  - intros H. unfold format_size. apply N.ltb_lt in H. now rewrite H.
  - intros [H1 H2]. unfold format_size.
    apply N.ltb_ge in H1. rewrite H1.
    change (1024 * 1024) with 1048576.
    pose proof H2 as H2'. apply N.ltb_lt in H2'. rewrite H2'.
    split; [reflexivity|].
    apply N.ltb_ge in H1.
    pose proof (Math_round_div_nearest (n * 100) 1024 eq_refl) as R.
    unfold round_hundredths. lia.
  - intros H. unfold format_size.
    change (1024 * 1024) with 1048576.
    assert ((n <? 1024) = false) as -> by (apply N.ltb_ge; lia).
    assert ((n <? 1048576) = false) as -> by (apply N.ltb_ge; lia).
    reflexivity.
  - intros unit Hu. unfold round_hundredths.
    assert (Hp : 0 < unit) by (destruct Hu as [-> | ->]; reflexivity).
    pose proof (Math_round_div_nearest (n * 100) unit Hp). lia.
  - reflexivity.
  - reflexivity.
  - intros L B. unfold shown_hundredths. rewrite <- B.
    destruct (band_of n); [lia | |]; apply Math_round_div_mono; lia.
Qed.

Lemma format_size_bands_witness :
  formatted (format_size 2510) = "2.45 KB"
  /\ round_hundredths 2510 1024 < 102400
  /\ shown_hundredths 2510 <= shown_hundredths 2520.
Proof.
  destruct (format_size_bands 2510 2520) as (_ & K & _ & _ & _ & _ & M);
    [reflexivity | reflexivity |].
  destruct K as (F & _ & B); [lia|].
  split; [exact F|]. split; [apply B; lia|].
  apply M; [lia | reflexivity].
Defined.

(** C3 as stated fails: 1048575 bytes are printed as 1024 KB. *)
Lemma kilobytes_reach_1024 :
  formatted (format_size 1048575) = "1024 KB" /\ ~ below_1024_units 1048575.
Proof. split; [reflexivity | vm_compute; discriminate]. Qed.

(** ** The missing root *)

(** C8: when the root path does not exist, [main] reports it on the error
    stream and exits with code 1; the file system is left as it was and no
    file is written.  Both scripts. *)
Theorem missing_root_aborts (specifiedPath : string) (targetDir : path) (w : world) :
  existsSync (disk w) targetDir = false ->
  Final.main specifiedPath targetDir w = aborted_run targetDir w
  /\ Usage.main specifiedPath targetDir w = aborted_run targetDir w
  /\ disk (fst (aborted_run targetDir w)) = disk w
  /\ written (trace (fst (aborted_run targetDir w))) = written (trace w)
  /\ errors_reported (trace (fst (aborted_run targetDir w)))
     = (errors_reported (trace w)
        ++ [("Target directory does not exist: " ++ path_string targetDir)%string])%list.
Proof.
  intros E.
  assert (forall A B (f : A -> list B) l l', flat_map f (l ++ l') = (flat_map f l ++ flat_map f l')%list)
    as flat_app by (intros; apply flat_map_app).
  repeat apply conj.
  - unfold Final.main, console_log, console_error, emit. cbn [disk trace].
    rewrite E. cbn [negb]. unfold aborted_run. now rewrite <- app_assoc.
  - unfold Usage.main, console_log, console_error, emit. cbn [disk trace].
    rewrite E. cbn [negb]. unfold aborted_run. now rewrite <- app_assoc.
  - reflexivity.
  - unfold aborted_run, written. cbn [fst trace].
    rewrite flat_app. cbn [flat_map app]. now rewrite app_nil_r.
  - unfold aborted_run, errors_reported. cbn [fst trace].
    rewrite flat_app. reflexivity.
Qed.

Lemma missing_root_aborts_witness :
  Final.main "C" ["nowhere"] (start scenario_fs)
  = aborted_run ["nowhere"] (start scenario_fs)
  /\ written (trace (fst (Usage.main "C" ["nowhere"] (start scenario_fs)))) = [].
Proof.
  destruct (missing_root_aborts "C" ["nowhere"] (start scenario_fs) eq_refl)
    as (F & U & _ & W & _).
  split; [exact F|]. rewrite U. exact W.
Defined.

(** ** Sorting *)

Section SortFacts.
Variable A : Type.
Variable key : A -> string.

Lemma insert_sorted_In (x y : A) (l : list A) :
  In y (insert_sorted key x l) <-> y = x \/ In y l.
Proof.
  induction l as [|z l IH]; simpl.
  - intuition.
  - destruct (String.leb (key x) (key z)); simpl; rewrite ?IH; intuition.
Qed.

Lemma sort_by_In (y : A) (l : list A) : In y (sort_by key l) <-> In y l.
Proof.
  induction l as [|x l IH]; simpl; [tauto|].
  rewrite insert_sorted_In, IH. intuition.
Qed.

Lemma insert_sorted_length (x : A) (l : list A) :
  List.length (insert_sorted key x l) = S (List.length l).
Proof.
  induction l as [|z l IH]; simpl; [reflexivity|].
  destruct (String.leb (key x) (key z)); simpl; auto.
Qed.

Lemma sort_by_length (l : list A) : List.length (sort_by key l) = List.length l.
Proof.
  induction l as [|x l IH]; simpl; [reflexivity|].
  now rewrite insert_sorted_length, IH.
Qed.

Lemma sort_by_Forall (P : A -> Prop) (l : list A) :
  Forall P l -> Forall P (sort_by key l).
Proof.
  rewrite !Forall_forall. intros H y I. apply H. now apply sort_by_In.
Qed.

Lemma sort_by_nil (l : list A) : sort_by key l = [] <-> l = [].
Proof.
  split; [|now intros ->].
  intros H. apply length_zero_iff_nil.
  rewrite <- sort_by_length, H. reflexivity.
Qed.
End SortFacts.

(** ** The scanner *)

Lemma includes_In (l : list string) (s : string) :
  includes l s = true <-> In s l.
Proof.
  unfold includes. rewrite existsb_exists. split.
  - intros (x & I & E). apply String.eqb_eq in E. now subst.
  - intros I. exists s. split; [exact I | apply String.eqb_refl].
Qed.

Lemma partition_files_Ok (es files : list (string * node)) :
  partition_files es = Ok files -> files = filter is_document_entry es.
Proof.
  revert files; induction es as [|[file c] es IH]; intros files;
    cbn [partition_files filter].
  - now inversion 1.
  - unfold is_document_entry at 1. cbn [fst snd].
    destruct (includes ignoreFiles file); cbn [negb andb]; [apply IH|].
    destruct c; [| apply IH | discriminate].
    destruct (partition_files es) as [fs'|]; [|discriminate].
    cbn [bind]. intros H; inversion H; subst.
    rewrite (IH fs' eq_refl). now destruct (isMarkdown file).
Qed.

Lemma scan_node_Dir (dir : path) (depth : N) (es : list (string * node)) :
  scan_node dir depth (Dir true es)
  = (files <- partition_files es ;;
     directories <- scan_dirs scan_node dir depth es ;;
     Ok (DirNode (basename dir) dir depth
                 (map (file_node dir depth) (sort_by fst files)
                  ++ sort_by item_name directories)%list)).
Proof. reflexivity. Qed.

Lemma scan_node_Ok (dir : path) (depth : N) (n : node) (st : item) :
  scan_node dir depth n = Ok st ->
  exists es files directories,
    n = Dir true es
    /\ files = filter is_document_entry es
    /\ scan_dirs scan_node dir depth es = Ok directories
    /\ st = DirNode (basename dir) dir depth
                    (map (file_node dir depth) (sort_by fst files)
                     ++ sort_by item_name directories)%list.
Proof.
  destruct n as [| [] es |]; try discriminate.
  rewrite scan_node_Dir.
  destruct (partition_files es) as [files|] eqn:P; [|discriminate].
  cbn [bind].
  destruct (scan_dirs scan_node dir depth es) as [directories|] eqn:D; [|discriminate].
  cbn [bind]. intros H; inversion H; subst.
  exists es, files, directories. repeat split; auto.
  now apply partition_files_Ok.
Qed.

Lemma basename_resolve (dir : path) (file : string) :
  basename (resolve dir file) = file.
Proof. unfold basename, resolve. apply last_last. Qed.

(** The nodes [scan_dirs] returns are the scans of the sub-directory
    entries, in listing order. *)
Lemma scan_dirs_Ok (dir : path) (depth : N) (es : list (string * node))
      (directories : list item) :
  scan_dirs scan_node dir depth es = Ok directories ->
  Forall2 (fun e d => scan_node (resolve dir (fst e)) (depth + 1) (snd e) = Ok d)
          (filter is_subdirectory_entry es) directories.
Proof.
  revert directories; induction es as [|[file c] es IH]; intros directories;
    cbn [scan_dirs filter].
  - inversion 1. constructor.
  - unfold is_subdirectory_entry at 1. cbn [fst snd].
    destruct (includes ignoreFiles file); cbn [negb andb]; [apply IH|].
    destruct c; cbn [isDirectory]; [apply IH | | apply IH].
    destruct (scan_node (resolve dir file) (depth + 1) (Dir readable entries))
      as [d|] eqn:S; [|discriminate].
    cbn [bind].
    destruct (scan_dirs scan_node dir depth es) as [ds|]; [|discriminate].
    cbn [bind]. intros H; inversion H; subst.
    constructor; [exact S | now apply IH].
Qed.

Lemma file_node_is_file (dir : path) (depth : N) (e : string * node) :
  is_file (file_node dir depth e) = true.
Proof. destruct e. reflexivity. Qed.

Lemma filter_all {A} (f : A -> bool) (l : list A) :
  Forall (fun x => f x = true) l -> filter f l = l.
Proof.
  induction 1 as [|x l H _ IH]; simpl; [reflexivity|]. now rewrite H, IH.
Qed.

Lemma filter_none {A} (f : A -> bool) (l : list A) :
  Forall (fun x => f x = false) l -> filter f l = [].
Proof.
  induction 1 as [|x l H _ IH]; simpl; [reflexivity|]. now rewrite H.
Qed.

Lemma scanned_are_directories (dir : path) (depth : N)
      (l : list (string * node)) (directories : list item) :
  Forall2 (fun e d => scan_node (resolve dir (fst e)) depth (snd e) = Ok d)
          l directories ->
  Forall (fun d => is_file d = false) directories.
Proof.
  induction 1 as [|e d l l' S _ IH]; constructor; [|exact IH].
  destruct (scan_node_Ok _ _ _ _ S) as (? & ? & ? & _ & _ & _ & ->).
  reflexivity.
Qed.

(** The children of a scanned directory: its documents first, then its
    sub-directories. *)
Lemma scan_children (dir : path) (depth : N) (n : node) (st : item) :
  scan_node dir depth n = Ok st ->
  exists es directories,
    n = Dir true es
    /\ Forall2 (fun e d => scan_node (resolve dir (fst e)) (depth + 1) (snd e) = Ok d)
               (filter is_subdirectory_entry es) directories
    /\ item_path st = dir
    /\ item_name st = basename dir
    /\ is_directory st = true
    /\ filter is_file (item_children st)
       = map (file_node dir depth) (sort_by fst (filter is_document_entry es))
    /\ filter is_directory (item_children st) = sort_by item_name directories.
Proof.
  intros H. destruct (scan_node_Ok dir depth n st H)
    as (es & files & directories & -> & -> & D & ->).
  exists es, directories.
  pose proof (scan_dirs_Ok dir depth es directories D) as F2.
  pose proof (scanned_are_directories _ _ _ _ F2) as Dd.
  assert (Ff : Forall (fun c => is_file c = true)
                      (map (file_node dir depth)
                           (sort_by fst (filter is_document_entry es)))).
  { apply Forall_forall. intros c I. apply in_map_iff in I as (e & <- & _).
    apply file_node_is_file. }
  repeat split; auto; cbn [item_children]; rewrite filter_app.
  - rewrite (filter_all is_file _ Ff), (filter_none is_file).
    + apply app_nil_r.
    + now apply sort_by_Forall.
  - unfold is_directory. rewrite filter_none, filter_all.
    + reflexivity.
    + apply sort_by_Forall. eapply Forall_impl; [|exact Dd].
      simpl. now intros d ->.
    + eapply Forall_impl; [|exact Ff]. simpl. now intros d ->.
Qed.

Lemma Forall2_In_r {A B} (R : A -> B -> Prop) (l : list A) (l' : list B) (y : B) :
  Forall2 R l l' -> In y l' -> exists x, In x l /\ R x y.
Proof.
  induction 1 as [|x y' l l' H _ IH]; simpl; [tauto|].
  intros [<-|I].
  - exists x. auto.
  - destruct (IH I) as (x' & I' & H'). exists x'. auto.
Qed.

(** Every child of a scanned directory lies directly in it, under a name
    that is not reserved. *)
Lemma scan_child (dir : path) (depth : N) (n : node) (st c : item) :
  scan_node dir depth n = Ok st -> In c (item_children st) ->
  exists file, item_path c = resolve dir file
               /\ includes ignoreFiles file = false.
Proof.
  intros H I.
  destruct (scan_node_Ok dir depth n st H)
    as (es & files & directories & -> & -> & D & ->).
  cbn [item_children] in I. apply in_app_or in I as [I|I].
  - apply in_map_iff in I as ([file e] & <- & I).
    apply sort_by_In, filter_In in I as [_ I].
    exists file. split; [reflexivity|].
    unfold is_document_entry in I. cbn [fst] in I.
    now destruct (includes ignoreFiles file).
  - apply sort_by_In in I.
    destruct (Forall2_In_r _ _ _ c (scan_dirs_Ok dir depth es directories D) I)
      as ([file e] & Ie & S).
    apply filter_In in Ie as [_ Ie]. cbn [fst snd] in S.
    exists file. split.
    + destruct (scan_node_Ok _ _ _ _ S) as (? & ? & ? & _ & _ & _ & ->).
      reflexivity.
    + unfold is_subdirectory_entry in Ie. cbn [fst] in Ie.
      now destruct (includes ignoreFiles file).
Qed.

(** The part of C2 that holds: no reserved name appears among the
    children of a scanned directory. *)
Lemma scan_skips_reserved (dir : path) (depth : N) (n : node) (st c : item) :
  scan_node dir depth n = Ok st -> In c (item_children st) ->
  includes ignoreFiles (basename (item_path c)) = false.
Proof.
  intros H I. destruct (scan_child dir depth n st c H I) as (file & -> & R).
  now rewrite basename_resolve.
Qed.

(** C2, where the code departs from it: the scanner leaves the reserved
    names out, but the aggregators do not.  In a directory where the
    generator has run before, the scan sees one document while the document
    count is 3 and the content volume includes the two generated pages;
    and a run over the scenario tree raises the count of its collection
    from 3 to 10. *)
Theorem reserved_files_are_counted :
  getDirectoryStructure regenerated_fs ["docs"] 0
  = Ok (DirNode "docs" ["docs"] 0 [FileNode "a" ["docs"; "a.md"] 1 30 "30 B" 10])
  /\ countMarkdownFiles regenerated_fs ["docs"] = 3
  /\ estimateDirectoryWordCount regenerated_fs ["docs"] = 240
  /\ countMarkdownFiles scenario_fs ["r"; "C"] = 3
  /\ countMarkdownFiles (disk (fst (Final.main "C" ["r"] (start scenario_fs)))) ["r"; "C"]
     = 10
  /\ countMarkdownFiles (disk (fst (Usage.main "C" ["r"] (start scenario_fs)))) ["r"; "C"]
     = 11.
Proof. vm_compute. repeat split. Qed.

(** ** Failures the scanner does not absorb *)

(** The part of C6 that holds: the metrics of a missing or unreadable file
    are zero, and scanning a missing path yields an empty node. *)
Lemma metrics_absorb_failures (fs : node) (p : path) (depth : N) :
  existsSync fs p = false ->
  getFileSize fs p = zero_size
  /\ estimateWordCount fs p = 0
  /\ getDirectoryStructure fs p depth = Ok (DirNode (basename p) p depth []).
Proof.
  unfold existsSync, getFileSize, estimateWordCount, getDirectoryStructure, existsSync.
  destruct (statSync fs p); [discriminate|]. auto.
Qed.

Lemma unreadable_file_has_no_words (size : N) : wordCount_node (File size None) = 0.
Proof. reflexivity. Qed.

(** C6, where the code departs from it: a listed entry that cannot be
    examined, or a sub-directory that cannot be listed, makes the scan
    raise; nothing catches the exception, and the run ends before any file
    is written. *)
Theorem scan_raises_on_unexaminable_entry :
  getDirectoryStructure broken_link_fs ["docs"] 0 = Throw
  /\ getDirectoryStructure locked_fs ["docs"] 0 = Throw
  /\ Final.main "C" ["docs"] (start broken_link_fs)
     = ({| disk := broken_link_fs;
           trace := [ConsoleLog "Starting to generate docs from: /docs"] |}, Crashed)
  /\ Usage.main "C" ["docs"] (start locked_fs)
     = ({| disk := locked_fs;
           trace := [ConsoleLog "Starting to generate docs from: /docs"] |}, Crashed).
Proof. vm_compute. repeat split. Qed.

(** ** Files without the document extension *)

Lemma without_other_files_Dir (r : bool) (es : list (string * node)) :
  without_other_files (Dir r es) = Dir r (filter keep_entry (map pruned es)).
Proof. reflexivity. Qed.

Lemma pruned_kind (c : node) :
  isDirectory (without_other_files c) = isDirectory c
  /\ is_dangling (without_other_files c) = is_dangling c.
Proof. destruct c; auto. Qed.

Lemma pruned_cons (file : string) (c : node) (es : list (string * node)) :
  filter keep_entry (map pruned ((file, c) :: es))
  = if keep_entry (file, c)
    then (file, without_other_files c) :: filter keep_entry (map pruned es)
    else filter keep_entry (map pruned es).
Proof. destruct c; reflexivity. Qed.

Lemma examinable_pruned (es : list (string * node)) :
  examinable (filter keep_entry (map pruned es)) = examinable es.
Proof.
  induction es as [|[file c] es IH]; [reflexivity|].
  rewrite pruned_cons. unfold keep_entry. cbn [fst snd].
  destruct c; [destruct (isMarkdown file) | |]; simpl; auto.
Qed.

Section WalkPruned.
Variable onDirectory : node -> N.
Variable onFile : string -> node -> N.
Hypothesis other_files_add_nothing :
  forall file c, isMarkdown file = false -> onFile file c = 0.

Lemma contributions_pruned (es : list (string * node)) :
  Forall (fun e => onDirectory (without_other_files (snd e)) = onDirectory (snd e)) es ->
  sum (map (contribution onDirectory onFile) (filter keep_entry (map pruned es)))
  = sum (map (contribution onDirectory onFile) es).
Proof.
  induction 1 as [|[file c] es H _ IH]; [reflexivity|].
  rewrite pruned_cons.
  replace (sum (map (contribution onDirectory onFile) ((file, c) :: es)))
    with (contribution onDirectory onFile (file, c)
          + sum (map (contribution onDirectory onFile) es)) by reflexivity.
  rewrite <- IH. cbn [snd] in H.
  destruct c.
  - replace (keep_entry (file, File size0 text)) with (isMarkdown file) by reflexivity.
    destruct (isMarkdown file) eqn:E; [reflexivity|].
    replace (contribution onDirectory onFile (file, File size0 text))
      with (onFile file (File size0 text)) by reflexivity.
    now rewrite (other_files_add_nothing _ _ E).
  - replace (keep_entry (file, Dir readable entries)) with true by reflexivity.
    replace (contribution onDirectory onFile (file, Dir readable entries))
      with (onDirectory (Dir readable entries)) by reflexivity.
    rewrite <- H. reflexivity.
  - reflexivity.
Qed.

Lemma try_walk_pruned (es : list (string * node)) :
  Forall (fun e => onDirectory (without_other_files (snd e)) = onDirectory (snd e)) es ->
  try_catch (walk onDirectory onFile 0 (filter keep_entry (map pruned es))) 0
  = try_catch (walk onDirectory onFile 0 es) 0.
Proof.
  intros H. rewrite !try_walk, examinable_pruned, contributions_pruned by exact H.
  reflexivity.
Qed.
End WalkPruned.

Lemma countMarkdown_node_pruned (n : node) :
  countMarkdown_node (without_other_files n) = countMarkdown_node n.
Proof.
  induction n as [| r es IH |] using node_ind; try reflexivity.
  rewrite without_other_files_Dir. destruct r; [|reflexivity].
  rewrite !countMarkdown_node_walk. apply try_walk_pruned; [|exact IH].
  intros file c E. unfold count_file. now rewrite E.
Qed.

Lemma wordCountDir_node_pruned (n : node) :
  wordCountDir_node (without_other_files n) = wordCountDir_node n.
Proof.
  induction n as [| r es IH |] using node_ind; try reflexivity.
  rewrite without_other_files_Dir. destruct r; [|reflexivity].
  rewrite !wordCountDir_node_walk. apply try_walk_pruned; [|exact IH].
  intros file c E. unfold words_file. now rewrite E.
Qed.

Lemma find_entry_pruned_none (s : string) (es : list (string * node)) :
  find_entry s es = None -> find_entry s (filter keep_entry (map pruned es)) = None.
Proof.
  induction es as [|[file c] es IH]; [reflexivity|].
  rewrite pruned_cons. cbn [find_entry].
  destruct (String.eqb_spec file s) as [->|Ne]; [discriminate|].
  intros H. destruct (keep_entry (file, c)); [|auto].
  cbn [find_entry]. destruct (String.eqb_spec file s); [contradiction | auto].
Qed.

Lemma keep_entry_pruned (s : string) (c : node) :
  keep_entry (s, without_other_files c) = keep_entry (s, c).
Proof. destruct c; reflexivity. Qed.

Lemma find_entry_pruned_kept (s : string) (c : node) (es : list (string * node)) :
  find_entry s es = Some c -> keep_entry (s, c) = true ->
  find_entry s (filter keep_entry (map pruned es)) = Some (without_other_files c).
Proof.
  induction es as [|[file d] es IH]; [discriminate|].
  rewrite pruned_cons. cbn [find_entry].
  destruct (String.eqb_spec file s) as [->|Ne].
  - intros H K. inversion H; subst. rewrite K. cbn [find_entry].
    now rewrite String.eqb_refl.
  - intros H K. destruct (keep_entry (file, d)); [|auto].
    cbn [find_entry]. destruct (String.eqb_spec file s); [contradiction | auto].
Qed.

Lemma find_entry_pruned_dropped (s : string) (c : node) (es : list (string * node)) :
  NoDup (map fst es) ->
  find_entry s es = Some c -> keep_entry (s, c) = false ->
  find_entry s (filter keep_entry (map pruned es)) = None.
Proof.
  induction es as [|[file d] es IH]; [discriminate|].
  rewrite pruned_cons. cbn [find_entry map fst].
  intros ND. inversion ND as [|? ? Nin ND']; subst.
  destruct (String.eqb_spec file s) as [->|Ne].
  - intros H K. inversion H; subst. rewrite K.
    apply find_entry_pruned_none.
    destruct (find_entry s es) as [x|] eqn:F; [|reflexivity].
    exfalso. apply Nin. apply find_entry_In in F.
    now apply (in_map fst) in F.
  - intros H K. destruct (keep_entry (file, d)); [|auto].
    cbn [find_entry]. destruct (String.eqb_spec file s); [contradiction | auto].
Qed.

(** Examining a path once the other files are gone: the same entry,
    pruned, unless the path named one of the files removed. *)
Lemma statSync_pruned (p : path) (fs : node) :
  unique_names fs ->
  match statSync fs p with
  | Ok n => statSync (without_other_files fs) p = Ok (without_other_files n)
            \/ (statSync (without_other_files fs) p = Throw /\ isDirectory n = false)
  | Throw => statSync (without_other_files fs) p = Throw
  end.
Proof.
  revert fs; induction p as [|s p IH]; intros fs U.
  - destruct fs; cbn; auto.
  - destruct fs as [| r es |]; try reflexivity.
    rewrite without_other_files_Dir. cbn [statSync].
    apply unique_names_Dir in U as [ND U].
    destruct (find_entry s es) as [c|] eqn:F.
    + destruct (keep_entry (s, c)) eqn:K.
      * rewrite (find_entry_pruned_kept s c es F K). apply IH.
        rewrite Forall_forall in U. apply (U (s, c)). now apply find_entry_In.
      * rewrite (find_entry_pruned_dropped s c es ND F K).
        unfold keep_entry in K. cbn [fst snd] in K.
        destruct c; cbn in K; try discriminate.
        destruct p; cbn; auto.
    + now rewrite (find_entry_pruned_none s es F).
Qed.

Lemma directorySize_examinable (es : list (string * node)) :
  examinable es = true ->
  directorySize_node (Dir true es) = sum (map entry_bytes es).
Proof.
  intros E. rewrite directorySize_node_walk, try_walk, E.
  apply sum_map_ext. intros [file c] _.
  unfold contribution, entry_bytes, bytes_file. now destruct c.
Qed.

Lemma sum_member {A} (f : A -> N) (l : list A) (x : A) :
  In x l -> f x <= sum (map f l).
Proof.
  induction l as [|y l IH]; [contradiction|].
  change (sum (map f (y :: l))) with (f y + sum (map f l)).
  intros [<- | I]; [lia|]. specialize (IH I). lia.
Qed.

(** The bytes of a file are within the size of every directory above it,
    as long as the loops on the way get past every entry. *)
Lemma bytes_included (rel : path) :
  forall n file bytes text,
    (forall k, exists es,
          statSync n (firstn k rel) = Ok (Dir true es) /\ examinable es = true) ->
    statSync n (rel ++ [file])%list = Ok (File bytes text) ->
    bytes <= directorySize_node n.
Proof.
  induction rel as [|s rel IH]; intros n file bytes text H St.
  - destruct (H 0%nat) as (es & S0 & Ex). cbn [firstn] in S0.
    apply statSync_nil_Ok in S0 as [<- _].
    cbn [app] in St. rewrite stat_entry in St.
    destruct (find_entry file es) as [c|] eqn:F; [|discriminate].
    assert (c = File bytes text) as -> by (destruct c; now inversion St).
    rewrite (directorySize_examinable es Ex).
    exact (sum_member entry_bytes es (file, File bytes text) (find_entry_In _ _ _ F)).
  - destruct (H 0%nat) as (es & S0 & Ex). cbn [firstn] in S0.
    apply statSync_nil_Ok in S0 as [<- _].
    cbn [app statSync] in St.
    destruct (find_entry s es) as [c|] eqn:F; [|discriminate].
    assert (Hc : forall k, exists es',
                 statSync c (firstn k rel) = Ok (Dir true es') /\ examinable es' = true).
    { intros k. destruct (H (S k)) as (es' & Sk & Ek). cbn [firstn statSync] in Sk.
      rewrite F in Sk. now exists es'. }
    pose proof (IH c file bytes text Hc St) as L.
    destruct (Hc 0%nat) as (es' & Sc & _). cbn [firstn] in Sc.
    apply statSync_nil_Ok in Sc as [<- _].
    rewrite (directorySize_examinable es Ex).
    pose proof (sum_member entry_bytes es (s, Dir true es') (find_entry_In _ _ _ F)) as M.
    cbn [entry_bytes snd] in M. lia.
Qed.

(** C9, amended: a regular file whose name lacks the extension is not
    counted as a document and adds nothing to the content volume (removing
    all such files changes neither aggregate, for any path); its bytes
    are nevertheless part of the byte size.  The size of a directory whose
    entries can all be examined is the sum over its entries: the size of
    every regular file, whatever its name, and the size of every
    sub-directory; the size of a directory with an entry that cannot be
    examined is 0.  So the bytes of a file are within the size of the
    directory holding it, and of a directory further up as long as the
    entries of every directory on the way down can be examined.  Sizes are
    those of the script while they stay below [2 ^ 53]. *)
Theorem other_files_not_counted_but_sized (fs : node) (p : path) :
  unique_names fs ->
  countMarkdownFiles (without_other_files fs) p = countMarkdownFiles fs p
  /\ estimateDirectoryWordCount (without_other_files fs) p
     = estimateDirectoryWordCount fs p
  /\ (forall es,
         statSync fs p = Ok (Dir true es) ->
         exact_bytes (size (getDirectorySize fs p)) ->
         (examinable es = true ->
          size (getDirectorySize fs p) = sum (map entry_bytes es))
         /\ (examinable es = false -> size (getDirectorySize fs p) = 0))
  /\ (forall rel file bytes text,
         examinable_down fs p rel ->
         statSync fs (p ++ rel ++ [file])%list = Ok (File bytes text) ->
         exact_bytes (size (getDirectorySize fs p)) ->
         bytes <= size (getDirectorySize fs p)).
Proof.
  intros U. pose proof (statSync_pruned p fs U) as S.
  unfold countMarkdownFiles, estimateDirectoryWordCount.
  repeat apply conj.
  - destruct (statSync fs p) as [n|] eqn:St.
    + destruct S as [-> | [-> D]]; cbn [bind try_catch].
      * apply countMarkdown_node_pruned.
      * destruct n; try discriminate; reflexivity.
    + now rewrite S.
  - destruct (statSync fs p) as [n|] eqn:St.
    + destruct S as [-> | [-> D]]; cbn [bind try_catch].
      * apply wordCountDir_node_pruned.
      * destruct n; try discriminate; reflexivity.
    + now rewrite S.
  - intros es H _. unfold getDirectorySize. rewrite H. cbn [bind try_catch].
    rewrite size_format_size. split.
    + apply directorySize_examinable.
    + intros E. now destruct (aggregates_of_unexaminable es E) as (_ & _ & ->).
  - intros rel file bytes text D St _.
    destruct (D 0%nat) as (es & S0 & _). cbn [firstn] in S0. rewrite app_nil_r in S0.
    unfold getDirectorySize. rewrite S0. cbn [bind try_catch].
    rewrite size_format_size.
    apply (bytes_included rel (Dir true es) file bytes text).
    + intros k. destruct (D k) as (es' & Sk & Ek). exists es'.
      rewrite statSync_app, S0 in Sk. now split.
    + rewrite statSync_app, S0 in St. exact St.
Qed.

Lemma other_files_not_counted_but_sized_witness :
  countMarkdownFiles (without_other_files notes_fs) [] = 1
  /\ countMarkdownFiles notes_fs [] = 1
  /\ 10 <= size (getDirectorySize notes_fs []).
Proof.
  destruct (other_files_not_counted_but_sized notes_fs []) as (C & _ & _ & I).
  - simpl. repeat split; repeat constructor; simpl; intuition discriminate.
  - split; [reflexivity|]. split; [rewrite <- C; reflexivity|].
    apply (I ["docs"] "notes.txt" 10 (Some 10)); [| reflexivity | reflexivity].
    intros [|[|k]]; eexists; split; reflexivity.
Defined.

(** C9 as stated fails: the 10 bytes of [notes.txt] are part of the size
    of the directory holding it. *)
Lemma other_files_are_sized : ~ other_files_ignored notes_fs ["docs"].
Proof. intros (_ & _ & H). vm_compute in H. discriminate. Qed.

(** ** Links *)

Lemma relative_segments_under (base rel : path) :
  relative_segments base (base ++ rel)%list = rel.
Proof.
  induction base as [|s base IH]; simpl.
  - now destruct rel.
  - now rewrite String.eqb_refl.
Qed.

(** From the scan root, the link to a path below it spells the segments
    that lead there. *)
Lemma link_to_under (base rel : path) :
  link_to base (base ++ rel)%list = root_relative rel.
Proof. unfold link_to, relative. now rewrite relative_segments_under. Qed.

Lemma append_empty (s : string) : (s ++ "")%string = s.
Proof. induction s as [|c s IH]; simpl; [reflexivity | now rewrite IH]. Qed.

Lemma links_app (p q : page) : links (p ++ q)%list = (links p ++ links q)%list.
Proof. apply flat_map_app. Qed.

Lemma links_flat_map {A} (f : A -> page) (l : list A) :
  links (flat_map f l) = flat_map (fun x => links (f x)) l.
Proof.
  induction l as [|x l IH]; [reflexivity|].
  cbn [flat_map]. now rewrite links_app, IH.
Qed.

Lemma flat_map_singleton {A B} (f : A -> list B) (g : A -> B) (l : list A) :
  (forall x, In x l -> f x = [g x]) -> flat_map f l = map g l.
Proof.
  induction l as [|x l IH]; intros H; [reflexivity|].
  cbn [flat_map map]. rewrite (H x) by now left.
  rewrite IH; [reflexivity|].
  intros y I. apply H. now right.
Qed.

Lemma count_of_positive {A} (l : list A) : (0 <? count_of l) = false -> l = [].
Proof. destruct l; [reflexivity|]. unfold count_of. cbn. discriminate. Qed.

Lemma links_file_row (basePath : path) (c : item) :
  is_file c = true -> links (file_row basePath c) = [child_link basePath c].
Proof.
  destruct c; [|discriminate]. intros _.
  unfold child_link. cbn. now rewrite append_empty.
Qed.

Lemma links_file_rows (basePath : path) (l : list item) :
  links (flat_map (file_row basePath) (filter is_file l))
  = map (child_link basePath) (filter is_file l).
Proof.
  rewrite links_flat_map. apply flat_map_singleton.
  intros c I. apply filter_In in I as [_ I]. now apply links_file_row.
Qed.

Lemma links_file_list (structure : item) (basePath : path) :
  links (file_list structure basePath)
  = map (child_link basePath) (filter is_file (item_children structure)).
Proof.
  unfold file_list.
  destruct (0 <? count_of (filter is_file (item_children structure))) eqn:E.
  - rewrite !links_app, links_file_rows. cbn [links flat_map app].
    now rewrite app_nil_r.
  - now rewrite (count_of_positive _ E).
Qed.

(** The links of a list of sub-directories, each rendered by [row] around
    one link to its index page. *)
Lemma links_directory_rows (basePath : path) (row : item -> page) (l : list item) :
  (forall dir, links (row dir)
               = [(item_name dir, link_to basePath (item_path dir) ++ "/README.md")]) ->
  links (flat_map row (filter is_directory l))
  = map (child_link basePath) (filter is_directory l).
Proof.
  intros H. rewrite links_flat_map. apply flat_map_singleton.
  intros c I. apply filter_In in I as [_ I]. rewrite H.
  unfold child_link. now rewrite I.
Qed.

Lemma links_directory_section (basePath : path) (head : page) (row : item -> page)
      (l : list item) :
  links head = [] ->
  (forall dir, links (row dir)
               = [(item_name dir, link_to basePath (item_path dir) ++ "/README.md")]) ->
  links (if 0 <? count_of (filter is_directory l)
         then (head ++ flat_map row (filter is_directory l) ++ [Txt nl])%list
         else [])
  = map (child_link basePath) (filter is_directory l).
Proof.
  intros Hh Hr. destruct (0 <? count_of (filter is_directory l)) eqn:E.
  - rewrite !links_app, Hh, (links_directory_rows basePath row l Hr).
    cbn [links flat_map app]. now rewrite app_nil_r.
  - now rewrite (count_of_positive _ E).
Qed.

Lemma links_page_head (structure : item) : links (page_head structure) = [].
Proof. reflexivity. Qed.

Lemma links_Final_normal (structure : item) (basePath : path) :
  links (Final.generateNormalReadmeContent structure basePath)
  = map (child_link basePath)
        (filter is_file (item_children structure)
         ++ filter is_directory (item_children structure))%list.
Proof.
  unfold Final.generateNormalReadmeContent. cbv zeta.
  rewrite !links_app, links_page_head, links_file_list.
  rewrite (links_directory_section basePath) by reflexivity.
  cbn [links page_foot flat_map app]. now rewrite app_nil_r, map_app.
Qed.

Lemma links_Usage_normal (structure : item) (basePath : path) :
  links (Usage.generateNormalReadmeContent structure basePath)
  = map (child_link basePath)
        (filter is_file (item_children structure)
         ++ filter is_directory (item_children structure))%list.
Proof.
  unfold Usage.generateNormalReadmeContent. cbv zeta.
  rewrite !links_app, links_page_head, links_file_list.
  rewrite (links_directory_section basePath) by reflexivity.
  cbn [links page_foot flat_map app]. now rewrite app_nil_r, map_app.
Qed.

Lemma links_Usage_intermediate (fs : node) (structure : item) (basePath : path) :
  links (Usage.generateIntermediateReadmeContent fs structure basePath)
  = map (child_link basePath)
        (filter is_file (item_children structure)
         ++ filter is_directory (item_children structure))%list.
Proof.
  unfold Usage.generateIntermediateReadmeContent. cbv zeta.
  rewrite !links_app, links_page_head, links_file_list.
  rewrite (links_directory_section basePath) by reflexivity.
  cbn [links page_foot flat_map app]. now rewrite app_nil_r, map_app.
Qed.

Lemma links_Final_sidebar (structure : item) (basePath : path) :
  links (Final.generateSubdirSidebarContent structure basePath)
  = ([("返回根目录", "../README.md"); ("返回上一级", "./README.md")]
     ++ map (child_link basePath) (filter is_file (item_children structure)))%list.
Proof.
  unfold Final.generateSubdirSidebarContent.
  rewrite !links_app, links_flat_map.
  rewrite (flat_map_singleton _ (child_link basePath)); [reflexivity|].
  intros c I. apply filter_In in I as [_ I].
  destruct c; [|discriminate]. unfold child_link. cbn. now rewrite append_empty.
Qed.

Lemma links_bullet (label target : string) : links (bullet label target) = [(label, target)].
Proof. reflexivity. Qed.

Lemma links_Usage_sidebar (specifiedPath : string) (structure : item) (basePath : path) :
  exists parent self,
    links (Usage.generateSubdirSidebarContent specifiedPath structure basePath)
    = ([("返回根目录", "/README.md"); ("返回上一级", parent); self]
       ++ map (child_link basePath)
              (filter is_file (item_children structure)
               ++ filter is_directory (item_children structure)))%list.
Proof.
  unfold Usage.generateSubdirSidebarContent. cbv zeta.
  set (relativePath := link_to basePath (item_path structure)).
  set (files := filter is_file (item_children structure)).
  set (directories := filter is_directory (item_children structure)).
  assert (Hf : links (if 0 <? count_of files
                      then (flat_map (fun item => bullet (item_name item)
                                                         (link_to basePath (item_path item)))
                                     files ++ [Txt nl])%list
                      else [])
               = map (child_link basePath) files).
  { destruct (0 <? count_of files) eqn:E.
    - rewrite links_app, links_flat_map. cbn [links flat_map app].
      rewrite app_nil_r. apply flat_map_singleton.
      intros c I. apply filter_In in I as [_ I].
      destruct c; [|discriminate]. unfold child_link. cbn.
      now rewrite append_empty.
    - now rewrite (count_of_positive _ E). }
  assert (Hd : links (if 0 <? count_of directories
                      then flat_map (fun dir => bullet (item_name dir)
                                                       (link_to basePath (item_path dir)
                                                        ++ "/README.md"))
                                    directories
                      else [])
               = map (child_link basePath) directories).
  { destruct (0 <? count_of directories) eqn:E.
    - apply (links_directory_rows basePath). reflexivity.
    - now rewrite (count_of_positive _ E). }
  destruct (count_of (split_slash relativePath) <=? 1);
    destruct (relativePath =? "")%string;
    do 2 eexists; unfold page in Hf, Hd; rewrite !links_app, Hf, Hd, map_app;
    reflexivity.
Qed.

(** ** The designated-collection page *)

Lemma count_of_map {A B} (f : A -> B) (l : list A) : count_of (map f l) = count_of l.
Proof. unfold count_of. now rewrite length_map. Qed.

Lemma count_of_sort_by {A} (key : A -> string) (l : list A) :
  count_of (sort_by key l) = count_of l.
Proof. unfold count_of. now rewrite sort_by_length. Qed.

Lemma count_of_Forall2 {A B} (R : A -> B -> Prop) (l : list A) (l' : list B) :
  Forall2 R l l' -> count_of l = count_of l'.
Proof. intros H. unfold count_of. now rewrite (Forall2_length H). Qed.

(** The rows of the script are the rows asked for. *)
Lemma subtable_rows_expected (fs : node) (basePath : path) (dir sub : item) :
  getDirectoryStructure fs (item_path dir) 0 = Ok sub ->
  Usage.subtable_rows fs basePath dir sub = expected_rows fs basePath dir.
Proof.
  unfold getDirectoryStructure, existsSync, Usage.subtable_rows, expected_rows,
    documents_in, subdirectories_in.
  destruct (statSync fs (item_path dir)) as [n|]; cbn [negb bind].
  - intros S. destruct (scan_children _ _ _ _ S) as (es & ds & -> & F2 & _ & _ & _ & Hf & Hd).
    cbv zeta. rewrite Hf, Hd, count_of_map, !count_of_sort_by.
    rewrite <- (count_of_Forall2 _ _ _ F2).
    reflexivity.
  - intros H; inversion H. reflexivity.
Qed.

Lemma for_each_page_Ok (body : item -> result page) (Q : item -> page -> Prop)
      (l : list item) :
  (forall dir, In dir l -> exists table, body dir = Ok table /\ Q dir table) ->
  exists tables,
    for_each_page body l = Ok (List.concat tables) /\ Forall2 Q l tables.
Proof.
  induction l as [|dir l IH]; intros H.
  - exists []. split; [reflexivity | constructor].
  - destruct (H dir (or_introl eq_refl)) as (table & B & HQ).
    destruct IH as (tables & E & F); [intros d I; apply H; now right|].
    exists (table :: tables). cbn [for_each_page List.concat]. rewrite B, E.
    split; [reflexivity | now constructor].
Qed.

(** The documents the scan of [dir] finds are those lying directly in it. *)
Lemma scanned_documents (fs : node) (dir sub : item) :
  getDirectoryStructure fs (item_path dir) 0 = Ok sub ->
  filter is_file (item_children sub)
  = map (file_node (item_path dir) 0) (sort_by fst (documents_in fs (item_path dir))).
Proof.
  unfold getDirectoryStructure, existsSync, documents_in.
  destruct (statSync fs (item_path dir)) as [n|]; cbn [negb bind].
  - intros S. destruct (scan_children _ _ _ _ S) as (es & ds & -> & _ & _ & _ & _ & Hf & _).
    exact Hf.
  - intros H; inversion H. reflexivity.
Qed.

(** C5, amended: in the script of [USAGE_EXAMPLE.md], on the
    designated-collection page, each immediate sub-directory has a table of
    its own, in order, after the overview; the table lists the documents
    lying directly in the sub-directory (name, content volume, formatted
    size) when there are some, and otherwise, when the sub-directory holds
    sub-directories, exactly one roll-up row: its recursive document count,
    content volume and formatted size, linked to its own index page.  In
    [generate-docs-final.js] the table lists the documents of the
    sub-directory and nothing else. *)
Theorem designated_page_subtables (fs : node) (structure : item) (basePath : path) :
  (forall dir, In dir (filter is_directory (item_children structure)) ->
               getDirectoryStructure fs (item_path dir) 0 <> Throw) ->
  (exists tables,
      Usage.generateSpecifiedPathReadmeContent fs structure basePath
      = Ok (overview fs structure [Lnk (item_name structure) "/README.md"]
            ++ List.concat tables ++ page_foot)%list
      /\ Forall2 (fun dir table => table = expected_table fs basePath dir)
                 (filter is_directory (item_children structure)) tables)
  /\ (exists tables,
         Final.generateSpecifiedPathReadmeContent fs structure basePath
         = Ok (overview fs structure [Txt (item_name structure)]
               ++ List.concat tables ++ page_foot)%list
         /\ Forall2 (fun dir table => table = documents_table fs basePath dir)
                    (filter is_directory (item_children structure)) tables).
Proof.
  intros H. split.
  - unfold Usage.generateSpecifiedPathReadmeContent.
    destruct (for_each_page_Ok (Usage.subtable fs basePath)
                               (fun dir table => table = expected_table fs basePath dir)
                               (filter is_directory (item_children structure)))
      as (tables & E & F).
    + intros dir I. specialize (H dir I). unfold Usage.subtable.
      destruct (getDirectoryStructure fs (item_path dir) 0) as [sub|] eqn:S;
        [|contradiction].
      cbn [bind]. eexists. split; [reflexivity|].
      unfold expected_table. now rewrite (subtable_rows_expected _ _ _ _ S).
    + exists tables. rewrite E. split; [reflexivity | exact F].
  - unfold Final.generateSpecifiedPathReadmeContent.
    destruct (for_each_page_Ok (Final.subtable fs basePath)
                               (fun dir table => table = documents_table fs basePath dir)
                               (filter is_directory (item_children structure)))
      as (tables & E & F).
    + intros dir I. specialize (H dir I). unfold Final.subtable.
      destruct (getDirectoryStructure fs (item_path dir) 0) as [sub|] eqn:S;
        [|contradiction].
      cbn [bind]. eexists. split; [reflexivity|].
      unfold documents_table. now rewrite (scanned_documents _ _ _ S).
    + exists tables. rewrite E. split; [reflexivity | exact F].
Qed.

Lemma designated_page_subtables_witness :
  exists tables,
    Usage.generateSpecifiedPathReadmeContent scenario_fs scenario_C ["r"]
    = Ok (overview scenario_fs scenario_C [Lnk "C" "/README.md"]
          ++ List.concat tables ++ page_foot)%list
    /\ Forall2 (fun dir table => table = expected_table scenario_fs ["r"] dir)
               [scenario_A; scenario_B] tables.
Proof.
  apply (designated_page_subtables scenario_fs scenario_C ["r"]).
  intros dir [<-|[<-|[]]]; vm_compute; discriminate.
Defined.

(** In the scenario the table asked for [A] has a row for each of its two
    documents and the table asked for [B] the single roll-up row. *)
Lemma scenario_tables :
  getDirectoryStructure scenario_fs ["r"; "C"] 1 = Ok scenario_C
  /\ render (expected_rows scenario_fs ["r"] scenario_A)
     = "| [a](C/A/a.md) | 167 字 | 500 B |" ++ nl
       ++ "| [b](C/A/b.md) | 667 字 | 1.95 KB |" ++ nl
  /\ render (expected_rows scenario_fs ["r"] scenario_B)
     = "| [总计：1 部书](C/B/README.md) | 3 字 | 10 B |" ++ nl.
Proof. vm_compute. repeat split. Qed.

(** C5 as stated fails for [generate-docs-final.js]: in the scenario the
    page it writes for the collection [/r/C] gives [B], which holds only
    the sub-directory [B1], a table without any row. *)
Lemma final_has_no_rollup_row :
  Final.subtable scenario_fs ["r"] scenario_B
  = Ok (subtable_head scenario_B ++ [Txt nl])%list
  /\ Final.subtable scenario_fs ["r"] scenario_B
     <> Ok (expected_table scenario_fs ["r"] scenario_B)
  /\ exists data,
      Final.generateSpecifiedPathReadmeContent scenario_fs scenario_C ["r"] = Ok data
      /\ In (WriteFile ["r"; "C"; "README.md"] (render data))
            (trace (fst (Final.main "C" ["r"] (start scenario_fs))))
      /\ links data = [("a", "C/A/a.md"); ("b", "C/A/b.md")].
Proof.
  repeat apply conj.
  - reflexivity.
  - vm_compute. discriminate.
  - eexists. split; [reflexivity|]. split.
    + vm_compute. repeat (try (left; reflexivity); right).
    + reflexivity.
Qed.

(** ** The emitter *)

Lemma written_app (t t' : list event) : written (t ++ t') = (written t ++ written t')%list.
Proof. apply flat_map_app. Qed.

Lemma writes_ret {A} (a : A) : writes (ret a) [].
Proof.
  intros w w' r H. inversion H; subst. exists [].
  rewrite app_nil_r. repeat split. now exists [].
Qed.

Lemma writes_throw {A} (files : list path) : writes (fun w => (w, @Throw A)) files.
Proof.
  intros w w' r H. inversion H; subst. exists [].
  rewrite app_nil_r. repeat split; [now exists files | congruence].
Qed.

Lemma writes_reading {A} (f : node -> result A) : writes (reading f) [].
Proof.
  intros w w' r H. inversion H; subst. exists [].
  rewrite app_nil_r. repeat split. now exists [].
Qed.

Lemma writes_console_log (message : string) : writes (console_log message) [].
Proof.
  intros w w' r H. inversion H; subst. exists [ConsoleLog message].
  repeat split. now exists [].
Qed.

Lemma writes_writeFileSync (file : path) (data : string) :
  writes (writeFileSync file data) [file].
Proof.
  intros w w' r. unfold writeFileSync.
  destruct (write_node (disk w) file (file_of data)); intros H; inversion H; subst.
  - exists [WriteFile file data]. repeat split. now exists [].
  - exists []. rewrite app_nil_r. repeat split; [now exists [file] | congruence].
Qed.

Lemma writes_bind {A B} (m : M A) (k : A -> M B) (f1 f2 files : list path) :
  writes m f1 -> (forall a, writes (k a) f2) -> files = (f1 ++ f2)%list ->
  writes (bindM m k) files.
Proof.
  intros Hm Hk -> w w' r. unfold bindM.
  destruct (m w) as [w1 [a|]] eqn:E; intros H.
  - destruct (Hm w w1 (Ok a) E) as (new1 & T1 & _ & W1).
    destruct (Hk a w1 w' r H) as (new2 & T2 & (rest & P2) & W2).
    exists (new1 ++ new2)%list. rewrite written_app, W1 by discriminate.
    repeat split.
    + now rewrite T2, T1, app_assoc.
    + exists rest. now rewrite P2, app_assoc.
    + intros Hr. now rewrite (W2 Hr).
  - inversion H; subst.
    destruct (Hm w w' Throw E) as (new1 & T1 & (rest & P1) & _).
    exists new1. repeat split; [exact T1 | | congruence].
    exists (rest ++ f2)%list. now rewrite P1, app_assoc.
Qed.

Lemma two_files_each_DirNode (name : string) (p : path) (depth : N) (children : list item) :
  two_files_each (DirNode name p depth children)
  = ([resolve p "README.md"; resolve p "_sidebar.md"]
     ++ flat_map two_files_each children)%list.
Proof.
  unfold two_files_each. cbn [visited flat_map app index_page sidebar_page item_path].
  do 2 f_equal. induction children as [|c l IH]; [reflexivity|].
  cbn [flat_map]. now rewrite flat_map_app, IH.
Qed.

Lemma files_of_final_DirNode (specifiedPath name : string) (p : path) (depth : N)
      (children : list item) :
  files_of_final specifiedPath (DirNode name p depth children)
  = (resolve p "README.md"
     :: (if negb (name =? specifiedPath)%string then [resolve p "_sidebar.md"] else [])
     ++ flat_map (files_of_final specifiedPath) children)%list.
Proof.
  unfold files_of_final.
  cbn [visited flat_map app index_page sidebar_page item_path item_name].
  do 2 f_equal. induction children as [|c l IH]; [reflexivity|].
  cbn [flat_map]. now rewrite flat_map_app, IH.
Qed.

(** The loop over the children, given what each child writes. *)
Lemma writes_children (generate : item -> M unit) (files : item -> list path)
      (children : list item) :
  Forall (fun c => writes (generate c) (files c)) children ->
  (forall c, is_directory c = false -> files c = []) ->
  writes ((fix forEach (items : list item) : M unit :=
             match items with
             | [] => ret tt
             | item :: rest =>
                 bindM (if is_directory item then generate item else ret tt)
                       (fun _ => forEach rest)
             end) children)
         (flat_map files children).
Proof.
  intros H Hf. induction H as [|c l Hc _ IH]; [apply writes_ret|].
  eapply writes_bind; [| intros _; exact IH | reflexivity].
  destruct (is_directory c) eqn:D; [exact Hc|].
  rewrite (Hf c D). apply writes_ret.
Qed.

Lemma writes_Usage (specifiedPath : string) (basePath : path) (structure : item)
      (isRoot : bool) :
  writes (Usage.generateDocs specifiedPath structure basePath isRoot)
         (two_files_each structure).
Proof.
  revert isRoot.
  induction structure as [| name p depth children IH] using item_ind; intros isRoot.
  - apply writes_throw.
  - rewrite two_files_each_DirNode. cbn [Usage.generateDocs].
    eapply writes_bind; [apply writes_console_log | intros _ | reflexivity].
    eapply writes_bind; [apply writes_reading | intros readmeContent | reflexivity].
    eapply writes_bind; [apply writes_writeFileSync | intros _ | reflexivity].
    eapply writes_bind; [apply writes_console_log | intros _ | reflexivity].
    eapply writes_bind; [apply writes_console_log | intros _ | reflexivity].
    eapply writes_bind; [apply writes_writeFileSync | intros _ | reflexivity].
    eapply writes_bind; [apply writes_console_log | intros _ | reflexivity].
    apply (writes_children
             (fun c => Usage.generateDocs specifiedPath c basePath false)).
    + eapply Forall_impl; [|exact IH]. intros c Hc. apply Hc.
    + intros [] D; [reflexivity | discriminate].
Qed.

Lemma writes_Final (specifiedPath : string) (basePath : path) (structure : item)
      (isRoot : bool) :
  writes (Final.generateDocs specifiedPath structure basePath isRoot)
         (files_of_final specifiedPath structure).
Proof.
  revert isRoot.
  induction structure as [| name p depth children IH] using item_ind; intros isRoot.
  - apply writes_throw.
  - rewrite files_of_final_DirNode. cbn [Final.generateDocs].
    eapply writes_bind; [apply writes_console_log | intros _ | reflexivity].
    eapply writes_bind; [apply writes_reading | intros readmeContent | reflexivity].
    eapply writes_bind; [apply writes_writeFileSync | intros _ | reflexivity].
    eapply writes_bind; [apply writes_console_log | intros _ | reflexivity].
    eapply writes_bind; [| intros _ | reflexivity].
    + destruct (negb (name =? specifiedPath)%string).
      * eapply writes_bind; [apply writes_console_log | intros _ | reflexivity].
        eapply writes_bind; [apply writes_writeFileSync | intros _ | reflexivity].
        apply writes_console_log.
      * apply writes_ret.
    + apply (writes_children
               (fun c => Final.generateDocs specifiedPath c basePath false)).
      * eapply Forall_impl; [|exact IH]. intros c Hc. apply Hc.
      * intros [] D; [reflexivity | discriminate].
Qed.

(** ** Writing a file *)

Lemma write_node_cons (r : bool) (es : list (string * node)) (s : string) (p : path)
      (f : node) :
  write_node (Dir r es) (s :: p) f
  = (es' <- update_entries (fun c => write_node c p f) s
                           (match p with
                            | [] => Ok [(s, f)]
                            | _ => Throw
                            end) es ;;
     Ok (Dir r es')).
Proof. reflexivity. Qed.

Lemma update_entries_other (write_child : node -> result node) (s t : string)
      (created : result (list (string * node))) (f : node)
      (es es' : list (string * node)) :
  update_entries write_child s created es = Ok es' ->
  (created = Ok [(s, f)] \/ created = Throw) ->
  t <> s -> find_entry t es' = find_entry t es.
Proof.
  intros U C Ne. revert es' U; induction es as [|[name c] es IH]; intros es' U.
  - cbn in U. destruct C as [C|C]; rewrite C in U; inversion U; subst.
    cbn. destruct (String.eqb_spec s t); [congruence | reflexivity].
  - cbn [update_entries] in U. destruct (String.eqb_spec name s) as [->|Nn].
    + destruct (write_child c) as [c'|]; [|discriminate]. inversion U; subst.
      cbn. destruct (String.eqb_spec s t); [congruence | reflexivity].
    + destruct (update_entries write_child s created es) as [rest'|]; [|discriminate].
      inversion U; subst. cbn. now rewrite (IH rest' eq_refl).
Qed.

Lemma update_entries_same (write_child : node -> result node) (s : string)
      (created : result (list (string * node))) (es es' : list (string * node)) :
  update_entries write_child s created es = Ok es' ->
  match find_entry s es with
  | Some c => exists c', write_child c = Ok c' /\ find_entry s es' = Some c'
  | None => exists l, created = Ok l /\ find_entry s es' = find_entry s l
  end.
Proof.
  revert es'; induction es as [|[name c] es IH]; intros es' U.
  - cbn in *. exists es'. auto.
  - cbn [update_entries find_entry] in *.
    destruct (String.eqb_spec name s) as [->|Nn].
    + destruct (write_child c) as [c'|]; [|discriminate]. inversion U; subst.
      exists c'. cbn. now rewrite String.eqb_refl.
    + destruct (update_entries write_child s created es) as [rest'|]; [|discriminate].
      inversion U; subst. specialize (IH rest' eq_refl).
      cbn [find_entry]. destruct (String.eqb_spec name s); [contradiction|].
      exact IH.
Qed.

(** [writeFileSync] replaces whatever the name held: afterwards the path
    holds the file written. *)
Lemma write_overwrites (p : path) (n n' : node) (data : string) :
  write_node n p (file_of data) = Ok n' -> statSync n' p = Ok (file_of data).
Proof.
  revert n n'; induction p as [|s p IH]; intros n n' W.
  - destruct n; inversion W; subst; reflexivity.
  - destruct n as [| r es |]; try discriminate.
    rewrite write_node_cons in W.
    destruct (update_entries _ s _ es) as [es'|] eqn:U; [|discriminate].
    inversion W; subst. cbn [statSync].
    pose proof (update_entries_same _ _ _ _ _ U) as S.
    destruct (find_entry s es) as [c|].
    + destruct S as (c' & Wc & ->). now apply (IH c).
    + destruct S as (l & C & ->). destruct p; [|discriminate].
      inversion C; subst. cbn. now rewrite String.eqb_refl.
Qed.

(** And nothing else: a path that does not lead to the file written
    holds what it held. *)
Lemma write_frame (p : path) (n n' f : node) (q : path) :
  write_node n p f = Ok n' -> isDirectory f = false ->
  ~ on_the_way q p -> statSync n' q = statSync n q.
Proof.
  intros W Hf. revert n n' q W; induction p as [|s p IH]; intros n n' q W Nq.
  - destruct q as [|t q]; [exfalso; apply Nq; now exists []|].
    destruct n; inversion W; subst; destruct n'; try discriminate; reflexivity.
  - destruct n as [| r es |]; try discriminate.
    rewrite write_node_cons in W.
    destruct (update_entries _ s _ es) as [es'|] eqn:U; [|discriminate].
    inversion W; subst.
    destruct q as [|t q]; [exfalso; apply Nq; now exists (s :: p)|].
    cbn [statSync].
    destruct (String.eqb_spec t s) as [->|Ne].
    + assert (Nq' : ~ on_the_way q p).
      { intros (rest & ->). apply Nq. now exists rest. }
      pose proof (update_entries_same _ _ _ _ _ U) as S.
      destruct (find_entry s es) as [c|].
      * destruct S as (c' & Wc & ->). now apply (IH c).
      * destruct S as (l & C & ->). destruct p; [|discriminate].
        inversion C; subst. cbn. rewrite String.eqb_refl.
        destruct q as [|u q]; [exfalso; apply Nq'; now exists []|].
        destruct f; try discriminate; reflexivity.
    + erewrite (update_entries_other _ s t _ f); [reflexivity | exact U | | exact Ne].
      destruct p; auto.
Qed.

(** C7 as stated fails for [generate-docs-final.js]: in the scenario the
    run ends normally having written nine files, the collection [/r/C]
    getting its index page and no sidebar. *)
Lemma final_skips_collection_sidebar :
  getDirectoryStructure scenario_fs ["r"] 0 = Ok scenario_root
  /\ snd (Final.main "C" ["r"] (start scenario_fs)) = Completed
  /\ written (trace (fst (Final.main "C" ["r"] (start scenario_fs))))
     = [["r"; "README.md"]; ["r"; "_sidebar.md"];
        ["r"; "C"; "README.md"];
        ["r"; "C"; "A"; "README.md"]; ["r"; "C"; "A"; "_sidebar.md"];
        ["r"; "C"; "B"; "README.md"]; ["r"; "C"; "B"; "_sidebar.md"];
        ["r"; "C"; "B"; "B1"; "README.md"]; ["r"; "C"; "B"; "B1"; "_sidebar.md"]]
  /\ ~ writes_two_files_each (Final.generateDocs "C").
Proof.
  repeat apply conj; try (vm_compute; reflexivity).
  intros H.
  destruct (H scenario_root ["r"] true (start scenario_fs) _ _ (surjective_pairing _))
    as (new & T & _ & W).
  cbn [start trace app] in T. rewrite <- T in W.
  assert (L : List.length (two_files_each scenario_root) = 10%nat) by reflexivity.
  rewrite <- W in L; [|vm_compute; discriminate].
  vm_compute in L. discriminate.
Qed.

(** ** The model follows the scripts' recursion on paths *)

Section WalkListingFacts.
Variable fs : node.
Variable dirPath : path.
Variable r : bool.
Variable es : list (string * node).
Hypothesis listed : statSync fs dirPath = Ok (Dir r es).
Hypothesis unique : NoDup (map fst es).

Variable onDirectoryPath : path -> N.
Variable onFilePath : string -> node -> path -> N.
Variable onDirectory : node -> N.
Variable onFile : string -> node -> N.
Hypothesis directories_agree :
  forall file c, In (file, c) es -> isDirectory c = true ->
                 onDirectoryPath (resolve dirPath file) = onDirectory c.
Hypothesis files_agree :
  forall file c, In (file, c) es -> isDirectory c = false ->
                 onFilePath file c (resolve dirPath file) = onFile file c.

Lemma walk_listing_walk (l : list (string * node)) (total : N) :
  incl l es ->
  walk_listing fs dirPath onDirectoryPath onFilePath total (map fst l)
  = walk onDirectory onFile total l.
Proof.
  revert total; induction l as [|[file c] l IH]; intros total I; [reflexivity|].
  assert (Ic : In (file, c) es) by (apply I; now left).
  assert (Il : incl l es) by (intros e He; apply I; now right).
  cbn [map fst walk_listing walk].
  rewrite (stat_listed fs dirPath r es file c listed unique Ic).
  destruct c; cbn [statSync bind isDirectory]; [| | reflexivity].
  - rewrite (files_agree file _ Ic eq_refl). now apply IH.
  - rewrite (directories_agree file _ Ic eq_refl). now apply IH.
Qed.
End WalkListingFacts.

Lemma stat_listed_Ok (fs : node) (dir : path) (r : bool) (es : list (string * node))
      (file : string) (c : node) :
  statSync fs dir = Ok (Dir r es) -> NoDup (map fst es) -> In (file, c) es ->
  c <> Dangling -> statSync fs (resolve dir file) = Ok c.
Proof.
  intros S ND I Nd. rewrite (stat_listed fs dir r es file c S ND I).
  destruct c; [reflexivity | reflexivity | contradiction].
Qed.

(** [countMarkdownFiles] satisfies the equation its source text states. *)
Lemma countMarkdownFiles_equation (fs : node) (dirPath : path) :
  unique_names fs ->
  countMarkdownFiles fs dirPath
  = try_catch
      (list <- readdirSync fs dirPath ;;
       walk_listing fs dirPath (countMarkdownFiles fs)
                    (fun file _ _ => if isMarkdown file then 1 else 0) 0 list)
      0.
Proof.
  intros U. unfold countMarkdownFiles at 1, readdirSync.
  destruct (statSync fs dirPath) as [n|] eqn:S; [|reflexivity].
  cbn [bind try_catch].
  destruct n as [| [] es |]; try reflexivity. cbn [readdir_node bind].
  pose proof (unique_names_stat fs dirPath _ U S) as Un.
  apply unique_names_Dir in Un as [ND _].
  rewrite countMarkdown_node_walk.
  rewrite (walk_listing_walk fs dirPath true es S ND _ _ countMarkdown_node count_file);
    [reflexivity | | | apply incl_refl].
  - intros file c I D.
    rewrite (countMarkdownFiles_stat fs _ c); [reflexivity|].
    apply (stat_listed_Ok fs dirPath true es); auto. now destruct c.
  - reflexivity.
Qed.

Lemma estimateWordCount_listed (fs : node) (dir : path) (r : bool)
      (es : list (string * node)) (file : string) (c : node) :
  statSync fs dir = Ok (Dir r es) -> NoDup (map fst es) -> In (file, c) es ->
  estimateWordCount fs (resolve dir file) = wordCount_node c.
Proof.
  intros S ND I. unfold estimateWordCount.
  rewrite (stat_listed fs dir r es file c S ND I). now destruct c.
Qed.

Lemma getFileSize_listed (fs : node) (dir : path) (r : bool)
      (es : list (string * node)) (file : string) (c : node) :
  statSync fs dir = Ok (Dir r es) -> NoDup (map fst es) -> In (file, c) es ->
  c <> Dangling -> getFileSize fs (resolve dir file) = format_size (stat_size c).
Proof.
  intros S ND I Nd. unfold getFileSize.
  now rewrite (stat_listed_Ok fs dir r es file c S ND I Nd).
Qed.

(** [estimateDirectoryWordCount] satisfies the equation its source text
    states. *)
Lemma estimateDirectoryWordCount_equation (fs : node) (dirPath : path) :
  unique_names fs ->
  estimateDirectoryWordCount fs dirPath
  = try_catch
      (list <- readdirSync fs dirPath ;;
       walk_listing fs dirPath (estimateDirectoryWordCount fs)
                    (fun file _ fullPath =>
                       if isMarkdown file then estimateWordCount fs fullPath else 0)
                    0 list)
      0.
Proof.
  intros U. unfold estimateDirectoryWordCount at 1, readdirSync.
  destruct (statSync fs dirPath) as [n|] eqn:S; [|reflexivity].
  cbn [bind try_catch].
  destruct n as [| [] es |]; try reflexivity. cbn [readdir_node bind].
  pose proof (unique_names_stat fs dirPath _ U S) as Un.
  apply unique_names_Dir in Un as [ND _].
  rewrite wordCountDir_node_walk.
  rewrite (walk_listing_walk fs dirPath true es S ND _ _ wordCountDir_node words_file);
    [reflexivity | | | apply incl_refl].
  - intros file c I D. unfold estimateDirectoryWordCount.
    rewrite (stat_listed_Ok fs dirPath true es file c); auto. now destruct c.
  - intros file c I D. unfold words_file.
    now rewrite (estimateWordCount_listed fs dirPath true es file c S ND I).
Qed.

(** [getDirectorySize] satisfies the equation its source text states. *)
Lemma getDirectorySize_equation (fs : node) (dirPath : path) :
  unique_names fs ->
  getDirectorySize fs dirPath
  = try_catch
      (list <- readdirSync fs dirPath ;;
       totalSize <- walk_listing fs dirPath (fun p => size (getDirectorySize fs p))
                                 (fun _ stat _ => stat_size stat) 0 list ;;
       Ok (format_size totalSize))
      zero_size.
Proof.
  intros U. unfold getDirectorySize at 1, readdirSync.
  destruct (statSync fs dirPath) as [n|] eqn:S; [|reflexivity].
  cbn [bind try_catch].
  destruct n as [| [] es |]; try reflexivity. cbn [readdir_node bind].
  pose proof (unique_names_stat fs dirPath _ U S) as Un.
  apply unique_names_Dir in Un as [ND _].
  rewrite directorySize_node_walk.
  rewrite (walk_listing_walk fs dirPath true es S ND _ _ directorySize_node bytes_file);
    [| | | apply incl_refl].
  - destruct (walk directorySize_node bytes_file 0 es); reflexivity.
  - intros file c I D. unfold getDirectorySize.
    rewrite (stat_listed_Ok fs dirPath true es file c); auto; [|now destruct c].
    cbn [bind try_catch]. apply size_format_size.
  - reflexivity.
Qed.

(** No unit lies above the megabyte. *)
Lemma megabytes_unbounded : formatted (format_size 1073741824) = "1024 MB".
Proof. reflexivity. Qed.

Lemma insert_sorted_map {A B} (key : B -> string) (f : A -> B) (x : A) (l : list A) :
  insert_sorted key (f x) (map f l)
  = map f (insert_sorted (fun a => key (f a)) x l).
Proof.
  induction l as [|y l IH]; [reflexivity|].
  cbn [map insert_sorted]. destruct (String.leb (key (f x)) (key (f y))).
  - reflexivity.
  - cbn [map]. now rewrite IH.
Qed.

Lemma sort_by_map {A B} (key : B -> string) (f : A -> B) (l : list A) :
  sort_by key (map f l) = map f (sort_by (fun a => key (f a)) l).
Proof.
  induction l as [|x l IH]; [reflexivity|].
  cbn [map sort_by]. now rewrite IH, insert_sorted_map.
Qed.

Lemma sort_names_fst (l : list (string * node)) :
  sort_names (map fst l) = map fst (sort_by fst l).
Proof. apply (sort_by_map (fun name => name) fst). Qed.

Lemma map_result_ext {A B} (f g : A -> result B) (l : list A) :
  (forall x, In x l -> f x = g x) -> map_result f l = map_result g l.
Proof.
  induction l as [|x l IH]; intros H; [reflexivity|].
  cbn [map_result]. rewrite (H x) by now left.
  rewrite IH; [reflexivity|]. intros y I. apply H. now right.
Qed.

Lemma map_result_map {A B C} (f : B -> result C) (g : A -> B) (l : list A) :
  map_result f (map g l) = map_result (fun x => f (g x)) l.
Proof.
  induction l as [|x l IH]; [reflexivity|]. cbn [map map_result]. now rewrite IH.
Qed.

(** Scanning in sorted order, or scanning in listing order and sorting the
    nodes: the same nodes, and an exception in the one case is an
    exception in the other. *)
Section SortThenScan.
Variable A : Type.
Variable h : A -> result item.
Variable key : A -> string.
Hypothesis named : forall x d, h x = Ok d -> item_name d = key x.

Lemma map_result_insert_sorted (x : A) (l : list A) :
  map_result h (insert_sorted key x l)
  = (y <- h x ;; ys <- map_result h l ;; Ok (insert_sorted item_name y ys)).
Proof.
  induction l as [|z l IH].
  - cbn. destruct (h x); reflexivity.
  - cbn [insert_sorted]. destruct (String.leb (key x) (key z)) eqn:L.
    + cbn [map_result]. destruct (h x) as [y|] eqn:Hx; [|reflexivity].
      cbn [bind]. destruct (h z) as [z'|] eqn:Hz; [|reflexivity].
      cbn [bind]. destruct (map_result h l) as [zs|]; [|reflexivity].
      cbn [bind insert_sorted].
      now rewrite (named x y Hx), (named z z' Hz), L.
    + cbn [map_result]. rewrite IH.
      destruct (h x) as [y|] eqn:Hx; destruct (h z) as [z'|] eqn:Hz; cbn [bind];
        try reflexivity.
      destruct (map_result h l) as [zs|]; [|reflexivity].
      cbn [bind insert_sorted].
      now rewrite (named x y Hx), (named z z' Hz), L.
Qed.

Lemma map_result_sort_by (l : list A) :
  map_result h (sort_by key l)
  = (ds <- map_result h l ;; Ok (sort_by item_name ds)).
Proof.
  induction l as [|x l IH]; [reflexivity|].
  cbn [sort_by map_result]. rewrite map_result_insert_sorted, IH.
  destruct (h x) as [y|]; [|reflexivity]. cbn [bind].
  destruct (map_result h l) as [ds|]; reflexivity.
Qed.
End SortThenScan.

Lemma scan_dirs_map_result (dir : path) (depth : N) (es : list (string * node)) :
  scan_dirs scan_node dir depth es
  = map_result (fun e => scan_node (resolve dir (fst e)) (depth + 1) (snd e))
               (filter is_subdirectory_entry es).
Proof.
  induction es as [|[file c] es IH]; [reflexivity|].
  cbn [scan_dirs filter]. unfold is_subdirectory_entry at 1. cbn [fst snd].
  destruct (includes ignoreFiles file); cbn [negb andb]; [exact IH|].
  destruct c; cbn [isDirectory]; try exact IH.
  cbn [map_result fst snd]. now rewrite IH.
Qed.

Section ScanListingFacts.
Variable fs : node.
Variable dir : path.
Variable es : list (string * node).
Hypothesis listed : statSync fs dir = Ok (Dir true es).
Hypothesis unique : NoDup (map fst es).

Lemma partition_listing_entries (l : list (string * node)) :
  incl l es ->
  partition_listing fs dir (map fst l)
  = (files <- partition_files l ;;
     Ok (map fst files, map fst (filter is_subdirectory_entry l))).
Proof.
  induction l as [|[file c] l IH]; intros I; [reflexivity|].
  assert (Ic : In (file, c) es) by (apply I; now left).
  assert (Il : incl l es) by (intros e He; apply I; now right).
  cbn [map fst partition_listing partition_files filter].
  unfold is_subdirectory_entry at 1. cbn [fst snd].
  destruct (includes ignoreFiles file); cbn [negb andb]; [now apply IH|].
  rewrite (stat_listed fs dir true es file c listed unique Ic), (IH Il).
  destruct c; cbn [statSync bind isDirectory]; [| | reflexivity];
    destruct (partition_files l) as [files|]; cbn [bind fst snd]; try reflexivity.
  destruct (isMarkdown file); reflexivity.
Qed.

Lemma file_node_at_listed (depth : N) (file : string) (c : node) :
  In (file, c) es -> c <> Dangling ->
  file_node_at fs dir depth file = file_node dir depth (file, c).
Proof.
  intros I Nd. unfold file_node_at, file_node. cbv zeta.
  now rewrite (getFileSize_listed fs dir true es file c listed unique I Nd),
    (estimateWordCount_listed fs dir true es file c listed unique I).
Qed.

Lemma getDirectoryStructure_listed (depth : N) (file : string) (c : node) :
  In (file, c) es -> isDirectory c = true ->
  getDirectoryStructure fs (resolve dir file) depth
  = scan_node (resolve dir file) depth c.
Proof.
  intros I D. unfold getDirectoryStructure, existsSync.
  rewrite (stat_listed_Ok fs dir true es file c listed unique I);
    [reflexivity | now destruct c].
Qed.
End ScanListingFacts.

Lemma scan_node_named (dir : path) (depth : N) (n : node) (d : item) :
  scan_node dir depth n = Ok d -> item_name d = basename dir.
Proof.
  intros S. destruct (scan_node_Ok _ _ _ _ S) as (? & ? & ? & _ & _ & _ & ->).
  reflexivity.
Qed.

(** [getDirectoryStructure] satisfies the equation its source text states. *)
Lemma getDirectoryStructure_equation (fs : node) (dir : path) (depth : N) :
  unique_names fs ->
  getDirectoryStructure fs dir depth
  = if negb (existsSync fs dir) then Ok (DirNode (basename dir) dir depth [])
    else
      list <- readdirSync fs dir ;;
      parts <- partition_listing fs dir list ;;
      directories <-
        map_result (fun directory =>
                      getDirectoryStructure fs (resolve dir directory) (depth + 1))
                   (sort_names (snd parts)) ;;
      Ok (DirNode (basename dir) dir depth
                  (map (file_node_at fs dir depth) (sort_names (fst parts))
                   ++ directories)%list).
Proof.
  intros U. unfold getDirectoryStructure at 1, readdirSync, existsSync.
  destruct (statSync fs dir) as [n|] eqn:S; [|reflexivity].
  cbn [negb bind].
  destruct n as [| [] es |]; try reflexivity. cbn [readdir_node bind].
  pose proof (unique_names_stat fs dir _ U S) as Un.
  apply unique_names_Dir in Un as [ND _].
  rewrite scan_node_Dir, (partition_listing_entries fs dir es S ND es (incl_refl _)).
  destruct (partition_files es) as [files|] eqn:P; [|reflexivity].
  cbn [bind fst snd].
  pose proof (partition_files_Ok es files P) as Hf.
  rewrite !sort_names_fst, map_result_map, map_map.
  rewrite (map_result_ext
             (fun e => getDirectoryStructure fs (resolve dir (fst e)) (depth + 1))
             (fun e => scan_node (resolve dir (fst e)) (depth + 1) (snd e))).
  - rewrite (map_result_sort_by _ _ fst), scan_dirs_map_result.
    + destruct (map_result _ (filter is_subdirectory_entry es)) as [ds|];
        [|reflexivity].
      cbn [bind]. do 3 f_equal.
      apply map_ext_in. intros [file c] I.
      apply sort_by_In in I. rewrite Hf in I. apply filter_In in I as [I K].
      symmetry. apply (file_node_at_listed fs dir es S ND depth file c I).
      unfold is_document_entry in K. cbn [snd] in K. intros ->.
      now rewrite andb_false_r in K.
    + intros [file c] d Hd. cbn [fst snd] in *.
      rewrite (scan_node_named _ _ _ _ Hd). apply basename_resolve.
  - intros [file c] I. apply sort_by_In, filter_In in I as [I K]. cbn [fst snd].
    apply (getDirectoryStructure_listed fs dir es S ND (depth + 1) file c I).
    unfold is_subdirectory_entry in K. cbn [snd] in K.
    now apply andb_true_iff in K as [_ K].
Qed.

(** ** Runs that end normally

    The pages a run writes bear reserved names, which the scanner skips:
    the scans a run performs while it writes see what the first scan
    saw. *)

Lemma without_reserved_Dir (r : bool) (es : list (string * node)) :
  without_reserved (Dir r es) = Dir r (filter not_reserved (map stripped es)).
Proof. reflexivity. Qed.

Lemma stripped_cons (file : string) (c : node) (es : list (string * node)) :
  filter not_reserved (map stripped ((file, c) :: es))
  = if includes ignoreFiles file
    then filter not_reserved (map stripped es)
    else (file, without_reserved c) :: filter not_reserved (map stripped es).
Proof.
  cbn [map filter]. unfold not_reserved at 1, stripped at 1. cbn [fst snd].
  now destruct (includes ignoreFiles file).
Qed.

Lemma partition_files_stripped (es : list (string * node)) :
  partition_files (filter not_reserved (map stripped es)) = partition_files es.
Proof.
  induction es as [|[file c] es IH]; [reflexivity|].
  rewrite stripped_cons. cbn [partition_files].
  destruct (includes ignoreFiles file) eqn:R; [exact IH|].
  cbn [partition_files]. rewrite R.
  destruct c; cbn [without_reserved]; rewrite ?IH; reflexivity.
Qed.

Lemma scan_dirs_stripped (dir : path) (depth : N) (es : list (string * node)) :
  Forall (fun e => forall dir depth,
              scan_node dir depth (without_reserved (snd e))
              = scan_node dir depth (snd e)) es ->
  scan_dirs scan_node dir depth (filter not_reserved (map stripped es))
  = scan_dirs scan_node dir depth es.
Proof.
  induction 1 as [|[file c] es H _ IH]; [reflexivity|].
  rewrite stripped_cons. cbn [scan_dirs].
  destruct (includes ignoreFiles file) eqn:R; [exact IH|].
  cbn [scan_dirs]. rewrite R. cbn [snd] in H.
  destruct c; try exact IH.
  rewrite without_reserved_Dir, <- without_reserved_Dir, H, IH. reflexivity.
Qed.

(** The scanner does not see the reserved names. *)
Lemma scan_node_without_reserved (n : node) (dir : path) (depth : N) :
  scan_node dir depth (without_reserved n) = scan_node dir depth n.
Proof.
  revert dir depth.
  induction n as [| r es IH |] using node_ind; intros dir depth; try reflexivity.
  rewrite without_reserved_Dir. destruct r; [|reflexivity].
  rewrite !scan_node_Dir, partition_files_stripped, scan_dirs_stripped by exact IH.
  reflexivity.
Qed.

Lemma update_entries_stripped (write_child : node -> result node) (s : string)
      (created : result (list (string * node))) (es es' : list (string * node)) :
  (includes ignoreFiles s = true
   \/ forall c c', write_child c = Ok c' -> without_reserved c' = without_reserved c) ->
  (forall l, created = Ok l -> filter not_reserved (map stripped l) = []) ->
  update_entries write_child s created es = Ok es' ->
  filter not_reserved (map stripped es') = filter not_reserved (map stripped es).
Proof.
  intros Hs Hc. revert es'; induction es as [|[name c] es IH]; intros es' U.
  - cbn in U. now apply Hc.
  - cbn [update_entries] in U. destruct (String.eqb_spec name s) as [->|Ne].
    + destruct (write_child c) as [c'|] eqn:W; [|discriminate].
      inversion U; subst. rewrite !stripped_cons.
      destruct (includes ignoreFiles s) eqn:R; [reflexivity|].
      destruct Hs as [Hs|Hs]; [discriminate|]. now rewrite (Hs c c' W).
    + destruct (update_entries write_child s created es) as [rest'|]; [|discriminate].
      inversion U; subst. rewrite !stripped_cons, (IH rest' eq_refl). reflexivity.
Qed.

(** Writing a file under a reserved name changes nothing of what the
    scanner looks at. *)
Lemma write_reserved_unseen (p : path) (name : string) (n n' f : node) :
  includes ignoreFiles name = true ->
  write_node n (resolve p name) f = Ok n' ->
  without_reserved n' = without_reserved n.
Proof.
  intros R. unfold resolve.
  revert n n'; induction p as [|s p IH]; intros n n' W.
  - destruct n as [| r es |]; try discriminate.
    cbn [app] in W. rewrite write_node_cons in W.
    destruct (update_entries _ name _ es) as [es'|] eqn:U; [|discriminate].
    inversion W; subst. rewrite !without_reserved_Dir. f_equal.
    apply (update_entries_stripped _ _ _ _ _ (or_introl R)) in U; [exact U|].
    intros l H; inversion H; subst. cbn [map filter].
    unfold not_reserved, stripped. cbn [fst]. now rewrite R.
  - destruct n as [| r es |]; try discriminate.
    cbn [app] in W. rewrite write_node_cons in W.
    destruct (update_entries _ s _ es) as [es'|] eqn:U; [|discriminate].
    inversion W; subst. rewrite !without_reserved_Dir. f_equal.
    apply (update_entries_stripped _ _ _ _ _ (or_intror (fun c c' => IH c c'))) in U;
      [exact U|].
    intros l H. destruct p; discriminate.
Qed.

Lemma on_the_way_dec (q p : path) : on_the_way q p \/ ~ on_the_way q p.
Proof.
  revert p; induction q as [|s q IH]; intros p.
  - left. now exists p.
  - destruct p as [|t p].
    + right. intros (rest & H). discriminate.
    + destruct (string_dec s t) as [->|Ne].
      * destruct (IH p) as [(rest & ->)|N].
        -- left. now exists rest.
        -- right. intros (rest & H). inversion H; subst. apply N. now exists rest.
      * right. intros (rest & H). inversion H; congruence.
Qed.

Lemma write_node_Dir (n n' f : node) (s : string) (p : path) :
  write_node n (s :: p) f = Ok n' ->
  exists r es es',
    n = Dir r es /\ n' = Dir r es'
    /\ update_entries (fun c => write_node c p f) s
                      (match p with
                       | [] => Ok [(s, f)]
                       | _ => Throw
                       end) es = Ok es'.
Proof.
  destruct n as [| r es |]; try discriminate.
  rewrite write_node_cons.
  destruct (update_entries _ s _ es) as [es'|] eqn:U; [|discriminate].
  intros H; inversion H; subst. now exists r, es, es'.
Qed.

(** A write below [p] reaches [p] as a directory and leaves one there. *)
Lemma write_decomposes (p rest : path) (n n' m f : node) :
  statSync n p = Ok m -> rest <> [] ->
  write_node n (p ++ rest)%list f = Ok n' ->
  exists m', write_node m rest f = Ok m' /\ statSync n' p = Ok m'
             /\ isDirectory m' = true.
Proof.
  intros S Nr. revert n n' S; induction p as [|s p IH]; intros n n' S W.
  - apply statSync_nil_Ok in S as [-> _]. cbn [app] in W.
    exists n'. destruct rest as [|t rest]; [contradiction|].
    destruct (write_node_Dir _ _ _ _ _ W) as (r & es & es' & -> & -> & _).
    auto.
  - cbn [app] in W.
    destruct (write_node_Dir _ _ _ _ _ W) as (r & es & es' & -> & -> & U).
    cbn [statSync] in *.
    pose proof (update_entries_same _ _ _ _ _ U) as Same.
    destruct (find_entry s es) as [c|]; [|discriminate].
    destruct Same as (c' & Wc & ->). now apply (IH c).
Qed.

Lemma write_through_directories (a b : path) (n n' f : node) :
  b <> [] -> write_node n (a ++ b)%list f = Ok n' ->
  exists x, statSync n a = Ok x /\ isDirectory x = true.
Proof.
  intros Nb. revert n n'; induction a as [|s a IH]; intros n n' W.
  - destruct b as [|t b]; [contradiction|]. cbn [app] in W.
    destruct (write_node_Dir _ _ _ _ _ W) as (r & es & es' & -> & -> & _).
    now exists (Dir r es).
  - cbn [app] in W.
    destruct (write_node_Dir _ _ _ _ _ W) as (r & es & es' & -> & -> & U).
    cbn [statSync].
    pose proof (update_entries_same _ _ _ _ _ U) as Same.
    destruct (find_entry s es) as [c|].
    + destruct Same as (c' & Wc & _). now apply (IH c c').
    + destruct Same as (l & C & _). destruct a, b; try discriminate; contradiction.
Qed.

Lemma write_target_not_directory (p : path) (n n' f : node) :
  write_node n p f = Ok n' -> is_directory_at n p = false.
Proof.
  unfold is_directory_at. revert n n'; induction p as [|s p IH]; intros n n' W.
  - destruct n; try discriminate; reflexivity.
  - destruct (write_node_Dir _ _ _ _ _ W) as (r & es & es' & -> & -> & U).
    cbn [statSync].
    pose proof (update_entries_same _ _ _ _ _ U) as Same.
    destruct (find_entry s es) as [c|]; [|reflexivity].
    destruct Same as (c' & Wc & _). now apply (IH c c').
Qed.

Lemma update_entries_Ok (write_child : node -> result node) (s : string)
      (created : result (list (string * node))) (es : list (string * node)) :
  match find_entry s es with
  | Some c => write_child c <> Throw
  | None => created <> Throw
  end ->
  update_entries write_child s created es <> Throw.
Proof.
  induction es as [|[name c] es IH]; [auto|].
  cbn [find_entry update_entries]. destruct (String.eqb_spec name s) as [->|Ne].
  - intros H. destruct (write_child c); [discriminate | contradiction].
  - intros H. specialize (IH H).
    destruct (update_entries write_child s created es); [discriminate | contradiction].
Qed.

(** A file can be written into an existing directory under a name that is
    not a directory's. *)
Lemma write_succeeds (p : path) (name : string) (n m f : node) :
  statSync n p = Ok m -> isDirectory m = true ->
  is_directory_at n (resolve p name) = false ->
  write_node n (resolve p name) f <> Throw.
Proof.
  unfold resolve, is_directory_at.
  revert n; induction p as [|s p IH]; intros n S D Nd.
  - apply statSync_nil_Ok in S as [-> _]. destruct n as [| r es |]; try discriminate.
    cbn [app]. rewrite write_node_cons.
    assert (U : update_entries (fun c => write_node c [] f) name (Ok [(name, f)]) es
                <> Throw).
    { apply update_entries_Ok. cbn [app statSync] in Nd.
      destruct (find_entry name es) as [c|]; [|discriminate].
      destruct c; try discriminate. }
    destruct (update_entries _ name _ es); [discriminate | contradiction].
  - destruct n as [| r es |]; try discriminate.
    cbn [app statSync] in *. rewrite write_node_cons.
    destruct (find_entry s es) as [c|] eqn:F; [|discriminate].
    assert (U : update_entries (fun c => write_node c (p ++ [name])%list f) s
                               (match (p ++ [name])%list with
                                | [] => Ok [(s, f)]
                                | _ => Throw
                                end) es <> Throw).
    { apply update_entries_Ok. rewrite F. now apply IH. }
    destruct (update_entries _ s _ es); [discriminate | contradiction].
Qed.

Lemma is_generated_reserved (g : string) :
  is_generated g = true -> includes ignoreFiles g = true.
Proof.
  unfold is_generated. intros H. apply orb_true_iff in H as [H|H];
    apply String.eqb_eq in H; subst; reflexivity.
Qed.

Lemma last_segment (p0 p rest : path) (g0 : string) :
  resolve p0 g0 = (p ++ rest)%list -> rest <> [] ->
  exists rest0, rest = resolve rest0 g0.
Proof.
  intros E Nr. destruct (exists_last Nr) as (rest0 & g & ->).
  exists rest0. unfold resolve in *. rewrite app_assoc in E.
  apply app_inj_tail in E as [_ ->]. reflexivity.
Qed.

(** A directory ready before a page is written is ready afterwards. *)
Lemma ready_after_write (disk disk' : node) (p0 : path) (g0 data : string) (p : path) :
  is_generated g0 = true ->
  write_node disk (resolve p0 g0) (file_of data) = Ok disk' ->
  ready disk p -> ready disk' p.
Proof.
  intros G W [(m & S & D & Sc) Gen]. split.
  - destruct (on_the_way_dec p (resolve p0 g0)) as [(rest & E)|N].
    + destruct rest as [|t rest].
      * rewrite app_nil_r in E. subst p.
        pose proof (write_target_not_directory _ _ _ _ W) as Nd.
        unfold is_directory_at in Nd. rewrite S, D in Nd. discriminate.
      * rewrite E in W.
        destruct (write_decomposes p (t :: rest) disk disk' m (file_of data) S)
          as (m' & Wm & S' & D'); [discriminate | exact W |].
        exists m'. repeat split; auto.
        destruct (last_segment p0 p (t :: rest) g0 E) as (rest0 & Er); [discriminate|].
        rewrite Er in Wm.
        apply (write_reserved_unseen _ _ _ _ _ (is_generated_reserved _ G)) in Wm.
        now rewrite <- scan_node_without_reserved, Wm, scan_node_without_reserved.
    + exists m. repeat split; auto.
      rewrite (write_frame _ _ _ _ p W); [exact S | reflexivity | exact N].
  - intros g Hg. specialize (Gen g Hg). unfold is_directory_at in *.
    destruct (on_the_way_dec (resolve p g) (resolve p0 g0)) as [(rest & E)|N].
    + destruct rest as [|t rest].
      * rewrite app_nil_r in E. rewrite <- E.
        now rewrite (write_overwrites _ _ _ _ W).
      * rewrite E in W.
        destruct (write_through_directories (resolve p g) (t :: rest) disk disk'
                                            (file_of data))
          as (x & Sx & Dx); [discriminate | exact W |].
        rewrite Sx, Dx in Gen. discriminate.
    + rewrite (write_frame _ _ _ _ (resolve p g) W); [exact Gen | reflexivity | exact N].
Qed.

Lemma ends_bind {A B} (m : M A) (k : A -> M B) (w : world) (Q : B -> world -> Prop) :
  ends_normally m w (fun a w1 => ends_normally (k a) w1 Q) ->
  ends_normally (bindM m k) w Q.
Proof.
  intros (w1 & a & E & w' & b & E' & HQ). exists w', b. unfold bindM.
  now rewrite E.
Qed.

Lemma ends_ret {A} (a : A) (w : world) (Q : A -> world -> Prop) :
  Q a w -> ends_normally (ret a) w Q.
Proof. intros H. now exists w, a. Qed.

Lemma ends_console_log (message : string) (w : world) (Q : unit -> world -> Prop) :
  (forall w', disk w' = disk w -> Q tt w') ->
  ends_normally (console_log message) w Q.
Proof. intros H. eexists _, tt. split; [reflexivity|]. now apply H. Qed.

Lemma ends_reading {A} (f : node -> result A) (w : world) (Q : A -> world -> Prop) :
  (exists a, f (disk w) = Ok a /\ Q a w) -> ends_normally (reading f) w Q.
Proof. intros (a & E & H). exists w, a. unfold reading. now rewrite E. Qed.

Lemma ends_writeFileSync (dir : path) (g data : string) (w : world)
      (Q : unit -> world -> Prop) :
  is_generated g = true -> ready (disk w) dir ->
  (forall w', keeps_ready w w' -> Q tt w') ->
  ends_normally (writeFileSync (resolve dir g) data) w Q.
Proof.
  intros G R H. unfold ends_normally, writeFileSync.
  destruct R as [(m & S & D & _) Gen].
  pose proof (write_succeeds dir g (disk w) m (file_of data) S D (Gen g G)) as W.
  destruct (write_node (disk w) (resolve dir g) (file_of data)) as [fs'|] eqn:E;
    [|contradiction].
  eexists _, tt. split; [reflexivity|]. apply H.
  intros p Rp. cbn [disk]. now apply (ready_after_write (disk w) fs' dir g data p G E).
Qed.

Lemma Forall_flat_map {A B} (P : B -> Prop) (f : A -> list B) (l : list A) :
  Forall P (flat_map f l) <-> Forall (fun x => Forall P (f x)) l.
Proof.
  induction l as [|x l IH]; cbn [flat_map].
  - split; constructor.
  - rewrite Forall_app, IH. split.
    + intros [H1 H2]. now constructor.
    + intros H. inversion H; subst. auto.
Qed.

Lemma all_ready_DirNode (fs : node) (name : string) (p : path) (depth : N)
      (children : list item) :
  all_ready fs (DirNode name p depth children)
  <-> ready fs p /\ Forall (all_ready fs) children.
Proof.
  unfold all_ready. cbn [visited]. rewrite Forall_cons_iff, Forall_flat_map.
  reflexivity.
Qed.

Lemma all_ready_kept (w w' : world) (structure : item) :
  keeps_ready w w' -> all_ready (disk w) structure -> all_ready (disk w') structure.
Proof.
  intros K. unfold all_ready. apply Forall_impl. intros d. apply K.
Qed.

(** The loop over the children ends normally when each child's walk
    does. *)
Lemma ends_children (generate : item -> M unit) (children : list item) :
  Forall (fun c => is_directory c = true ->
                   forall w, all_ready (disk w) c ->
                             ends_normally (generate c) w (fun _ w' => keeps_ready w w'))
         children ->
  forall w, Forall (all_ready (disk w)) children ->
            ends_normally
              ((fix forEach (items : list item) : M unit :=
                  match items with
                  | [] => ret tt
                  | item :: rest =>
                      bindM (if is_directory item then generate item else ret tt)
                            (fun _ => forEach rest)
                  end) children)
              w (fun _ w' => keeps_ready w w').
Proof.
  induction 1 as [|c l Hc _ IH]; intros w R.
  - apply ends_ret. now intros p.
  - inversion R as [|? ? Rc Rl]; subst. apply ends_bind.
    assert (Step : ends_normally (if is_directory c then generate c else ret tt) w
                                 (fun _ w1 => keeps_ready w w1)).
    { destruct (is_directory c) eqn:D.
      - now apply Hc.
      - apply ends_ret. now intros p. }
    destruct Step as (w1 & [] & E & K1). exists w1, tt. split; [exact E|].
    destruct (IH w1) as (w' & [] & E' & K').
    + eapply Forall_impl; [|exact Rl]. intros d. now apply all_ready_kept.
    + exists w', tt. split; [exact E'|]. intros p Rp. apply K', K1, Rp.
Qed.

Lemma ready_scannable (fs : node) (p : path) :
  ready fs p -> getDirectoryStructure fs p 0 <> Throw.
Proof.
  intros [(m & S & _ & Sc) _]. unfold getDirectoryStructure, existsSync.
  now rewrite S.
Qed.

Lemma for_each_page_not_Throw (body : item -> result page) (l : list item) :
  (forall dir, In dir l -> body dir <> Throw) -> for_each_page body l <> Throw.
Proof.
  induction l as [|dir l IH]; intros H; [discriminate|].
  cbn [for_each_page].
  destruct (body dir) eqn:B; [|exfalso; now apply (H dir (or_introl eq_refl))].
  cbn [bind]. destruct (for_each_page body l) eqn:F; [discriminate|].
  exfalso. apply IH; [|reflexivity]. intros d I. apply H. now right.
Qed.

Lemma children_scannable (fs : node) (structure : item) :
  all_ready fs structure ->
  forall dir, In dir (filter is_directory (item_children structure)) ->
              getDirectoryStructure fs (item_path dir) 0 <> Throw.
Proof.
  intros R dir I. apply filter_In in I as [I D].
  destruct structure as [| name p depth children]; [contradiction|].
  apply all_ready_DirNode in R as [_ R]. rewrite Forall_forall in R.
  specialize (R dir I). destruct dir; [discriminate|].
  apply all_ready_DirNode in R as [R _]. now apply ready_scannable.
Qed.

Lemma Usage_readme_ends (specifiedPath : string) (fs : node) (structure : item)
      (basePath : path) (isRoot : bool) :
  all_ready fs structure ->
  exists pg, Usage.readme_of specifiedPath fs structure basePath isRoot = Ok pg.
Proof.
  intros R. unfold Usage.readme_of.
  destruct isRoot; [eauto|].
  destruct (item_name structure =? specifiedPath)%string.
  - unfold Usage.generateSpecifiedPathReadmeContent.
    destruct (for_each_page (Usage.subtable fs basePath)
                            (filter is_directory (item_children structure))) eqn:F;
      [cbn [bind]; eauto|].
    exfalso. revert F. apply for_each_page_not_Throw. intros dir I.
    pose proof (children_scannable fs structure R dir I) as Sc.
    unfold Usage.subtable.
    destruct (getDirectoryStructure fs (item_path dir) 0); [discriminate | contradiction].
  - destruct (existsb is_directory (item_children structure)); eauto.
Qed.

Lemma Final_readme_ends (specifiedPath : string) (fs : node) (structure : item)
      (basePath : path) (isRoot : bool) :
  all_ready fs structure ->
  exists pg, Final.readme_of specifiedPath fs structure basePath isRoot = Ok pg.
Proof.
  intros R. unfold Final.readme_of.
  destruct isRoot; [eauto|].
  destruct (item_name structure =? specifiedPath)%string; [|eauto].
  unfold Final.generateSpecifiedPathReadmeContent.
  destruct (for_each_page (Final.subtable fs basePath)
                          (filter is_directory (item_children structure))) eqn:F;
    [cbn [bind]; eauto|].
  exfalso. revert F. apply for_each_page_not_Throw. intros dir I.
  pose proof (children_scannable fs structure R dir I) as Sc.
  unfold Final.subtable.
  destruct (getDirectoryStructure fs (item_path dir) 0); [discriminate | contradiction].
Qed.

Lemma generated_README : is_generated "README.md" = true.
Proof. reflexivity. Qed.

Lemma generated_sidebar : is_generated "_sidebar.md" = true.
Proof. reflexivity. Qed.

(** Over ready directories the walk of the richer script ends normally. *)
Lemma Usage_generateDocs_ends (specifiedPath : string) (basePath : path)
      (structure : item) :
  is_directory structure = true ->
  forall isRoot w,
    all_ready (disk w) structure ->
    ends_normally (Usage.generateDocs specifiedPath structure basePath isRoot) w
                  (fun _ w' => keeps_ready w w').
Proof.
  induction structure as [| name p depth children IH] using item_ind;
    [discriminate|].
  intros _ isRoot w R. cbn [Usage.generateDocs].
  pose proof R as R0. apply all_ready_DirNode in R0 as [Rp Rc].
  apply ends_bind, ends_console_log. intros w1 D1.
  apply ends_bind, ends_reading.
  destruct (Usage_readme_ends specifiedPath (disk w1) (DirNode name p depth children)
                              basePath isRoot) as (pg & E);
    [now rewrite D1|].
  exists pg. split; [exact E|].
  apply ends_bind, (ends_writeFileSync p "README.md"); [reflexivity | now rewrite D1 |].
  intros w2 K2.
  apply ends_bind, ends_console_log. intros w3 D3.
  apply ends_bind, ends_console_log. intros w4 D4.
  assert (K4 : keeps_ready w w4).
  { intros q Rq. rewrite D4, D3. apply K2. now rewrite D1. }
  apply ends_bind, (ends_writeFileSync p "_sidebar.md"); [reflexivity | now apply K4 |].
  intros w5 K5.
  apply ends_bind, ends_console_log. intros w6 D6.
  assert (K6 : keeps_ready w w6).
  { intros q Rq. rewrite D6. apply K5, K4, Rq. }
  destruct (ends_children (fun c => Usage.generateDocs specifiedPath c basePath false)
                          children) with (w := w6) as (w' & [] & E' & K').
  - eapply Forall_impl; [|exact IH]. intros c Hc Dc w0. now apply Hc.
  - eapply Forall_impl; [|exact Rc]. intros c. now apply all_ready_kept.
  - exists w', tt. split; [exact E'|]. intros q Rq. apply K', K6, Rq.
Qed.

(** And so does the walk of [generate-docs-final.js]. *)
Lemma Final_generateDocs_ends (specifiedPath : string) (basePath : path)
      (structure : item) :
  is_directory structure = true ->
  forall isRoot w,
    all_ready (disk w) structure ->
    ends_normally (Final.generateDocs specifiedPath structure basePath isRoot) w
                  (fun _ w' => keeps_ready w w').
Proof.
  induction structure as [| name p depth children IH] using item_ind;
    [discriminate|].
  intros _ isRoot w R. cbn [Final.generateDocs].
  pose proof R as R0. apply all_ready_DirNode in R0 as [Rp Rc].
  apply ends_bind, ends_console_log. intros w1 D1.
  apply ends_bind, ends_reading.
  destruct (Final_readme_ends specifiedPath (disk w1) (DirNode name p depth children)
                              basePath isRoot) as (pg & E);
    [now rewrite D1|].
  exists pg. split; [exact E|].
  apply ends_bind, (ends_writeFileSync p "README.md"); [reflexivity | now rewrite D1 |].
  intros w2 K2.
  apply ends_bind, ends_console_log. intros w3 D3.
  assert (K3 : keeps_ready w w3).
  { intros q Rq. rewrite D3. apply K2. now rewrite D1. }
  apply ends_bind.
  assert (Side : ends_normally
                   (if negb (name =? specifiedPath)%string
                    then bindM (console_log ("Generating sidebar for: " ++ path_string p))
                               (fun _ =>
                                  bindM (writeFileSync
                                           (resolve p "_sidebar.md")
                                           (render (Final.sidebar_of
                                                      specifiedPath
                                                      (DirNode name p depth children)
                                                      basePath isRoot)))
                                        (fun _ =>
                                           console_log ("Created: "
                                                        ++ path_string
                                                             (resolve p "_sidebar.md"))))
                    else ret tt)
                   w3 (fun _ w' => keeps_ready w w')).
  { destruct (negb (name =? specifiedPath)%string).
    - apply ends_bind, ends_console_log. intros w4 D4.
      apply ends_bind, (ends_writeFileSync p "_sidebar.md");
        [reflexivity | rewrite D4; now apply K3 |].
      intros w5 K5. apply ends_console_log. intros w6 D6.
      intros q Rq. rewrite D6. apply K5. rewrite D4. now apply K3.
    - apply ends_ret. exact K3. }
  destruct Side as (w6 & [] & E6 & K6). exists w6, tt. split; [exact E6|].
  destruct (ends_children (fun c => Final.generateDocs specifiedPath c basePath false)
                          children) with (w := w6) as (w' & [] & E' & K').
  - eapply Forall_impl; [|exact IH]. intros c Hc Dc w0. now apply Hc.
  - eapply Forall_impl; [|exact Rc]. intros c. now apply all_ready_kept.
  - exists w', tt. split; [exact E'|]. intros q Rq. apply K', K6, Rq.
Qed.

(** Whether a scan raises depends on the entry alone, not on where or how
    deep it is taken to be. *)
Lemma scan_dirs_anywhere (dir dir' : path) (depth depth' : N)
      (es : list (string * node)) :
  Forall (fun e => forall dir depth dir' depth',
              scan_node dir depth (snd e) <> Throw ->
              scan_node dir' depth' (snd e) <> Throw) es ->
  scan_dirs scan_node dir depth es <> Throw ->
  scan_dirs scan_node dir' depth' es <> Throw.
Proof.
  induction 1 as [|[file c] es H _ IH]; [auto|].
  cbn [scan_dirs snd] in *. destruct (includes ignoreFiles file); [exact IH|].
  destruct c; try exact IH.
  intros S.
  destruct (scan_node (resolve dir file) (depth + 1) (Dir readable entries)) eqn:E;
    [|contradiction].
  cbn [bind] in S.
  destruct (scan_dirs scan_node dir depth es) eqn:E'; [|contradiction].
  assert (H1 : scan_node (resolve dir' file) (depth' + 1) (Dir readable entries) <> Throw).
  { apply (H (resolve dir file) (depth + 1)). now rewrite E. }
  assert (H2 : scan_dirs scan_node dir' depth' es <> Throw) by (apply IH; discriminate).
  destruct (scan_node (resolve dir' file) (depth' + 1) (Dir readable entries));
    [|contradiction].
  cbn [bind]. destruct (scan_dirs scan_node dir' depth' es); [discriminate|contradiction].
Qed.

Lemma scan_node_anywhere (n : node) (dir : path) (depth : N) (dir' : path) (depth' : N) :
  scan_node dir depth n <> Throw -> scan_node dir' depth' n <> Throw.
Proof.
  revert dir depth dir' depth'.
  induction n as [| r es IH |] using node_ind; intros dir depth dir' depth'; auto.
  destruct r; [|auto]. rewrite !scan_node_Dir.
  destruct (partition_files es); [|auto]. cbn [bind]. intros S.
  assert (H : scan_dirs scan_node dir' depth' es <> Throw).
  { apply (scan_dirs_anywhere dir dir' depth depth' es IH).
    destruct (scan_dirs scan_node dir depth es); [discriminate | contradiction]. }
  destruct (scan_dirs scan_node dir' depth' es); [discriminate | contradiction].
Qed.

(** After a scan without exception, in a file system where no directory
    bears the name of a generated page, every directory of the scanned
    tree is ready. *)
Lemma scanned_all_ready (fs : node) :
  unique_names fs -> no_generated_directory fs ->
  forall n dir depth structure,
    statSync fs dir = Ok n -> scan_node dir depth n = Ok structure ->
    all_ready fs structure.
Proof.
  intros U G n.
  induction n as [| r es IH |] using node_ind; intros dir depth structure St Sc;
    try discriminate.
  destruct (scan_node_Ok dir depth _ structure Sc)
    as (es0 & files & directories & E & -> & D & ->).
  inversion E; subst r es0. clear E.
  pose proof (unique_names_stat fs dir _ U St) as Un.
  apply unique_names_Dir in Un as [ND _].
  apply all_ready_DirNode. split.
  - split.
    + exists (Dir true es). repeat split; auto.
      apply (scan_node_anywhere _ dir depth). now rewrite Sc.
    + intros g Hg. now apply G.
  - apply Forall_app. split.
    + apply Forall_forall. intros c I. apply in_map_iff in I as ([file e] & <- & _).
      constructor.
    + apply Forall_forall. intros c I. apply sort_by_In in I.
      destruct (Forall2_In_r _ _ _ c (scan_dirs_Ok dir depth es directories D) I)
        as ([file e] & Ie & S).
      apply filter_In in Ie as [Ie K]. cbn [fst snd] in S.
      rewrite Forall_forall in IH.
      apply (IH (file, e) Ie (resolve dir file) (depth + 1)); [|exact S].
      apply (stat_listed_Ok fs dir true es file e St ND Ie).
      unfold is_subdirectory_entry in K. cbn [snd] in K. intros ->.
      now rewrite andb_false_r in K.
Qed.

(** A run over a tree that can be scanned, in a file system where no
    directory bears the name of a generated page, ends normally; the
    richer script then has written the two pages of every directory, the
    other one all of them but the sidebars of the designated collection. *)
Lemma runs_end_normally (specifiedPath : string) (fs : node) (targetDir : path)
      (structure : item) :
  unique_names fs -> no_generated_directory fs ->
  existsSync fs targetDir = true ->
  getDirectoryStructure fs targetDir 0 = Ok structure ->
  (snd (Usage.main specifiedPath targetDir (start fs)) = Completed
   /\ written (trace (fst (Usage.main specifiedPath targetDir (start fs))))
      = two_files_each structure)
  /\ (snd (Final.main specifiedPath targetDir (start fs)) = Completed
      /\ written (trace (fst (Final.main specifiedPath targetDir (start fs))))
         = files_of_final specifiedPath structure).
Proof.
  intros U G Ex Sc.
  assert (R : all_ready fs structure /\ is_directory structure = true).
  { unfold getDirectoryStructure in Sc. rewrite Ex in Sc. cbn [negb] in Sc.
    destruct (statSync fs targetDir) as [n|] eqn:St; [|discriminate].
    cbn [bind] in Sc. split.
    - now apply (scanned_all_ready fs U G n targetDir 0).
    - now destruct (scan_children _ _ _ _ Sc) as (? & ? & _ & _ & _ & _ & D & _). }
  destruct R as [R D].
  set (w1 := {| disk := fs;
                trace := [ConsoleLog ("Starting to generate docs from: "
                                      ++ path_string targetDir)] |}).
  split.
  - destruct (Usage_generateDocs_ends specifiedPath targetDir structure D true w1 R)
      as (w' & [] & E & _).
    destruct (writes_Usage specifiedPath targetDir structure true w1 w' (Ok tt) E)
      as (new & T & _ & W).
    unfold Usage.main, console_log, emit, start. cbn [disk trace app].
    rewrite Ex. cbn [negb]. unfold bindM, reading. cbn [disk]. rewrite Sc.
    fold w1. rewrite E. unfold emit. cbn [snd fst trace].
    split; [reflexivity|].
    rewrite written_app, T, written_app, W by discriminate.
    cbn. now rewrite app_nil_r.
  - destruct (Final_generateDocs_ends specifiedPath targetDir structure D true w1 R)
      as (w' & [] & E & _).
    destruct (writes_Final specifiedPath targetDir structure true w1 w' (Ok tt) E)
      as (new & T & _ & W).
    unfold Final.main, console_log, emit, start. cbn [disk trace app].
    rewrite Ex. cbn [negb]. unfold bindM, reading. cbn [disk]. rewrite Sc.
    fold w1. rewrite E. unfold emit. cbn [snd fst trace].
    split; [reflexivity|].
    rewrite written_app, T, written_app, W by discriminate.
    cbn. now rewrite app_nil_r.
Qed.

Lemma plain_no_generated_directory (fs : node) :
  plain fs = true -> no_generated_directory fs.
Proof.
  intros P p g G. unfold is_directory_at, resolve.
  revert fs P; induction p as [|s p IH]; intros fs P.
  - destruct fs as [| r es |]; try reflexivity.
    cbn [app statSync]. destruct (find_entry g es) as [c|] eqn:F; [|reflexivity].
    apply find_entry_In in F. cbn [plain] in P. rewrite forallb_forall in P.
    specialize (P _ F). cbn [fst snd] in P. rewrite G in P.
    destruct c; try reflexivity. discriminate.
  - destruct fs as [| r es |]; try reflexivity.
    cbn [app statSync]. destruct (find_entry s es) as [c|] eqn:F; [|reflexivity].
    apply find_entry_In in F. cbn [plain] in P. rewrite forallb_forall in P.
    specialize (P _ F). cbn [fst snd] in P. apply andb_true_iff in P as [_ P].
    now apply IH.
Qed.

Lemma scenario_unique_names : unique_names scenario_fs.
Proof.
  simpl. repeat split; repeat constructor; simpl; intuition discriminate.
Qed.

(** ** The emitter over any writer *)

Lemma writes_Platform_writeFileSync (write : writer) (file : path) (data : string) :
  writes (Platform.writeFileSync write file data) [file].
Proof.
  intros w w' r. unfold Platform.writeFileSync.
  destruct (write (disk w) file data) as [fs' [u|]]; intros H; inversion H; subst.
  - exists [WriteFile file data]. repeat split. now exists [].
  - exists []. cbn [trace]. rewrite app_nil_r.
    repeat split; [now exists [file] | congruence].
Qed.

Lemma writes_Platform_Usage (write : writer) (specifiedPath : string) (basePath : path)
      (structure : item) (isRoot : bool) :
  writes (Platform.Usage.generateDocs write specifiedPath structure basePath isRoot)
         (two_files_each structure).
Proof.
  revert isRoot.
  induction structure as [| name p depth children IH] using item_ind; intros isRoot.
  - apply writes_throw.
  - rewrite two_files_each_DirNode. cbn [Platform.Usage.generateDocs].
    eapply writes_bind; [apply writes_console_log | intros _ | reflexivity].
    eapply writes_bind; [apply writes_reading | intros readmeContent | reflexivity].
    eapply writes_bind; [apply writes_Platform_writeFileSync | intros _ | reflexivity].
    eapply writes_bind; [apply writes_console_log | intros _ | reflexivity].
    eapply writes_bind; [apply writes_console_log | intros _ | reflexivity].
    eapply writes_bind; [apply writes_Platform_writeFileSync | intros _ | reflexivity].
    eapply writes_bind; [apply writes_console_log | intros _ | reflexivity].
    apply (writes_children
             (fun c => Platform.Usage.generateDocs write specifiedPath c basePath false)).
    + eapply Forall_impl; [|exact IH]. intros c Hc. apply Hc.
    + intros [] D; [reflexivity | discriminate].
Qed.

Lemma writes_Platform_Final (write : writer) (specifiedPath : string) (basePath : path)
      (structure : item) (isRoot : bool) :
  writes (Platform.Final.generateDocs write specifiedPath structure basePath isRoot)
         (files_of_final specifiedPath structure).
Proof.
  revert isRoot.
  induction structure as [| name p depth children IH] using item_ind; intros isRoot.
  - apply writes_throw.
  - rewrite files_of_final_DirNode. cbn [Platform.Final.generateDocs].
    eapply writes_bind; [apply writes_console_log | intros _ | reflexivity].
    eapply writes_bind; [apply writes_reading | intros readmeContent | reflexivity].
    eapply writes_bind; [apply writes_Platform_writeFileSync | intros _ | reflexivity].
    eapply writes_bind; [apply writes_console_log | intros _ | reflexivity].
    eapply writes_bind; [| intros _ | reflexivity].
    + destruct (negb (name =? specifiedPath)%string).
      * eapply writes_bind; [apply writes_console_log | intros _ | reflexivity].
        eapply writes_bind; [apply writes_Platform_writeFileSync | intros _ | reflexivity].
        apply writes_console_log.
      * apply writes_ret.
    + apply (writes_children
               (fun c => Platform.Final.generateDocs write specifiedPath c basePath false)).
      * eapply Forall_impl; [|exact IH]. intros c Hc. apply Hc.
      * intros [] D; [reflexivity | discriminate].
Qed.

(** With the writer of an ordinary disk the emitter is the script above. *)

Lemma bindM_ext {A B} (m m' : M A) (k k' : A -> M B) (w : world) :
  m w = m' w -> (forall a w1, k a w1 = k' a w1) -> bindM m k w = bindM m' k' w.
Proof.
  intros Hm Hk. unfold bindM. rewrite Hm.
  destruct (m' w) as [w1 [a|]]; [apply Hk | reflexivity].
Qed.

Lemma children_ext (generate generate' : item -> M unit) (children : list item) :
  Forall (fun c => forall w, generate c w = generate' c w) children ->
  forall w,
    (fix forEach (items : list item) : M unit :=
       match items with
       | [] => ret tt
       | item :: rest =>
           bindM (if is_directory item then generate item else ret tt)
                 (fun _ => forEach rest)
       end) children w
    = (fix forEach (items : list item) : M unit :=
         match items with
         | [] => ret tt
         | item :: rest =>
             bindM (if is_directory item then generate' item else ret tt)
                   (fun _ => forEach rest)
         end) children w.
Proof.
  intros H. induction H as [|c l Hc _ IH]; intros w; [reflexivity|].
  apply bindM_ext; [|intros _ w1; apply IH].
  destruct (is_directory c); [apply Hc | reflexivity].
Qed.

Lemma in_place_writeFileSync (file : path) (data : string) (w : world) :
  Platform.writeFileSync in_place file data w = writeFileSync file data w.
Proof.
  unfold Platform.writeFileSync, writeFileSync, in_place.
  destruct (write_node (disk w) file (file_of data)); [reflexivity|].
  now destruct w.
Qed.

Lemma ordinary_writeFileSync (write : writer) (dir : path) (g data : string)
      (w : world) :
  pages_as_ordinary write -> is_generated g = true ->
  Platform.writeFileSync write (resolve dir g) data w
  = writeFileSync (resolve dir g) data w.
Proof.
  intros O G. rewrite <- in_place_writeFileSync.
  unfold Platform.writeFileSync. now rewrite (O (disk w) dir g data G).
Qed.

Lemma ordinary_Usage_generateDocs (write : writer) (specifiedPath : string)
      (basePath : path) (structure : item) :
  pages_as_ordinary write ->
  forall isRoot w,
    Platform.Usage.generateDocs write specifiedPath structure basePath isRoot w
    = Usage.generateDocs specifiedPath structure basePath isRoot w.
Proof.
  intros O.
  induction structure as [| name p depth children IH] using item_ind; intros isRoot w;
    [reflexivity|].
  cbn [Platform.Usage.generateDocs Usage.generateDocs].
  apply bindM_ext; [reflexivity | intros _ w1].
  apply bindM_ext; [reflexivity | intros readmeContent w2].
  apply bindM_ext; [now apply ordinary_writeFileSync | intros _ w3].
  apply bindM_ext; [reflexivity | intros _ w4].
  apply bindM_ext; [reflexivity | intros _ w5].
  apply bindM_ext; [now apply ordinary_writeFileSync | intros _ w6].
  apply bindM_ext; [reflexivity | intros _ w7].
  apply (children_ext
           (fun c => Platform.Usage.generateDocs write specifiedPath c basePath false)
           (fun c => Usage.generateDocs specifiedPath c basePath false)).
  eapply Forall_impl; [|exact IH]. intros c Hc. apply Hc.
Qed.

Lemma ordinary_Final_generateDocs (write : writer) (specifiedPath : string)
      (basePath : path) (structure : item) :
  pages_as_ordinary write ->
  forall isRoot w,
    Platform.Final.generateDocs write specifiedPath structure basePath isRoot w
    = Final.generateDocs specifiedPath structure basePath isRoot w.
Proof.
  intros O.
  induction structure as [| name p depth children IH] using item_ind; intros isRoot w;
    [reflexivity|].
  cbn [Platform.Final.generateDocs Final.generateDocs].
  apply bindM_ext; [reflexivity | intros _ w1].
  apply bindM_ext; [reflexivity | intros readmeContent w2].
  apply bindM_ext; [now apply ordinary_writeFileSync | intros _ w3].
  apply bindM_ext; [reflexivity | intros _ w4].
  apply bindM_ext.
  - destruct (negb (name =? specifiedPath)%string); [|reflexivity].
    apply bindM_ext; [reflexivity | intros _ w5].
    apply bindM_ext; [now apply ordinary_writeFileSync | reflexivity].
  - intros _ w5.
    apply (children_ext
             (fun c => Platform.Final.generateDocs write specifiedPath c basePath false)
             (fun c => Final.generateDocs specifiedPath c basePath false)).
    eapply Forall_impl; [|exact IH]. intros c Hc. apply Hc.
Qed.

Lemma ordinary_Usage_main (write : writer) (specifiedPath : string) (targetDir : path)
      (w : world) :
  pages_as_ordinary write ->
  Platform.Usage.main write specifiedPath targetDir w
  = Usage.main specifiedPath targetDir w.
Proof.
  intros O. unfold Platform.Usage.main, Usage.main.
  destruct (console_log ("Starting to generate docs from: " ++ path_string targetDir) w)
    as [w1 u].
  destruct (negb (existsSync (disk w1) targetDir)); [reflexivity|].
  match goal with
  | |- match ?X with _ => _ end = match ?Y with _ => _ end =>
      replace X with Y; [reflexivity|]
  end.
  symmetry. apply bindM_ext; [reflexivity | intros structure w2].
  apply bindM_ext; [now apply ordinary_Usage_generateDocs | reflexivity].
Qed.

Lemma ordinary_Final_main (write : writer) (specifiedPath : string) (targetDir : path)
      (w : world) :
  pages_as_ordinary write ->
  Platform.Final.main write specifiedPath targetDir w
  = Final.main specifiedPath targetDir w.
Proof.
  intros O. unfold Platform.Final.main, Final.main.
  destruct (console_log ("Starting to generate docs from: " ++ path_string targetDir) w)
    as [w1 u].
  destruct (negb (existsSync (disk w1) targetDir)); [reflexivity|].
  match goal with
  | |- match ?X with _ => _ end = match ?Y with _ => _ end =>
      replace X with Y; [reflexivity|]
  end.
  symmetry. apply bindM_ext; [reflexivity | intros structure w2].
  apply bindM_ext; [now apply ordinary_Final_generateDocs | reflexivity].
Qed.

Lemma in_place_as_ordinary : pages_as_ordinary in_place.
Proof. intros fs dir g data _. reflexivity. Qed.

(** C7, amended: whatever the platform's write does, the emitter calls it
    for the index page first and for the sidebar second in every directory
    it visits, in the order of the visit, and for nothing else (no copy of
    what was there is written): a run that ends normally has written the
    whole sequence, a run cut short by an exception a leading part of it.
    The script of [USAGE_EXAMPLE.md] writes both files for every directory
    visited; [generate-docs-final.js] writes no sidebar for a directory
    named as the designated collection.  Where the pages are written as to
    ordinary entries and no write is refused, a run over a tree that can be
    scanned, in a file system where no directory bears the name of a page,
    ends normally having written the whole sequence. *)
Theorem emitter_writes_index_then_sidebar
        (write : writer) (specifiedPath : string) (structure : item) (basePath : path)
        (isRoot : bool) :
  writes (Platform.Usage.generateDocs write specifiedPath structure basePath isRoot)
         (two_files_each structure)
  /\ writes (Platform.Final.generateDocs write specifiedPath structure basePath isRoot)
            (files_of_final specifiedPath structure)
  /\ (forall fs targetDir,
         pages_as_ordinary write ->
         unique_names fs -> no_generated_directory fs ->
         existsSync fs targetDir = true ->
         getDirectoryStructure fs targetDir 0 = Ok structure ->
         (snd (Platform.Usage.main write specifiedPath targetDir (start fs)) = Completed
          /\ written (trace (fst (Platform.Usage.main write specifiedPath targetDir
                                                       (start fs))))
             = two_files_each structure)
         /\ (snd (Platform.Final.main write specifiedPath targetDir (start fs))
             = Completed
             /\ written (trace (fst (Platform.Final.main write specifiedPath targetDir
                                                          (start fs))))
                = files_of_final specifiedPath structure)).
Proof.
  repeat apply conj.
  - apply writes_Platform_Usage.
  - apply writes_Platform_Final.
  - intros fs targetDir O U G Ex Sc.
    rewrite (ordinary_Usage_main write specifiedPath targetDir (start fs) O).
    rewrite (ordinary_Final_main write specifiedPath targetDir (start fs) O).
    now apply runs_end_normally.
Qed.

Lemma emitter_writes_index_then_sidebar_witness :
  snd (Platform.Usage.main in_place "C" ["r"] (start scenario_fs)) = Completed
  /\ written (trace (fst (Platform.Usage.main in_place "C" ["r"] (start scenario_fs))))
     = [["r"; "README.md"]; ["r"; "_sidebar.md"];
        ["r"; "C"; "README.md"]; ["r"; "C"; "_sidebar.md"];
        ["r"; "C"; "A"; "README.md"]; ["r"; "C"; "A"; "_sidebar.md"];
        ["r"; "C"; "B"; "README.md"]; ["r"; "C"; "B"; "_sidebar.md"];
        ["r"; "C"; "B"; "B1"; "README.md"]; ["r"; "C"; "B"; "B1"; "_sidebar.md"]].
Proof.
  destruct (emitter_writes_index_then_sidebar in_place "C" scenario_root ["r"] true)
    as (_ & _ & Run).
  destruct (Run scenario_fs ["r"]) as [U _].
  - exact in_place_as_ordinary.
  - exact scenario_unique_names.
  - apply plain_no_generated_directory. reflexivity.
  - reflexivity.
  - reflexivity.
  - exact U.
Defined.

(** * Further properties *)

(** ** The content-volume estimate *)

(** X1: for a file that can be read, the estimate is a third of the byte
    length of its text, rounded to the nearest integer: three times the
    estimate is within one byte of the length, and a text of [3 * k] bytes
    counts exactly [k]. *)
Theorem estimateWordCount_is_nearest_third
        (fs : node) (filePath : path) (bytes b : N) :
  statSync fs filePath = Ok (File bytes (Some b)) ->
  3 * estimateWordCount fs filePath <= b + 1
  /\ b <= 3 * estimateWordCount fs filePath + 1
  /\ (forall k, b = 3 * k -> estimateWordCount fs filePath = k).
Proof.
  intros S. unfold estimateWordCount. rewrite S.
  cbn [bind try_catch wordCount_node read_byteLength_node].
  pose proof (Math_round_div_nearest b 3 eq_refl) as R.
  repeat split; lia.
Qed.

Lemma estimateWordCount_is_nearest_third_witness :
  estimateWordCount scenario_fs ["r"; "C"; "A"; "a.md"] = 166 + 1
  /\ 3 * estimateWordCount scenario_fs ["r"; "C"; "A"; "a.md"] <= 500 + 1.
Proof.
  destruct (estimateWordCount_is_nearest_third
              scenario_fs ["r"; "C"; "A"; "a.md"] 500 500 eq_refl) as (L & _ & _).
  split; [reflexivity | exact L].
Defined.

(** ** Additivity of the other two aggregates *)

Section AggregateAdditive.
Variable fs : node.
Variable dir : path.
Variable es : list (string * node).
Hypothesis listed : statSync fs dir = Ok (Dir true es).
Hypothesis unique : NoDup (map fst es).
Hypothesis all_examinable : examinable es = true.

Lemma listed_entry (file : string) (c : node) :
  In (file, c) es -> statSync fs (resolve dir file) = Ok c.
Proof.
  intros I. apply (stat_listed_Ok fs dir true es file c listed unique I).
  rewrite examinable_In in all_examinable. exact (all_examinable (file, c) I).
Qed.

Variable onDirectory : node -> N.
Variable onFile : string -> node -> N.
Variable ofDirectory : path -> N.
Variable ofFile : path -> N.
Variable keep : string -> node -> bool.
Hypothesis directories_agree :
  forall file c, In (file, c) es -> isDirectory c = true ->
                 ofDirectory (resolve dir file) = onDirectory c.
Hypothesis files_agree :
  forall file c, In (file, c) es -> isDirectory c = false ->
                 onFile file c = if keep file c then ofFile (resolve dir file) else 0.

Lemma contributions_split :
  sum (map (contribution onDirectory onFile) es)
  = sum (map (fun e => if negb (isDirectory (snd e)) && keep (fst e) (snd e)
                       then ofFile (resolve dir (fst e)) else 0) es)
    + sum (map (fun e => if isDirectory (snd e)
                         then ofDirectory (resolve dir (fst e)) else 0) es).
Proof.
  rewrite <- sum_map_add. apply sum_map_ext. intros [file c] I.
  unfold contribution. cbn [fst snd].
  rewrite examinable_In in all_examinable. pose proof (all_examinable _ I) as Nd.
  destruct c; cbn [isDirectory negb andb snd] in *.
  - rewrite (files_agree file _ I eq_refl). lia.
  - now rewrite (directories_agree file _ I eq_refl).
  - contradiction.
Qed.

Lemma sub_directories_sum :
  sum (map ofDirectory (sub_directories fs dir))
  = sum (map (fun e => if isDirectory (snd e)
                       then ofDirectory (resolve dir (fst e)) else 0) es).
Proof.
  unfold sub_directories, readdirSync. rewrite listed. cbn [bind readdir_node].
  rewrite map_map, sum_map_filter_names. apply sum_map_ext. intros [file c] I.
  unfold is_directory_at. cbn [fst snd]. now rewrite (listed_entry file c I).
Qed.
End AggregateAdditive.

(** X2: the content volume and the byte size are recursively additive, as
    the document count is: when every listed entry of a directory can be
    examined, its content volume is the sum of the estimates of its direct
    documents and of the volumes of its sub-directories, and its byte size,
    when it stays below [2 ^ 53] so that the script's sums are exact, is
    the sum of the sizes of all its direct files, whatever their names, and
    of the sizes of its sub-directories. *)
Theorem volume_and_size_additivity (fs : node) (dir : path) :
  unique_names fs -> entries_examinable fs dir ->
  exact_bytes (size (getDirectorySize fs dir)) ->
  volume_additivity fs dir /\ size_additivity fs dir.
Proof.
  intros U X _. unfold volume_additivity, size_additivity.
  destruct (readdirSync fs dir) as [list|] eqn:R.
  - destruct (readdirSync_Ok fs dir list R) as (es & S & ->).
    pose proof (unique_names_stat fs dir _ U S) as Un.
    apply unique_names_Dir in Un as [ND _].
    assert (Ex : examinable es = true).
    { apply examinable_In. intros [file c] I E. cbn [snd] in E. subst c.
      pose proof (X _ file R (in_map fst _ _ I)) as Hx. unfold existsSync in Hx.
      rewrite (stat_listed fs dir true es file Dangling S ND I) in Hx. discriminate. }
    split.
    + unfold estimateDirectoryWordCount at 1. rewrite S. cbn [bind try_catch].
      rewrite wordCountDir_node_walk, try_walk, Ex.
      rewrite (contributions_split dir es Ex wordCountDir_node words_file
                 (estimateDirectoryWordCount fs) (estimateWordCount fs)
                 (fun file _ => isMarkdown file)).
      * rewrite <- (sub_directories_sum fs dir es S ND Ex). f_equal.
        rewrite sum_map_filter_names. apply sum_map_ext. intros [file c] I.
        unfold is_document_at. cbn [fst snd].
        now rewrite (listed_entry fs dir es S ND Ex file c I).
      * intros file c I D. unfold estimateDirectoryWordCount.
        now rewrite (listed_entry fs dir es S ND Ex file c I).
      * intros file c I D. unfold words_file.
        now rewrite (estimateWordCount_listed fs dir true es file c S ND I).
    + unfold getDirectorySize at 1. rewrite S. cbn [bind try_catch].
      rewrite size_format_size, directorySize_node_walk, try_walk, Ex.
      rewrite (contributions_split dir es Ex directorySize_node bytes_file
                 (fun p => size (getDirectorySize fs p))
                 (fun p => size (getFileSize fs p))
                 (fun _ _ => true)).
      * rewrite <- (sub_directories_sum fs dir es S ND Ex
                      (fun p => size (getDirectorySize fs p))).
        f_equal. rewrite sum_map_filter_names. apply sum_map_ext. intros [file c] I.
        unfold is_directory_at. cbn [fst snd].
        rewrite (listed_entry fs dir es S ND Ex file c I).
        now rewrite andb_true_r.
      * intros file c I D. unfold getDirectorySize.
        rewrite (listed_entry fs dir es S ND Ex file c I). cbn [bind try_catch].
        apply size_format_size.
      * intros file c I D. unfold bytes_file, getFileSize.
        rewrite (listed_entry fs dir es S ND Ex file c I). cbn [bind try_catch].
        symmetry. apply size_format_size.
  - unfold sub_directories. rewrite R. cbn [map sum fold_right].
    unfold estimateDirectoryWordCount, getDirectorySize.
    unfold readdirSync in R. destruct (statSync fs dir) as [n|]; [|split; reflexivity].
    cbn [bind try_catch] in *.
    destruct (aggregates_of_unlistable n R) as (_ & -> & ->). split; reflexivity.
Qed.

Lemma volume_and_size_additivity_witness :
  volume_additivity scenario_fs ["r"; "C"] /\ size_additivity notes_fs ["docs"].
Proof.
  split.
  - apply (volume_and_size_additivity scenario_fs ["r"; "C"]).
    + exact scenario_unique_names.
    + intros list file R I. vm_compute in R. inversion R; subst.
      simpl in I. destruct I as [<-|[<-|[]]]; reflexivity.
    + reflexivity.
  - apply (volume_and_size_additivity notes_fs ["docs"]).
    + simpl. repeat split; repeat constructor; simpl; intuition discriminate.
    + intros list file R I. vm_compute in R. inversion R; subst.
      simpl in I. destruct I as [<-|[<-|[]]]; reflexivity.
    + reflexivity.
Defined.

(** ** Document names *)

Lemma substring_length (s : string) (n m : nat) :
  String.length (substring n m s) = Nat.min m (Nat.sub (String.length s) n).
Proof.
  revert n m; induction s as [|c s IH]; intros n m.
  - destruct n, m; reflexivity.
  - destruct n as [|n].
    + destruct m as [|m]; [reflexivity|]. cbn. now rewrite IH, Nat.sub_0_r.
    + cbn. apply IH.
Qed.

Lemma substring_full (s : string) : substring 0 (String.length s) s = s.
Proof. induction s as [|c s IH]; cbn; [reflexivity | now rewrite IH]. Qed.

Lemma substring_split (s : string) (i : nat) :
  (i <= String.length s)%nat ->
  s = (substring 0 i s ++ substring i (Nat.sub (String.length s) i) s)%string.
Proof.
  revert i; induction s as [|c s IH]; intros i Hi.
  - destruct i; [reflexivity | cbn in Hi; lia].
  - destruct i as [|i].
    + rewrite Nat.sub_0_r, substring_full. reflexivity.
    + cbn. f_equal. apply IH. cbn in Hi. lia.
Qed.

Lemma substring_append_right (s t : string) :
  substring (String.length s) (String.length t) (s ++ t) = t.
Proof.
  induction s as [|c s IH]; cbn.
  - induction t as [|d t IHt]; [reflexivity|]. cbn. now rewrite IHt.
  - exact IH.
Qed.

Lemma substring_append_left (s t : string) :
  substring 0 (String.length s) (s ++ t) = s.
Proof.
  induction s as [|c s IH]; cbn.
  - now destruct t.
  - now rewrite IH.
Qed.

Lemma append_length (s t : string) :
  String.length (s ++ t) = (String.length s + String.length t)%nat.
Proof. induction s as [|c s IH]; cbn; [reflexivity | now rewrite IH]. Qed.

Lemma last_dot_bound (s : string) (i : nat) :
  last_dot s = Some i -> (i < String.length s)%nat.
Proof.
  revert i; induction s as [|c s IH]; intros i; cbn; [discriminate|].
  destruct (last_dot s) as [j|].
  - intros H; inversion H; subst. specialize (IH j eq_refl). lia.
  - destruct (Ascii.eqb c dot); [|discriminate]. intros H; inversion H. lia.
Qed.

Lemma last_dot_append (s t : string) (j : nat) :
  last_dot t = Some j -> last_dot (s ++ t) = Some (String.length s + j)%nat.
Proof.
  intros H. induction s as [|c s IH]; [exact H|]. cbn. now rewrite IH.
Qed.

(** A name that passes the test has a stem before its extension. *)
Lemma isMarkdown_stem (file : string) :
  isMarkdown file = true ->
  exists stem, stem <> ""%string /\ file = (stem ++ ".md")%string.
Proof.
  unfold isMarkdown, extname.
  destruct (last_dot file) as [i|] eqn:L; [|discriminate].
  destruct i as [|i]; [discriminate|].
  destruct (file =? "..")%string; [discriminate|].
  intros E. apply String.eqb_eq in E.
  pose proof (last_dot_bound file _ L) as B.
  exists (substring 0 (S i) file). split.
  - intros Z. apply (f_equal String.length) in Z.
    rewrite substring_length, Nat.sub_0_r in Z.
    change (String.length "") with 0%nat in Z. lia.
  - rewrite <- E. apply substring_split. lia.
Qed.

(** X3: a name passes the test [path.extname(file) === '.md'] exactly when
    it is a non-empty stem followed by [.md]; the name [.md] itself is not
    a document. *)
Theorem isMarkdown_iff (file : string) :
  isMarkdown file = true
  <-> exists stem, stem <> "" /\ file = (stem ++ ".md")%string.
Proof.
  split; [apply isMarkdown_stem|].
  unfold isMarkdown, extname.
  intros (stem & Ns & ->).
  rewrite (last_dot_append stem ".md" 0 eq_refl), Nat.add_0_r.
  destruct stem as [|c stem]; [contradiction|].
  cbn [String.length].
  assert (N2 : ((String c stem ++ ".md") =? "..")%string = false).
  { apply String.eqb_neq. intros Z. apply (f_equal String.length) in Z.
    rewrite append_length in Z. cbn in Z. lia. }
  rewrite N2.
  replace (Nat.sub (String.length (String c stem ++ ".md")) (S (String.length stem)))
    with (String.length ".md").
  - change (S (String.length stem)) with (String.length (String c stem)).
    rewrite substring_append_right. reflexivity.
  - rewrite append_length. cbn. lia.
Qed.

(** The display name of a document gives its file name back. *)
Lemma basename_ext_md (file : string) :
  isMarkdown file = true -> (basename_ext file ".md" ++ ".md")%string = file.
Proof.
  intros M. apply isMarkdown_stem in M as (stem & Ns & ->).
  unfold basename_ext.
  assert (Ne : ((stem ++ ".md") =? ".md")%string = false).
  { apply String.eqb_neq. intros Z. apply (f_equal String.length) in Z.
    rewrite append_length in Z. destruct stem; [contradiction|]. cbn in Z. lia. }
  rewrite Ne, append_length.
  replace (Nat.sub (String.length stem + String.length ".md") (String.length ".md"))
    with (String.length stem) by lia.
  rewrite substring_append_right, substring_append_left, String.eqb_refl.
  assert (Nat.leb (String.length ".md") (String.length stem + String.length ".md") = true)
    as -> by (apply Nat.leb_le; lia).
  reflexivity.
Qed.

(** ** The order of the children *)

Section SortedFacts.
Variable A : Type.
Variable key : A -> string.

Let ordered (a b : A) : Prop := String.leb (key a) (key b) = true.

Lemma insert_sorted_Sorted (x : A) (l : list A) :
  Sorted ordered l -> Sorted ordered (insert_sorted key x l).
Proof.
  induction l as [|y l IH]; intros S; cbn [insert_sorted].
  - repeat constructor.
  - destruct (String.leb (key x) (key y)) eqn:L.
    + constructor; [exact S|]. now constructor.
    + inversion S as [|? ? Sl Hd]; subst. constructor; [now apply IH|].
      assert (Lyx : ordered y x).
      { unfold ordered. destruct (String.leb_total (key x) (key y)); congruence. }
      destruct l as [|z l]; cbn [insert_sorted].
      * now constructor.
      * destruct (String.leb (key x) (key z)); constructor; [exact Lyx|].
        now inversion Hd.
Qed.

Lemma sort_by_Sorted (l : list A) : Sorted ordered (sort_by key l).
Proof.
  induction l as [|x l IH]; cbn [sort_by]; [constructor|].
  now apply insert_sorted_Sorted.
Qed.
End SortedFacts.

Lemma Sorted_map {A B} (R : A -> A -> Prop) (R' : B -> B -> Prop) (f : A -> B)
      (l : list A) :
  (forall a b, R a b -> R' (f a) (f b)) -> Sorted R l -> Sorted R' (map f l).
Proof.
  intros H. induction 1 as [|a l S IH Hd]; cbn [map]; constructor; [exact IH|].
  destruct Hd; cbn [map]; constructor. now apply H.
Qed.

Lemma Sorted_ext_in {A} (R R' : A -> A -> Prop) (l : list A) :
  (forall a b, In a l -> In b l -> R a b -> R' a b) -> Sorted R l -> Sorted R' l.
Proof.
  intros H S. induction S as [|a l S IH Hd]; constructor.
  - apply IH. intros x y Ix Iy. apply H; now right.
  - destruct Hd as [|b l Rab]; constructor. apply H; cbn; auto.
Qed.

Lemma scanned_directory_named (dir : path) (depth : N)
      (l : list (string * node)) (directories : list item) :
  Forall2 (fun e d => scan_node (resolve dir (fst e)) depth (snd e) = Ok d)
          l directories ->
  Forall (fun d => exists e, In e l /\ item_path d = resolve dir (fst e)
                             /\ item_name d = fst e) directories.
Proof.
  induction 1 as [|e d l l' S _ IH]; constructor.
  - exists e. split; [now left|].
    destruct (scan_node_Ok _ _ _ _ S) as (? & ? & ? & _ & _ & _ & ->).
    split; [reflexivity | apply basename_resolve].
  - eapply Forall_impl; [|exact IH]. intros x (e' & I & P). exists e'. split; auto.
    now right.
Qed.

(** X4: the children of a scanned directory are its documents followed by
    its sub-directories, and each of the two groups is in ascending order
    of file name, whatever the order of the listing.  The order is that of
    [Array.prototype.sort()], stated for names that hold no character of a
    supplementary plane: between those it is the order of the bytes. *)
Theorem scan_children_order (dir : path) (depth : N) (n : node) (structure : item) :
  scan_node dir depth n = Ok structure ->
  Forall (fun c => basic_plane (file_name c) = true) (item_children structure) ->
  item_children structure
  = (filter is_file (item_children structure)
     ++ filter is_directory (item_children structure))%list
  /\ Sorted by_file_name (filter is_file (item_children structure))
  /\ Sorted by_file_name (filter is_directory (item_children structure)).
Proof.
  intros S _.
  destruct (scan_node_Ok dir depth n structure S)
    as (es & files & directories & -> & -> & D & ->).
  cbn [item_children].
  pose proof (scan_dirs_Ok dir depth es directories D) as F2.
  set (A := map (file_node dir depth) (sort_by fst (filter is_document_entry es))).
  set (B := sort_by item_name directories).
  assert (HA : Forall (fun c => is_file c = true) A).
  { apply Forall_forall. intros c I. apply in_map_iff in I as (e & <- & _).
    apply file_node_is_file. }
  assert (HB : Forall (fun c => is_file c = false) B).
  { apply sort_by_Forall. exact (scanned_are_directories _ _ _ _ F2). }
  assert (Ef : filter is_file (A ++ B) = A).
  { rewrite filter_app, (filter_all is_file A HA), (filter_none is_file B HB).
    apply app_nil_r. }
  assert (Ed : filter is_directory (A ++ B) = B).
  { rewrite filter_app, (filter_none is_directory A), (filter_all is_directory B).
    - reflexivity.
    - eapply Forall_impl; [|exact HB]. cbn. unfold is_directory. now intros d ->.
    - eapply Forall_impl; [|exact HA]. cbn. unfold is_directory. now intros d ->. }
  rewrite Ef, Ed. repeat apply conj.
  - reflexivity.
  - apply (Sorted_map (fun a b => String.leb (fst a) (fst b) = true)).
    + intros [a x] [b y] L. unfold by_file_name, file_name. cbn [file_node item_path].
      now rewrite !basename_resolve.
    + apply sort_by_Sorted.
  - apply (Sorted_ext_in (fun a b => String.leb (item_name a) (item_name b) = true)).
    + intros a b Ia Ib L. apply sort_by_In in Ia, Ib.
      pose proof (scanned_directory_named _ _ _ _ F2) as Nm.
      rewrite Forall_forall in Nm.
      destruct (Nm a Ia) as (ea & _ & Pa & Na).
      destruct (Nm b Ib) as (eb & _ & Pb & Nb).
      unfold by_file_name, file_name.
      now rewrite Pa, Pb, !basename_resolve, <- Na, <- Nb.
    + apply sort_by_Sorted.
Qed.

Lemma scan_children_order_witness :
  Sorted by_file_name (filter is_file (item_children scenario_A))
  /\ map file_name (item_children scenario_A) = ["a.md"; "b.md"].
Proof.
  destruct (scan_children_order
              ["r"; "C"; "A"] 2
              (Dir true [("b.md", File 2000 (Some 2000)); ("a.md", File 500 (Some 500))])
              scenario_A eq_refl) as (_ & S & _).
  - repeat constructor.
  - split; [exact S | reflexivity].
Defined.

(** ** Paths and depths in the scanned tree *)

Lemma nodes_DirNode (name : string) (p : path) (depth : N) (children : list item) (d : item) :
  In d (nodes (DirNode name p depth children))
  <-> d = DirNode name p depth children
      \/ exists c, In c children /\ In d (nodes c).
Proof.
  cbn [nodes In]. rewrite in_flat_map. intuition.
Qed.

(** X5: every node of a scanned tree, at any depth, lies below the
    directory scanned: its path extends the directory's by segments none of
    which is a reserved name, and its depth is the depth of the scan plus
    the number of those segments. *)
Theorem scan_paths_and_depths (n : node) (dir : path) (depth : N) (structure d : item) :
  scan_node dir depth n = Ok structure -> In d (nodes structure) ->
  exists rel,
    item_path d = (dir ++ rel)%list
    /\ item_depth d = depth + N.of_nat (List.length rel)
    /\ Forall (fun segment => includes ignoreFiles segment = false) rel.
Proof.
  revert dir depth structure d.
  induction n as [| r es IH |] using node_ind; intros dir depth structure d S I;
    try discriminate.
  destruct (scan_node_Ok dir depth _ structure S)
    as (es0 & files & directories & E & -> & D & ->).
  inversion E; subst r es0. clear E.
  apply nodes_DirNode in I as [-> | (c & Ic & Id)].
  - exists []. cbn. rewrite app_nil_r, N.add_0_r. auto.
  - apply in_app_or in Ic as [Ic|Ic].
    + apply in_map_iff in Ic as ([file e] & <- & Ie).
      apply sort_by_In, filter_In in Ie as [_ K].
      cbn in Id. destruct Id as [<-|[]].
      exists [file]. cbn [file_node item_path item_depth].
      split; [reflexivity|]. split.
      * change (N.of_nat (List.length [file])) with 1. reflexivity.
      * constructor; [|constructor]. unfold is_document_entry in K. cbn [fst] in K.
        now destruct (includes ignoreFiles file).
    + apply sort_by_In in Ic.
      destruct (Forall2_In_r _ _ _ c (scan_dirs_Ok dir depth es directories D) Ic)
        as ([file e] & Ie & Sc).
      apply filter_In in Ie as [Ie K]. cbn [fst snd] in Sc.
      rewrite Forall_forall in IH.
      destruct (IH (file, e) Ie (resolve dir file) (depth + 1) c d Sc Id)
        as (rel & P & Dp & R).
      exists (file :: rel). unfold resolve in P. rewrite <- app_assoc in P.
      split; [exact P|]. split.
      * rewrite Dp. cbn [List.length]. lia.
      * constructor; [|exact R]. unfold is_subdirectory_entry in K. cbn [fst] in K.
        now destruct (includes ignoreFiles file).
Qed.

Lemma scan_paths_and_depths_witness :
  exists rel,
    item_path (FileNode "x" ["r"; "C"; "B"; "B1"; "x.md"] 4 10 "10 B" 3)
    = (["r"; "C"] ++ rel)%list
    /\ item_depth (FileNode "x" ["r"; "C"; "B"; "B1"; "x.md"] 4 10 "10 B" 3)
       = 1 + N.of_nat (List.length rel)
    /\ Forall (fun segment => includes ignoreFiles segment = false) rel.
Proof.
  apply (scan_paths_and_depths
           (Dir true [("A", Dir true [("b.md", File 2000 (Some 2000));
                                      ("a.md", File 500 (Some 500))]);
                      ("B", Dir true [("B1", Dir true [("x.md", File 10 (Some 10))])])])
           ["r"; "C"] 1 scenario_C).
  - reflexivity.
  - cbn. auto 10.
Defined.

(** ** What the scanner keeps *)

Lemma Forall2_In_l {A B} (R : A -> B -> Prop) (l : list A) (l' : list B) (x : A) :
  Forall2 R l l' -> In x l -> exists y, In y l' /\ R x y.
Proof.
  induction 1 as [|x' y l l' H _ IH]; simpl; [tauto|].
  intros [<-|I].
  - exists y. auto.
  - destruct (IH I) as (y' & I' & H'). exists y'. auto.
Qed.

Lemma resolve_injective (dir : path) (a b : string) :
  resolve dir a = resolve dir b -> a = b.
Proof. unfold resolve. intros H. now apply app_inj_tail in H as [_ ->]. Qed.

Lemma child_entry_split (es : list (string * node)) :
  count_of (filter is_child_entry es)
  = count_of (filter is_document_entry es) + count_of (filter is_subdirectory_entry es).
Proof.
  unfold count_of. induction es as [|[file c] es IH]; [reflexivity|].
  cbn [filter]. unfold is_child_entry, is_document_entry, is_subdirectory_entry in *.
  cbn [fst snd].
  destruct (includes ignoreFiles file); cbn [negb andb orb]; [exact IH|].
  destruct c; cbn [isDirectory orb].
  - destruct (isMarkdown file); cbn [orb List.length]; lia.
  - cbn [List.length]. lia.
  - exact IH.
Qed.

(** X6: the children of a scanned directory mirror its listing: a name has
    a child node exactly when its entry is a regular file named with the
    extension or a directory, and its name is not reserved; there are as
    many children as such entries, so none is listed twice and no other
    file is listed at all. *)
Theorem scan_children_mirror (dir : path) (depth : N) (es : list (string * node))
        (structure : item) :
  scan_node dir depth (Dir true es) = Ok structure ->
  (forall file,
      In (resolve dir file) (map item_path (item_children structure))
      <-> In file (map fst (filter is_child_entry es)))
  /\ count_of (item_children structure) = count_of (filter is_child_entry es).
Proof.
  intros S.
  destruct (scan_node_Ok dir depth _ structure S)
    as (es0 & files & directories & E & -> & D & ->).
  inversion E; subst es0. clear E. cbn [item_children].
  pose proof (scan_dirs_Ok dir depth es directories D) as F2.
  pose proof (scanned_directory_named _ _ _ _ F2) as Nm.
  rewrite Forall_forall in Nm.
  split.
  - intros file. rewrite map_app, in_app_iff, !in_map_iff. split.
    + intros [(c & P & I) | (c & P & I)].
      * apply in_map_iff in I as ([f e] & <- & I).
        apply sort_by_In, filter_In in I as [I K].
        cbn [file_node item_path] in P. apply resolve_injective in P. subst f.
        exists (file, e). split; [reflexivity|]. apply filter_In. split; [exact I|].
        unfold is_child_entry. now rewrite K.
      * apply sort_by_In in I. destruct (Nm c I) as ([f e] & Ie & Pc & _).
        rewrite Pc in P. cbn [fst] in P. apply resolve_injective in P. subst f.
        apply filter_In in Ie as [Ie K].
        exists (file, e). split; [reflexivity|]. apply filter_In. split; [exact Ie|].
        unfold is_child_entry. rewrite K. apply orb_true_r.
    + intros ([f e] & <- & I). apply filter_In in I as [I K]. cbn [fst].
      unfold is_child_entry in K. apply orb_true_iff in K as [K|K].
      * left. exists (file_node dir depth (f, e)). split; [reflexivity|].
        apply in_map, sort_by_In, filter_In. auto.
      * right.
        assert (Ie : In (f, e) (filter is_subdirectory_entry es))
          by (apply filter_In; auto).
        destruct (Forall2_In_l _ _ _ (f, e) F2 Ie) as (d & Id & Sx).
        exists d. split; [|now apply sort_by_In].
        cbn [fst snd] in Sx.
        destruct (scan_node_Ok _ _ _ _ Sx) as (? & ? & ? & _ & _ & _ & ->).
        reflexivity.
  - rewrite child_entry_split. unfold count_of.
    rewrite length_app, length_map, !sort_by_length, (Forall2_length F2). lia.
Qed.

Lemma scan_children_mirror_witness :
  (In (resolve ["docs"] "a.md")
      (map item_path
           (item_children
              (DirNode "docs" ["docs"] 0 [FileNode "a" ["docs"; "a.md"] 1 30 "30 B" 10])))
   <-> In "a.md"
          (map fst (filter is_child_entry
                           [("README.md", File 600 (Some 600));
                            ("_sidebar.md", File 90 (Some 90));
                            ("a.md", File 30 (Some 30))]))).
Proof.
  apply (scan_children_mirror
           ["docs"] 0
           [("README.md", File 600 (Some 600)); ("_sidebar.md", File 90 (Some 90));
            ("a.md", File 30 (Some 30))]
           (DirNode "docs" ["docs"] 0 [FileNode "a" ["docs"; "a.md"] 1 30 "30 B" 10])
           eq_refl).
Defined.

(** X7: a document node of a scanned directory describes one listed file:
    its name is the file's without the extension (adding [.md] gives the
    file name back), its path is the file's, its size is the file's byte
    size, its formatted size is that size formatted, and its content
    volume is the estimate for that file. *)
Theorem scan_document_fields
        (dir : path) (depth : N) (es : list (string * node)) (structure : item)
        (name : string) (p : path) (d bytes : N) (formattedSize : string) (wordCount : N) :
  scan_node dir depth (Dir true es) = Ok structure ->
  In (FileNode name p d bytes formattedSize wordCount) (item_children structure) ->
  exists file text,
    In (file, File bytes text) es
    /\ p = resolve dir file
    /\ (name ++ ".md")%string = file
    /\ d = depth + 1
    /\ formattedSize = formatted (format_size bytes)
    /\ wordCount = wordCount_node (File bytes text).
Proof.
  intros S I.
  destruct (scan_node_Ok dir depth _ structure S)
    as (es0 & files & directories & E & -> & D & ->).
  inversion E; subst es0. clear E. cbn [item_children] in I.
  apply in_app_or in I as [I|I].
  - apply in_map_iff in I as ([file c] & Hc & I).
    apply sort_by_In, filter_In in I as [I K].
    unfold is_document_entry in K. cbn [fst snd] in K.
    apply andb_true_iff in K as [_ K]. destruct c as [size0 text | |]; try discriminate.
    cbn [file_node stat_size] in Hc. inversion Hc; subst.
    exists file, text. rewrite size_format_size.
    repeat split; auto. now apply basename_ext_md.
  - apply sort_by_In in I.
    pose proof (scanned_are_directories _ _ _ _ (scan_dirs_Ok dir depth es directories D))
      as Dd.
    rewrite Forall_forall in Dd. specialize (Dd _ I). discriminate.
Qed.

Lemma scan_document_fields_witness :
  exists file text,
    In (file, File 2000 text)
       [("b.md", File 2000 (Some 2000)); ("a.md", File 500 (Some 500))]
    /\ ["r"; "C"; "A"; "b.md"] = resolve ["r"; "C"; "A"] file
    /\ ("b" ++ ".md")%string = file
    /\ 3 = 2 + 1
    /\ "1.95 KB" = formatted (format_size 2000)
    /\ 667 = wordCount_node (File 2000 text).
Proof.
  apply (scan_document_fields
           ["r"; "C"; "A"] 2
           [("b.md", File 2000 (Some 2000)); ("a.md", File 500 (Some 500))]
           scenario_A "b" ["r"; "C"; "A"; "b.md"] 3 2000 "1.95 KB" 667 eq_refl).
  right. left. reflexivity.
Defined.

(** ** The scanned tree against the aggregates *)

Lemma sum_insert_sorted {A} (key : A -> string) (f : A -> N) (x : A) (l : list A) :
  sum (map f (insert_sorted key x l)) = f x + sum (map f l).
Proof.
  induction l as [|y l IH]; [reflexivity|].
  cbn [insert_sorted]. destruct (String.leb (key x) (key y)); [reflexivity|].
  cbn [map sum fold_right] in *. fold (sum (map f (insert_sorted key x l))).
  fold (sum (map f l)). rewrite IH. lia.
Qed.

Lemma sum_sort_by {A} (key : A -> string) (f : A -> N) (l : list A) :
  sum (map f (sort_by key l)) = sum (map f l).
Proof.
  induction l as [|x l IH]; [reflexivity|].
  cbn [sort_by]. rewrite sum_insert_sorted, IH. reflexivity.
Qed.

Lemma sum_Forall2 {A B} (f : A -> N) (g : B -> N) (l : list A) (l' : list B) :
  Forall2 (fun a b => f a = g b) l l' -> sum (map f l) = sum (map g l').
Proof.
  induction 1 as [|a b l l' H _ IH]; [reflexivity|].
  cbn [map sum fold_right]. fold (sum (map f l)). fold (sum (map g l')).
  now rewrite H, IH.
Qed.

Lemma no_reserved_name_Dir (r : bool) (es : list (string * node)) :
  no_reserved_name (Dir r es) = true
  <-> Forall (fun e => includes ignoreFiles (fst e) = false
                       /\ no_reserved_name (snd e) = true) es.
Proof.
  cbn [no_reserved_name]. rewrite forallb_forall, Forall_forall.
  split; intros H e I; specialize (H e I).
  - apply andb_true_iff in H as [H1 H2]. split; [|exact H2].
    now destruct (includes ignoreFiles (fst e)).
  - destruct H as [-> ->]. reflexivity.
Qed.

Lemma no_reserved_name_stat (fs : node) (p : path) (n : node) :
  no_reserved_name fs = true -> statSync fs p = Ok n -> no_reserved_name n = true.
Proof.
  revert fs; induction p as [|s p IH]; intros fs R S.
  - apply statSync_nil_Ok in S as [-> _]. exact R.
  - destruct fs as [| r es |]; try discriminate. cbn [statSync] in S.
    destruct (find_entry s es) as [c|] eqn:F; [|discriminate].
    apply no_reserved_name_Dir in R. rewrite Forall_forall in R.
    apply find_entry_In in F. destruct (R _ F) as [_ Rc]. now apply (IH c).
Qed.

Section EntriesSum.
Variable onDirectory : node -> N.
Variable onFile : string -> node -> N.
Variable measure : item -> N.
Variable dir : path.
Variable depth : N.
Hypothesis files_agree :
  forall file c, isDirectory c = false ->
                 onFile file c = if isMarkdown file
                                 then measure (file_node dir depth (file, c)) else 0.

Lemma entries_sum (es : list (string * node)) (directories : list item) :
  Forall (fun e => includes ignoreFiles (fst e) = false
                   /\ forall dir depth d, scan_node dir depth (snd e) = Ok d ->
                                          onDirectory (snd e) = measure d) es ->
  scan_dirs scan_node dir depth es = Ok directories ->
  sum (map (contribution onDirectory onFile) es)
  = sum (map (fun e => measure (file_node dir depth e)) (filter is_document_entry es))
    + sum (map measure directories).
Proof.
  intros H. revert directories.
  induction H as [|[file c] es [Rf Hc] _ IH]; intros directories D.
  - inversion D. reflexivity.
  - cbn [fst snd] in *. cbn [scan_dirs] in D. rewrite Rf in D.
    cbn [filter map]. unfold is_document_entry at 1. cbn [fst snd]. rewrite Rf.
    cbn [negb andb].
    replace (sum (contribution onDirectory onFile (file, c)
                  :: map (contribution onDirectory onFile) es))
      with (contribution onDirectory onFile (file, c)
            + sum (map (contribution onDirectory onFile) es)) by reflexivity.
    unfold contribution at 1. cbn [fst snd].
    destruct c as [bytes text | readable entries |].
    + rewrite (IH directories D), (files_agree file (File bytes text) eq_refl).
      destruct (isMarkdown file); [|reflexivity].
      cbn [map sum fold_right]. unfold sum. lia.
    + destruct (scan_node (resolve dir file) (depth + 1) (Dir readable entries))
        as [d|] eqn:S; [|discriminate].
      cbn [bind] in D.
      destruct (scan_dirs scan_node dir depth es) as [ds|]; [|discriminate].
      inversion D; subst. rewrite (IH ds eq_refl), (Hc _ _ d S).
      cbn [map sum fold_right]. unfold sum. lia.
    + now rewrite (IH directories D).
Qed.
End EntriesSum.

(** In a directory without reserved names, what the scanner keeps is what
    the aggregators count. *)
Lemma scanned_tree_aggregates (n : node) :
  no_reserved_name n = true ->
  forall dir depth structure,
    scan_node dir depth n = Ok structure ->
    countMarkdown_node n = tree_documents structure
    /\ wordCountDir_node n = tree_volume structure.
Proof.
  induction n as [| r es IH |] using node_ind; intros R dir depth structure S;
    try discriminate.
  destruct (scan_node_Ok dir depth _ structure S)
    as (es0 & files & directories & E & -> & D & ->).
  inversion E; subst r es0. clear E.
  apply no_reserved_name_Dir in R.
  assert (P : partition_files es <> Throw).
  { rewrite scan_node_Dir in S. destruct (partition_files es); discriminate. }
  assert (Ex : examinable es = true).
  { clear - R P. induction es as [|[file c] es IHes]; [reflexivity|].
    inversion R as [|? ? [Rf _] Res]; subst. cbn [fst] in Rf.
    cbn [partition_files] in P. rewrite Rf in P.
    cbn [examinable forallb snd]. fold (examinable es).
    destruct c; cbn [is_dangling negb andb]; try (now contradiction P).
    - apply IHes; [exact Res|]. destruct (partition_files es); [discriminate|].
      now contradiction P.
    - now apply IHes. }
  rewrite countMarkdown_node_walk, wordCountDir_node_walk, !try_walk, Ex.
  cbn [tree_documents tree_volume]. rewrite !map_app, !sum_app, !map_map, !sum_sort_by.
  assert (H1 : Forall (fun e => includes ignoreFiles (fst e) = false
                                /\ forall dir depth d,
                                     scan_node dir depth (snd e) = Ok d ->
                                     countMarkdown_node (snd e) = tree_documents d) es).
  { rewrite Forall_forall in *. intros e I. destruct (R e I) as [Rf Rn].
    split; [exact Rf|]. intros dir' depth' d Sd. now apply (IH e I Rn dir' depth' d). }
  assert (H2 : Forall (fun e => includes ignoreFiles (fst e) = false
                                /\ forall dir depth d,
                                     scan_node dir depth (snd e) = Ok d ->
                                     wordCountDir_node (snd e) = tree_volume d) es).
  { rewrite Forall_forall in *. intros e I. destruct (R e I) as [Rf Rn].
    split; [exact Rf|]. intros dir' depth' d Sd. now apply (IH e I Rn dir' depth' d). }
  split.
  - apply (entries_sum countMarkdown_node count_file tree_documents dir depth);
      [|exact H1 | exact D].
    intros file c _. unfold count_file. now destruct (isMarkdown file).
  - apply (entries_sum wordCountDir_node words_file tree_volume dir depth);
      [|exact H2 | exact D].
    intros file c _. unfold words_file. now destruct (isMarkdown file).
Qed.

(** X8: in a collection where no entry bears a reserved name (one the
    generator has not run in), the aggregators agree with the scanner: the
    document count of a directory is the number of file nodes of its
    scanned tree, and its content volume is the sum of the volumes those
    nodes carry. *)
Theorem aggregates_match_scanned_tree
        (fs : node) (dirPath : path) (depth : N) (structure : item) :
  no_reserved_name fs = true ->
  existsSync fs dirPath = true ->
  getDirectoryStructure fs dirPath depth = Ok structure ->
  countMarkdownFiles fs dirPath = tree_documents structure
  /\ estimateDirectoryWordCount fs dirPath = tree_volume structure.
Proof.
  intros R Ex S. unfold getDirectoryStructure in S. rewrite Ex in S. cbn [negb] in S.
  unfold countMarkdownFiles, estimateDirectoryWordCount.
  destruct (statSync fs dirPath) as [n|] eqn:St; [|discriminate].
  cbn [bind try_catch] in *.
  apply (scanned_tree_aggregates n (no_reserved_name_stat fs dirPath n R St)
                                 dirPath depth structure S).
Qed.

Lemma aggregates_match_scanned_tree_witness :
  countMarkdownFiles scenario_fs ["r"; "C"] = 3
  /\ estimateDirectoryWordCount scenario_fs ["r"; "C"] = 837.
Proof.
  apply (aggregates_match_scanned_tree scenario_fs ["r"; "C"] 1 scenario_C);
    reflexivity.
Defined.

(** ** What a run leaves alone *)

Lemma pages_written_trans (a b c : node) :
  pages_written a b -> pages_written b c -> pages_written a c.
Proof.
  intros Hab Hbc. induction Hbc as [|fs fs' dir g data _ IH G W]; [exact Hab|].
  exact (@pages_more a fs fs' dir g data IH G W).
Qed.

Lemma only_pages_ret {A} (a : A) : only_pages (ret a).
Proof. intros w w' r H. inversion H; subst. apply pages_none. Qed.

Lemma only_pages_throw {A} : only_pages (fun w => (w, @Throw A)).
Proof. intros w w' r H. inversion H; subst. apply pages_none. Qed.

Lemma only_pages_reading {A} (f : node -> result A) : only_pages (reading f).
Proof. intros w w' r H. inversion H; subst. apply pages_none. Qed.

Lemma only_pages_console_log (message : string) : only_pages (console_log message).
Proof. intros w w' r H. inversion H; subst. apply pages_none. Qed.

Lemma only_pages_writeFileSync (write : writer) (dir : path) (g data : string) :
  pages_in_place write -> is_generated g = true ->
  only_pages (Platform.writeFileSync write (resolve dir g) data).
Proof.
  intros P G w w' r. unfold Platform.writeFileSync.
  specialize (P (disk w) dir g data G).
  destruct (write (disk w) (resolve dir g) data) as [fs' [u|]];
    intros H; inversion H; subst; cbn [disk].
  - exact (@pages_more (disk w) (disk w) fs' dir g data (pages_none (disk w)) G P).
  - apply pages_none.
Qed.

Lemma only_pages_bind {A B} (m : M A) (k : A -> M B) :
  only_pages m -> (forall a, only_pages (k a)) -> only_pages (bindM m k).
Proof.
  intros Hm Hk w w' r. unfold bindM.
  destruct (m w) as [w1 [a|]] eqn:E; intros H.
  - exact (pages_written_trans _ _ _ (Hm w w1 (Ok a) E) (Hk a w1 w' r H)).
  - inversion H; subst. exact (Hm w w' Throw E).
Qed.

Lemma only_pages_children (generate : item -> M unit) (children : list item) :
  Forall (fun c => only_pages (generate c)) children ->
  only_pages ((fix forEach (items : list item) : M unit :=
                 match items with
                 | [] => ret tt
                 | item :: rest =>
                     bindM (if is_directory item then generate item else ret tt)
                           (fun _ => forEach rest)
                 end) children).
Proof.
  intros H. induction H as [|c l Hc _ IH]; [apply only_pages_ret|].
  apply only_pages_bind; [| intros _; exact IH].
  destruct (is_directory c); [exact Hc | apply only_pages_ret].
Qed.

Lemma only_pages_Usage (write : writer) (specifiedPath : string) (basePath : path)
      (structure : item) (isRoot : bool) :
  pages_in_place write ->
  only_pages (Platform.Usage.generateDocs write specifiedPath structure basePath isRoot).
Proof.
  intros P. revert isRoot.
  induction structure as [| name p depth children IH] using item_ind; intros isRoot.
  - apply only_pages_throw.
  - cbn [Platform.Usage.generateDocs].
    apply only_pages_bind; [apply only_pages_console_log | intros _].
    apply only_pages_bind; [apply only_pages_reading | intros readmeContent].
    apply only_pages_bind; [now apply only_pages_writeFileSync | intros _].
    apply only_pages_bind; [apply only_pages_console_log | intros _].
    apply only_pages_bind; [apply only_pages_console_log | intros _].
    apply only_pages_bind; [now apply only_pages_writeFileSync | intros _].
    apply only_pages_bind; [apply only_pages_console_log | intros _].
    apply (only_pages_children
             (fun c => Platform.Usage.generateDocs write specifiedPath c basePath false)).
    eapply Forall_impl; [|exact IH]. intros c Hc. apply Hc.
Qed.

Lemma only_pages_Final (write : writer) (specifiedPath : string) (basePath : path)
      (structure : item) (isRoot : bool) :
  pages_in_place write ->
  only_pages (Platform.Final.generateDocs write specifiedPath structure basePath isRoot).
Proof.
  intros P. revert isRoot.
  induction structure as [| name p depth children IH] using item_ind; intros isRoot.
  - apply only_pages_throw.
  - cbn [Platform.Final.generateDocs].
    apply only_pages_bind; [apply only_pages_console_log | intros _].
    apply only_pages_bind; [apply only_pages_reading | intros readmeContent].
    apply only_pages_bind; [now apply only_pages_writeFileSync | intros _].
    apply only_pages_bind; [apply only_pages_console_log | intros _].
    apply only_pages_bind; [| intros _].
    + destruct (negb (name =? specifiedPath)%string).
      * apply only_pages_bind; [apply only_pages_console_log | intros _].
        apply only_pages_bind; [now apply only_pages_writeFileSync | intros _].
        apply only_pages_console_log.
      * apply only_pages_ret.
    + apply (only_pages_children
               (fun c => Platform.Final.generateDocs write specifiedPath c basePath false)).
      eapply Forall_impl; [|exact IH]. intros c Hc. apply Hc.
Qed.

Lemma Usage_main_pages (write : writer) (specifiedPath : string) (targetDir : path)
      (w : world) :
  pages_in_place write ->
  pages_written (disk w)
                (disk (fst (Platform.Usage.main write specifiedPath targetDir w))).
Proof.
  intros P. unfold Platform.Usage.main, console_log, console_error, emit. cbn [disk].
  destruct (existsSync (disk w) targetDir); cbn [negb fst disk]; [|apply pages_none].
  match goal with
  | |- context [match ?m ?w1 with _ => _ end] =>
      assert (O : only_pages m);
      [| destruct (m w1) as [w' [[]|]] eqn:E; exact (O w1 w' _ E)]
  end.
  apply only_pages_bind; [apply only_pages_reading | intros structure].
  apply only_pages_bind; [now apply only_pages_Usage | intros _].
  intros w0 w' r H. inversion H; subst. apply pages_none.
Qed.

Lemma Final_main_pages (write : writer) (specifiedPath : string) (targetDir : path)
      (w : world) :
  pages_in_place write ->
  pages_written (disk w)
                (disk (fst (Platform.Final.main write specifiedPath targetDir w))).
Proof.
  intros P. unfold Platform.Final.main, console_log, console_error, emit. cbn [disk].
  destruct (existsSync (disk w) targetDir); cbn [negb fst disk]; [|apply pages_none].
  match goal with
  | |- context [match ?m ?w1 with _ => _ end] =>
      assert (O : only_pages m);
      [| destruct (m w1) as [w' [[]|]] eqn:E; exact (O w1 w' _ E)]
  end.
  apply only_pages_bind; [apply only_pages_reading | intros structure].
  apply only_pages_bind; [now apply only_pages_Final | intros _].
  intros w0 w' r H. inversion H; subst. apply pages_none.
Qed.

Lemma in_place_pages : pages_in_place in_place.
Proof.
  intros fs dir g data _. unfold in_place.
  now destruct (write_node fs (resolve dir g) (file_of data)).
Qed.

(** One write of a generated page: what was there is still there, a
    directory is the directory it was but for reserved names below it, and
    a file not named as a generated page is the file it was. *)
Lemma write_keeps (fs fs' : node) (dir : path) (g data : string) (q : path) (x : node) :
  is_generated g = true ->
  write_node fs (resolve dir g) (file_of data) = Ok fs' ->
  statSync fs q = Ok x ->
  exists x',
    statSync fs' q = Ok x'
    /\ (isDirectory x = true ->
        isDirectory x' = true /\ without_reserved x' = without_reserved x)
    /\ (isDirectory x = false -> is_generated (basename q) = false -> x' = x).
Proof.
  intros G W S.
  destruct (on_the_way_dec q (resolve dir g)) as [(rest & E)|N].
  - destruct rest as [|t rest].
    + rewrite app_nil_r in E. subst q. exists (file_of data).
      split; [exact (write_overwrites _ _ _ _ W)|]. split.
      * intros D. pose proof (write_target_not_directory _ _ _ _ W) as Nd.
        unfold is_directory_at in Nd. rewrite S, D in Nd. discriminate.
      * intros _ B. rewrite basename_resolve, G in B. discriminate.
    + rewrite E in W.
      destruct (write_decomposes q (t :: rest) fs fs' x (file_of data) S)
        as (x' & Wx & S' & D'); [discriminate | exact W |].
      exists x'. split; [exact S'|]. split.
      * intros _. split; [exact D'|].
        destruct (last_segment dir q (t :: rest) g E) as (rest0 & Er); [discriminate|].
        rewrite Er in Wx.
        exact (write_reserved_unseen _ _ _ _ _ (is_generated_reserved _ G) Wx).
      * intros D _.
        destruct (write_through_directories q (t :: rest) fs fs' (file_of data))
          as (y & Sy & Dy); [discriminate | exact W |].
        rewrite S in Sy. inversion Sy; subst y. rewrite D in Dy. discriminate.
  - exists x. split; [|now split].
    rewrite (write_frame _ _ _ _ q W); [exact S | reflexivity | exact N].
Qed.

Lemma pages_keep (before after : node) (q : path) (x : node) :
  pages_written before after ->
  statSync before q = Ok x ->
  exists x',
    statSync after q = Ok x'
    /\ (isDirectory x = true ->
        isDirectory x' = true /\ without_reserved x' = without_reserved x)
    /\ (isDirectory x = false -> is_generated (basename q) = false -> x' = x).
Proof.
  intros H S. induction H as [|fs fs' dir g data _ IH G W].
  - exists x. now repeat split.
  - destruct IH as (x1 & S1 & Hd & Hf).
    destruct (write_keeps fs fs' dir g data q x1 G W S1) as (x2 & S2 & Hd2 & Hf2).
    exists x2. split; [exact S2|]. split.
    + intros D. destruct (Hd D) as [D1 E1]. destruct (Hd2 D1) as [D2 E2].
      split; [exact D2 | now rewrite E2].
    + intros D B. pose proof (Hf D B) as E1. subst x1. now apply Hf2.
Qed.

(** X9: where the pages are written in place (no name [README.md] or
    [_sidebar.md] is a link or shares its file with another name), a run of
    either script, however it ends, deletes nothing and leaves the user's
    files alone: a path that led somewhere before the run still does after
    it, a directory is still a directory, and a regular file whose name is
    neither [README.md] nor [_sidebar.md] is found again with the size and
    the content it had. *)
Theorem run_keeps_documents
        (write : writer) (specifiedPath : string) (targetDir : path) (w : world)
        (q : path) (x : node) :
  pages_in_place write ->
  statSync (disk w) q = Ok x ->
  left_alone x q (disk (fst (Platform.Final.main write specifiedPath targetDir w)))
  /\ left_alone x q (disk (fst (Platform.Usage.main write specifiedPath targetDir w))).
Proof.
  intros P S.
  assert (K : forall after, pages_written (disk w) after -> left_alone x q after).
  { intros after W.
    destruct (pages_keep (disk w) after q x W S) as (x' & S' & Hd & Hf).
    unfold left_alone, existsSync, is_directory_at. rewrite S'.
    split; [reflexivity|]. split.
    - intros D. now destruct (Hd D).
    - intros D B. now rewrite (Hf D B). }
  split; apply K; [now apply Final_main_pages | now apply Usage_main_pages].
Qed.

Lemma run_keeps_documents_witness :
  left_alone (File 500 (Some 500)) ["r"; "C"; "A"; "a.md"]
             (disk (fst (Platform.Final.main in_place "C" ["r"] (start scenario_fs))))
  /\ left_alone (File 500 (Some 500)) ["r"; "C"; "A"; "a.md"]
                (disk (fst (Platform.Usage.main in_place "C" ["r"] (start scenario_fs)))).
Proof.
  apply (run_keeps_documents in_place "C" ["r"] (start scenario_fs)
                             ["r"; "C"; "A"; "a.md"] (File 500 (Some 500))).
  - exact in_place_pages.
  - reflexivity.
Defined.

(** X10: where the pages are written in place, a run does not change what
    the scanner sees: scanning a directory that existed before the run
    gives, after a run of either script and however that run ended, the
    tree it gave before. *)
Theorem run_keeps_scan
        (write : writer) (specifiedPath : string) (targetDir : path) (w : world)
        (dir : path) (depth : N) :
  pages_in_place write ->
  is_directory_at (disk w) dir = true ->
  getDirectoryStructure
    (disk (fst (Platform.Final.main write specifiedPath targetDir w))) dir depth
  = getDirectoryStructure (disk w) dir depth
  /\ getDirectoryStructure
       (disk (fst (Platform.Usage.main write specifiedPath targetDir w))) dir depth
     = getDirectoryStructure (disk w) dir depth.
Proof.
  intros P D. unfold is_directory_at in D.
  destruct (statSync (disk w) dir) as [x|] eqn:S; [|discriminate].
  assert (K : forall after, pages_written (disk w) after ->
                            getDirectoryStructure after dir depth
                            = getDirectoryStructure (disk w) dir depth).
  { intros after W.
    destruct (pages_keep (disk w) after dir x W S) as (x' & S' & Hd & _).
    destruct (Hd D) as [_ E].
    unfold getDirectoryStructure, existsSync. rewrite S, S'. cbn [negb bind].
    now rewrite <- (scan_node_without_reserved x'), E, scan_node_without_reserved. }
  split; apply K; [now apply Final_main_pages | now apply Usage_main_pages].
Qed.

Lemma run_keeps_scan_witness :
  getDirectoryStructure
    (disk (fst (Platform.Final.main in_place "C" ["r"] (start scenario_fs)))) ["r"; "C"] 1
  = getDirectoryStructure scenario_fs ["r"; "C"] 1.
Proof.
  apply (run_keeps_scan in_place "C" ["r"] (start scenario_fs) ["r"; "C"] 1).
  - exact in_place_pages.
  - reflexivity.
Defined.

(** ** When the scan fails *)

Lemma can_be_scanned_cons (file : string) (c : node) (es : list (string * node)) :
  can_be_scanned (Dir true ((file, c) :: es))
  = (includes ignoreFiles file
     || match c with
        | Dangling => false
        | File _ _ => true
        | Dir _ _ => can_be_scanned c
        end)
    && can_be_scanned (Dir true es).
Proof. reflexivity. Qed.

Lemma scan_loops_can_be_scanned (dir : path) (depth : N) (es : list (string * node)) :
  Forall (fun e => forall dir depth,
              if can_be_scanned (snd e) then scan_node dir depth (snd e) <> Throw
              else scan_node dir depth (snd e) = Throw) es ->
  if can_be_scanned (Dir true es)
  then partition_files es <> Throw /\ scan_dirs scan_node dir depth es <> Throw
  else partition_files es = Throw \/ scan_dirs scan_node dir depth es = Throw.
Proof.
  intros H. induction H as [|[file c] es Hc _ IH].
  - split; discriminate.
  - rewrite can_be_scanned_cons. cbn [partition_files scan_dirs].
    destruct (includes ignoreFiles file); cbn [orb andb]; [exact IH|].
    destruct c as [b t | r ents |].
    + cbn [andb]. destruct (can_be_scanned (Dir true es)).
      * destruct IH as [P S]. split; [|exact S].
        destruct (partition_files es); [discriminate | contradiction].
      * destruct IH as [P|S]; [left; now rewrite P | now right].
    + specialize (Hc (resolve dir file) (depth + 1)). cbn [snd] in Hc.
      destruct (can_be_scanned (Dir r ents)); cbn [andb].
      * destruct (scan_node (resolve dir file) (depth + 1) (Dir r ents));
          [|contradiction].
        cbn [bind]. destruct (can_be_scanned (Dir true es)).
        -- destruct IH as [P S]. split; [exact P|].
           destruct (scan_dirs scan_node dir depth es); [discriminate | contradiction].
        -- destruct IH as [P|S]; [now left | right; now rewrite S].
      * right. now rewrite Hc.
    + now left.
Qed.

Lemma scan_node_can_be_scanned (n : node) (dir : path) (depth : N) :
  if can_be_scanned n then scan_node dir depth n <> Throw
  else scan_node dir depth n = Throw.
Proof.
  revert dir depth.
  induction n as [| r es IH |] using node_ind; intros dir depth; try reflexivity.
  destruct r; [|reflexivity].
  pose proof (scan_loops_can_be_scanned dir depth es IH) as L.
  rewrite scan_node_Dir.
  destruct (can_be_scanned (Dir true es)).
  - destruct L as [P S].
    destruct (partition_files es); [|contradiction]. cbn [bind].
    destruct (scan_dirs scan_node dir depth es); [discriminate | contradiction].
  - destruct L as [P|S]; [now rewrite P|].
    rewrite S. now destruct (partition_files es).
Qed.

(** X11: the scan of a path raises an exception exactly when the path
    leads to something that cannot be scanned: a regular file, a directory
    that cannot be listed, or a directory holding, at any depth and outside
    the entries with a reserved name, a dangling link or a sub-directory
    that cannot be listed.  (A path that leads nowhere yields an empty
    tree.) *)
Theorem scan_fails_iff (fs : node) (dir : path) (depth : N) :
  getDirectoryStructure fs dir depth = Throw
  <-> exists n, statSync fs dir = Ok n /\ can_be_scanned n = false.
Proof.
  unfold getDirectoryStructure, existsSync.
  destruct (statSync fs dir) as [n|]; cbn [negb bind].
  - pose proof (scan_node_can_be_scanned n dir depth) as L. split.
    + intros T. exists n. split; [reflexivity|].
      destruct (can_be_scanned n); [contradiction | reflexivity].
    + intros (n' & E & C). inversion E; subst n'. now rewrite C in L.
  - split; [discriminate|]. now intros (n & E & _).
Qed.

(** X12: when the target cannot be scanned, a run of either script dies of
    the uncaught exception right after its first message: nothing is
    written and the disk is as it was. *)
Theorem failed_scan_writes_nothing
        (specifiedPath : string) (targetDir : path) (w : world) (n : node) :
  statSync (disk w) targetDir = Ok n -> can_be_scanned n = false ->
  Final.main specifiedPath targetDir w = crashed_run targetDir w
  /\ Usage.main specifiedPath targetDir w = crashed_run targetDir w.
Proof.
  intros S C.
  assert (T : getDirectoryStructure (disk w) targetDir 0 = Throw).
  { pose proof (scan_node_can_be_scanned n targetDir 0) as L. rewrite C in L.
    unfold getDirectoryStructure, existsSync. now rewrite S. }
  unfold Final.main, Usage.main, crashed_run, console_log, emit, existsSync.
  cbn [disk]. rewrite S. cbn [negb]. unfold bindM, reading. cbn [disk].
  rewrite T. split; reflexivity.
Qed.

Lemma failed_scan_writes_nothing_witness :
  Final.main "C" ["r"; "C"; "A"; "a.md"] (start scenario_fs)
  = crashed_run ["r"; "C"; "A"; "a.md"] (start scenario_fs)
  /\ Usage.main "C" ["r"; "C"; "A"; "a.md"] (start scenario_fs)
     = crashed_run ["r"; "C"; "A"; "a.md"] (start scenario_fs).
Proof.
  apply (failed_scan_writes_nothing "C" ["r"; "C"; "A"; "a.md"] (start scenario_fs)
                                    (File 500 (Some 500)));
    reflexivity.
Defined.

(** ** The root pages *)

Lemma scan_subdirectory (dir : path) (depth : N) (n : node) (st d : item) :
  scan_node dir depth n = Ok st -> In d (item_children st) -> is_directory d = true ->
  exists file c,
    scan_node (resolve dir file) (depth + 1) c = Ok d
    /\ item_name d = file /\ item_path d = resolve dir file.
Proof.
  intros S I D.
  destruct (scan_children dir depth n st S)
    as (es & directories & _ & F2 & _ & _ & _ & _ & Ed).
  assert (I' : In d (filter is_directory (item_children st))).
  { apply filter_In. now split. }
  rewrite Ed in I'. apply sort_by_In in I'.
  destruct (Forall2_In_r _ _ _ d F2 I') as ([file c] & _ & Sd). cbn [fst snd] in Sd.
  exists file, c. split; [exact Sd|].
  destruct (scan_children _ _ _ _ Sd) as (_ & _ & _ & _ & P & Nm & _).
  split; [|exact P]. now rewrite Nm, basename_resolve.
Qed.

Lemma visited_self (d : item) : is_directory d = true -> In d (visited d).
Proof. destruct d; [discriminate|]. intros _. now left. Qed.

Lemma visited_child (st c d : item) :
  In c (item_children st) -> In d (visited c) -> In d (visited st).
Proof.
  destruct st as [| name p depth children]; [contradiction|].
  cbn [item_children visited]. intros I V. right. apply in_flat_map. now exists c.
Qed.

Lemma index_page_written (specifiedPath : string) (structure d : item) :
  In d (visited structure) ->
  In (index_page d) (files_of_final specifiedPath structure)
  /\ In (index_page d) (two_files_each structure).
Proof.
  intros V. unfold files_of_final, two_files_each.
  split; apply in_flat_map; exists d; (split; [exact V | now left]).
Qed.

Lemma find_specified_Some (specifiedPath : string) (structure d : item) :
  find_specified specifiedPath structure = Some d ->
  In d (item_children structure) /\ is_directory d = true
  /\ item_name d = specifiedPath.
Proof.
  unfold find_specified. intros F. apply find_some in F as [I H].
  apply andb_true_iff in H as [D E]. apply String.eqb_eq in E. auto.
Qed.

Lemma links_totals_row (fs : node) (label target : string) (dir : path) :
  links (totals_row fs label target dir) = [(label, target)].
Proof. reflexivity. Qed.

(** What the two lists of the root pages link to. *)
Lemma root_links (specifiedPath : string) (fs : node) (basePath : path) (depth : N)
      (n : node) (structure designated : item) :
  scan_node basePath depth n = Ok structure ->
  find_specified specifiedPath structure = Some designated ->
  let listed := designated :: filter is_directory (item_children designated) in
  links (root_table specifiedPath fs structure) = map (index_link basePath) listed
  /\ links (root_sidebar_links specifiedPath structure) = map (index_link basePath) listed
  /\ Forall (fun d => In d (visited structure)) listed.
Proof.
  intros S F listed.
  destruct (find_specified_Some _ _ _ F) as (I & D & Nm).
  destruct (scan_subdirectory basePath depth n structure designated S I D)
    as (file & c & Sd & Nf & Pd).
  assert (Sub : forall d, In d (filter is_directory (item_children designated)) ->
                          item_path d = (basePath ++ [specifiedPath; item_name d])%list).
  { intros d Hd. apply filter_In in Hd as [Id Dd].
    destruct (scan_subdirectory _ _ _ _ d Sd Id Dd) as (file' & c' & _ & Nd & P').
    rewrite P', Nd. unfold resolve. rewrite <- Nf, Nm.
    now rewrite <- app_assoc. }
  assert (L0 : (item_name designated, (specifiedPath ++ "/README.md")%string)
               = index_link basePath designated).
  { unfold index_link, index_page, relative, resolve. rewrite Pd, <- Nf, Nm.
    unfold resolve. rewrite <- app_assoc, relative_segments_under. reflexivity. }
  assert (L1 : forall d, In d (filter is_directory (item_children designated)) ->
                         (item_name d,
                          (specifiedPath ++ "/" ++ item_name d ++ "/README.md")%string)
                         = index_link basePath d).
  { intros d Hd. unfold index_link, index_page, relative, resolve.
    rewrite (Sub d Hd), <- app_assoc, relative_segments_under. reflexivity. }
  unfold root_table, root_sidebar_links. rewrite F. subst listed. cbn [map].
  repeat split.
  - rewrite !links_app, links_totals_row, links_flat_map. cbn [links flat_map app].
    rewrite L0. f_equal.
    rewrite (flat_map_singleton
               _ (fun d => (item_name d,
                            (specifiedPath ++ "/" ++ item_name d ++ "/README.md")%string)))
      by reflexivity.
    now apply map_ext_in.
  - rewrite !links_app, links_bullet, links_flat_map. cbn [links flat_map app].
    rewrite <- Nm at 1. rewrite L0. f_equal.
    rewrite (flat_map_singleton
               _ (fun d => (item_name d,
                            (specifiedPath ++ "/" ++ item_name d ++ "/README.md")%string)))
      by (intros; apply links_bullet).
    now apply map_ext_in.
  - constructor.
    + apply (visited_child structure designated); [exact I | now apply visited_self].
    + apply Forall_forall. intros d Hd. apply filter_In in Hd as [Id Dd].
      apply (visited_child structure designated); [exact I|].
      apply (visited_child designated d); [exact Id | now apply visited_self].
Qed.

(** X13: when the root holds the designated collection, the table of the
    root index page links, in this order, to the index page of the
    collection and to the index pages of its sub-directories, each by its
    path relative to the root; the root sidebar lists its home entry and
    then the same links.  Each of these index pages is among the files the
    emitter writes for the scanned tree.  (The contact link of the footer is
    fixed text of the template and is not counted.) *)
Theorem root_links_reach_index_pages
        (specifiedPath : string) (fs : node) (basePath : path) (depth : N)
        (structure designated : item) :
  getDirectoryStructure fs basePath depth = Ok structure ->
  find_specified specifiedPath structure = Some designated ->
  let listed := designated :: filter is_directory (item_children designated) in
  links (Final.generateRootReadmeContent specifiedPath fs structure basePath)
  = map (index_link basePath) listed
  /\ links (Usage.generateRootReadmeContent specifiedPath fs structure basePath)
     = map (index_link basePath) listed
  /\ links (Final.generateRootSidebarContent specifiedPath structure basePath)
     = ("首页", "README.md") :: map (index_link basePath) listed
  /\ links (Usage.generateRootSidebarContent specifiedPath structure basePath)
     = ("首页", "/README.md") :: map (index_link basePath) listed
  /\ Forall (fun d => In (index_page d) (files_of_final specifiedPath structure)
                      /\ In (index_page d) (two_files_each structure)) listed.
Proof.
  intros G F listed.
  assert (S : exists n, scan_node basePath depth n = Ok structure).
  { unfold getDirectoryStructure in G.
    destruct (existsSync fs basePath); cbn [negb] in G.
    - destruct (statSync fs basePath) as [n|]; [|discriminate]. now exists n.
    - inversion G; subst. discriminate. }
  destruct S as [n S].
  destruct (root_links specifiedPath fs basePath depth n structure designated S F)
    as (T & L & V).
  fold listed in T, L, V.
  unfold Final.generateRootReadmeContent, Usage.generateRootReadmeContent,
    Final.generateRootSidebarContent, Usage.generateRootSidebarContent.
  rewrite !links_app, !links_bullet, T, L. cbn [links flat_map app].
  rewrite !app_nil_r. repeat split.
  eapply Forall_impl; [|exact V]. intros d. apply index_page_written.
Qed.

Lemma root_links_reach_index_pages_witness :
  links (Final.generateRootSidebarContent "C" scenario_root ["r"])
  = [("首页", "README.md"); ("C", "C/README.md");
     ("A", "C/A/README.md"); ("B", "C/B/README.md")].
Proof.
  apply (root_links_reach_index_pages "C" scenario_fs ["r"] 0 scenario_root scenario_C);
    reflexivity.
Defined.

(** ** Splitting and joining *)

Lemma string_append_assoc (a b c : string) :
  ((a ++ b) ++ c)%string = (a ++ b ++ c)%string.
Proof. induction a as [|x a IH]; [reflexivity|]. cbn. now rewrite IH. Qed.

Lemma replace_backslashes_append (a b : string) :
  replace_backslashes (a ++ b) = (replace_backslashes a ++ replace_backslashes b)%string.
Proof. induction a as [|x a IH]; [reflexivity|]. cbn. now rewrite IH. Qed.

Lemma replace_backslashes_none (s : string) :
  no_separator s = true -> replace_backslashes s = s.
Proof.
  induction s as [|c s IH]; [reflexivity|]. cbn [no_separator replace_backslashes].
  intros H. apply andb_true_iff in H as [H Hs]. apply andb_true_iff in H as [_ Hc].
  destruct (Ascii.eqb c "\"%char); [discriminate|]. now rewrite (IH Hs).
Qed.

Lemma concat_cons (x y : string) (l : list string) :
  String.concat "/" (x :: y :: l) = (x ++ "/" ++ String.concat "/" (y :: l))%string.
Proof. reflexivity. Qed.

Lemma replace_backslashes_concat (l : list string) :
  Forall (fun s => no_separator s = true) l ->
  replace_backslashes (String.concat "/" l) = String.concat "/" l.
Proof.
  induction 1 as [|x l Hx Hl IH]; [reflexivity|].
  destruct l as [|y l]; [now apply replace_backslashes_none|].
  rewrite concat_cons, !replace_backslashes_append, IH.
  now rewrite (replace_backslashes_none x Hx).
Qed.

Lemma split_slash_whole (a : string) :
  no_separator a = true -> split_slash a = [a].
Proof.
  induction a as [|c a IH]; [reflexivity|]. cbn [no_separator split_slash].
  intros H. apply andb_true_iff in H as [H Ha]. apply andb_true_iff in H as [Hc _].
  destruct (Ascii.eqb c "/"%char); [discriminate|]. now rewrite (IH Ha).
Qed.

Lemma split_slash_append (a b : string) :
  no_separator a = true ->
  split_slash (a ++ "/" ++ b) = a :: split_slash b.
Proof.
  induction a as [|c a IH]; [reflexivity|]. cbn [no_separator].
  intros H. apply andb_true_iff in H as [H Ha]. apply andb_true_iff in H as [Hc _].
  change (String c a ++ "/" ++ b)%string with (String c (a ++ "/" ++ b))%string.
  cbn [split_slash]. destruct (Ascii.eqb c "/"%char); [discriminate|].
  now rewrite (IH Ha).
Qed.

(** [s.split('/')] undoes [join('/')] on names that hold no separator. *)
Lemma split_slash_concat (l : list string) :
  l <> [] -> Forall (fun s => no_separator s = true) l ->
  split_slash (String.concat "/" l) = l.
Proof.
  intros N H. induction H as [|x l Hx Hl IH]; [contradiction|].
  destruct l as [|y l]; [now apply split_slash_whole|].
  rewrite concat_cons, (split_slash_append _ _ Hx). f_equal. now apply IH.
Qed.

Lemma concat_snoc (l : list string) (x : string) :
  l <> [] ->
  String.concat "/" (l ++ [x]) = (String.concat "/" l ++ "/" ++ x)%string.
Proof.
  intros N. induction l as [|a l IH]; [contradiction|].
  destruct l as [|b l]; [reflexivity|].
  specialize (IH ltac:(discriminate)).
  cbn [app]. rewrite (concat_cons a b (l ++ [x])), (concat_cons a b l).
  rewrite string_append_assoc. f_equal.
  cbn [append]. f_equal. exact IH.
Qed.

Lemma concat_not_empty (x : string) (l : list string) :
  x <> ""%string -> String.concat "/" (x :: l) <> ""%string.
Proof.
  intros N. destruct l as [|y l]; [exact N|].
  rewrite concat_cons. destruct x; [contradiction | discriminate].
Qed.

Lemma proper_name_spec (s : string) :
  proper_name s = true -> s <> ""%string /\ no_separator s = true.
Proof.
  unfold proper_name. intros H. apply andb_true_iff in H as [E S].
  split; [|exact S]. intros ->. discriminate.
Qed.

(** The links of the sidebar of a sub-directory, as the template computes
    them. *)
Lemma links_Usage_sidebar_parts (specifiedPath : string) (structure : item)
      (basePath : path) :
  let relativePath := link_to basePath (item_path structure) in
  let pathParts := split_slash relativePath in
  links (Usage.generateSubdirSidebarContent specifiedPath structure basePath)
  = ([("返回根目录", "/README.md");
      ("返回上一级",
       if count_of pathParts <=? 1 then "/README.md"
       else (String.concat "/" (removelast pathParts) ++ "/README.md")%string);
      if (relativePath =? "")%string
      then (specifiedPath, (specifiedPath ++ "/README.md")%string)
      else (relativePath, (relativePath ++ "/README.md")%string)]
     ++ map (child_link basePath)
            (filter is_file (item_children structure)
             ++ filter is_directory (item_children structure)))%list.
Proof.
  unfold Usage.generateSubdirSidebarContent. cbv zeta.
  set (relativePath := link_to basePath (item_path structure)).
  set (files := filter is_file (item_children structure)).
  set (directories := filter is_directory (item_children structure)).
  assert (Hf : links (if 0 <? count_of files
                      then (flat_map (fun item => bullet (item_name item)
                                                         (link_to basePath (item_path item)))
                                     files ++ [Txt nl])%list
                      else [])
               = map (child_link basePath) files).
  { destruct (0 <? count_of files) eqn:E.
    - rewrite links_app, links_flat_map. cbn [links flat_map app].
      rewrite app_nil_r. apply flat_map_singleton.
      intros c I. apply filter_In in I as [_ I].
      destruct c; [|discriminate]. unfold child_link. cbn.
      now rewrite append_empty.
    - now rewrite (count_of_positive _ E). }
  assert (Hd : links (if 0 <? count_of directories
                      then flat_map (fun dir => bullet (item_name dir)
                                                       (link_to basePath (item_path dir)
                                                        ++ "/README.md"))
                                    directories
                      else [])
               = map (child_link basePath) directories).
  { destruct (0 <? count_of directories) eqn:E.
    - apply (links_directory_rows basePath). reflexivity.
    - now rewrite (count_of_positive _ E). }
  destruct (count_of (split_slash relativePath) <=? 1);
    destruct (relativePath =? "")%string;
    unfold page in Hf, Hd; rewrite !links_app, Hf, Hd, map_app;
    reflexivity.
Qed.

(** X14: in the script of the usage notes, the sidebar of a directory lying
    at [parent/name] below the root opens with three links: the root's index
    page, the index page of the parent directory by its path from the root
    (the root's own when the directory lies directly in the root), and the
    directory's own index page by its path from the root, labelled with the
    directory's path; the documents and the sub-directories follow.  This
    holds when no name on the way holds a slash or a backslash. *)
Theorem usage_sidebar_parent_link
        (specifiedPath : string) (structure : item) (basePath parent : path)
        (name : string) :
  item_path structure = (basePath ++ parent ++ [name])%list ->
  Forall (fun s => proper_name s = true) (parent ++ [name])%list ->
  links (Usage.generateSubdirSidebarContent specifiedPath structure basePath)
  = ([("返回根目录", "/README.md");
      ("返回上一级", match parent with
                     | [] => "/README.md"
                     | _ => String.concat "/" (parent ++ ["README.md"])
                     end);
      (String.concat "/" (parent ++ [name]),
       String.concat "/" (parent ++ [name; "README.md"]))]
     ++ map (child_link basePath)
            (filter is_file (item_children structure)
             ++ filter is_directory (item_children structure)))%list.
Proof.
  intros P H.
  assert (Hs : Forall (fun s => no_separator s = true) (parent ++ [name])%list).
  { eapply Forall_impl; [|exact H]. intros s Hp. now apply proper_name_spec. }
  assert (Ne : (parent ++ [name])%list <> []).
  { destruct parent; discriminate. }
  pose proof (links_Usage_sidebar_parts specifiedPath structure basePath) as L.
  cbv zeta in L. rewrite L. clear L.
  rewrite P, link_to_under. unfold root_relative.
  rewrite (replace_backslashes_concat _ Hs), (split_slash_concat _ Ne Hs).
  rewrite removelast_last.
  assert (E : (String.concat "/" (parent ++ [name]) =? "")%string = false).
  { apply String.eqb_neq. destruct parent as [|p parent].
    - apply concat_not_empty. inversion H; subst. now apply proper_name_spec.
    - apply concat_not_empty. inversion H; subst. now apply proper_name_spec. }
  rewrite E.
  replace (parent ++ [name; "README.md"])%list
    with ((parent ++ [name]) ++ ["README.md"])%list by now rewrite <- app_assoc.
  rewrite (concat_snoc _ "README.md" Ne).
  destruct parent as [|p parent].
  - reflexivity.
  - replace (count_of ((p :: parent) ++ [name])%list <=? 1) with false.
    + rewrite (concat_snoc (p :: parent) "README.md") by discriminate. reflexivity.
    + symmetry. apply N.leb_gt. unfold count_of. cbn [app List.length].
      rewrite length_app. cbn [List.length]. lia.
Qed.

Lemma usage_sidebar_parent_link_witness :
  links (Usage.generateSubdirSidebarContent "C" scenario_A ["r"])
  = [("返回根目录", "/README.md"); ("返回上一级", "C/README.md");
     ("C/A", "C/A/README.md"); ("a", "C/A/a.md"); ("b", "C/A/b.md")].
Proof.
  apply (usage_sidebar_parent_link "C" scenario_A ["r"] ["C"] "A"); [reflexivity|].
  repeat constructor.
Defined.

(** ** Where a run writes *)

Lemma visited_below (structure : item) :
  forall n dir depth d,
    scan_node dir depth n = Ok structure -> In d (visited structure) ->
    exists rel,
      item_path d = (dir ++ rel)%list
      /\ Forall (fun segment => includes ignoreFiles segment = false) rel.
Proof.
  induction structure as [| name p depth0 children IH] using item_ind;
    intros n dir depth' d S V; [contradiction|].
  cbn [visited] in V. destruct V as [<- | V].
  - exists []. rewrite app_nil_r. split; [|constructor].
    now destruct (scan_children _ _ _ _ S) as (_ & _ & _ & _ & P & _).
  - apply in_flat_map in V as (c & Ic & Vc).
    assert (Dc : is_directory c = true) by (destruct c; [contradiction | reflexivity]).
    destruct (scan_subdirectory dir depth' n _ c S Ic Dc) as (file & c' & Sc & _ & Pc).
    destruct (scan_child dir depth' n _ c S Ic) as (file' & Pc' & R).
    rewrite Pc in Pc'. apply resolve_injective in Pc'. subst file'.
    rewrite Forall_forall in IH.
    destruct (IH c Ic c' (resolve dir file) (depth' + 1) d Sc Vc) as (rel & P & Rr).
    exists (file :: rel). split; [|now constructor].
    rewrite P. unfold resolve. now rewrite <- app_assoc.
Qed.

Lemma written_files_below (specifiedPath : string) (fs : node) (targetDir : path)
      (depth : N) (structure : item) (file : path) :
  getDirectoryStructure fs targetDir depth = Ok structure ->
  In file (files_of_final specifiedPath structure) \/ In file (two_files_each structure) ->
  exists rel g,
    file = (targetDir ++ rel ++ [g])%list
    /\ is_generated g = true
    /\ Forall (fun segment => includes ignoreFiles segment = false) rel.
Proof.
  intros G I.
  assert (V : exists d g, In d (visited structure) /\ is_generated g = true
                          /\ file = resolve (item_path d) g).
  { unfold files_of_final, two_files_each in I.
    destruct I as [I|I]; apply in_flat_map in I as (d & V & I).
    - destruct I as [<-|I]; [exists d, "README.md"; now repeat split|].
      destruct (negb (item_name d =? specifiedPath)%string); [|contradiction].
      destruct I as [<-|[]]. exists d, "_sidebar.md". now repeat split.
    - destruct I as [<-|[<-|[]]];
        [exists d, "README.md" | exists d, "_sidebar.md"]; now repeat split. }
  destruct V as (d & g & V & Hg & ->).
  unfold getDirectoryStructure in G.
  destruct (existsSync fs targetDir); cbn [negb] in G.
  - destruct (statSync fs targetDir) as [n|]; [|discriminate]. cbn [bind] in G.
    destruct (visited_below structure n targetDir depth d G V) as (rel & P & R).
    exists rel, g. rewrite P. unfold resolve. now rewrite <- app_assoc.
  - inversion G; subst. cbn [visited flat_map] in V. destruct V as [<-|[]].
    exists [], g. split; [reflexivity|]. split; [exact Hg | constructor].
Qed.

(** What a run of [main] adds to the files written, given what the emitter
    writes for a scanned tree. *)
Lemma main_writes_below
      (files : item -> list path)
      (generate : item -> M unit) (targetDir : path) (w1 w' : world) (r : result unit)
      (file : path) :
  (forall structure, writes (generate structure) (files structure)) ->
  (forall structure f,
      getDirectoryStructure (disk w1) targetDir 0 = Ok structure ->
      In f (files structure) ->
      exists rel g,
        f = (targetDir ++ rel ++ [g])%list
        /\ is_generated g = true
        /\ Forall (fun segment => includes ignoreFiles segment = false) rel) ->
  bindM (reading (fun fs => getDirectoryStructure fs targetDir 0))
        (fun structure => bindM (generate structure)
                                (fun _ => console_log "Document generation completed."))
        w1 = (w', r) ->
  In file (written (trace w')) ->
  In file (written (trace w1))
  \/ exists rel g,
      file = (targetDir ++ rel ++ [g])%list
      /\ is_generated g = true
      /\ Forall (fun segment => includes ignoreFiles segment = false) rel.
Proof.
  intros Wr Below E I. unfold bindM at 1, reading in E.
  destruct (getDirectoryStructure (disk w1) targetDir 0) as [structure|] eqn:G.
  - assert (Wm : writes (bindM (generate structure)
                               (fun _ => console_log "Document generation completed."))
                        (files structure)).
    { eapply writes_bind; [apply Wr | intros _; apply writes_console_log |].
      now rewrite app_nil_r. }
    destruct (Wm w1 w' r E) as (new & T & (rest & P) & _).
    rewrite T, written_app in I. apply in_app_or in I as [I|I]; [now left|].
    right. apply (Below structure file eq_refl). rewrite P. apply in_or_app. now left.
  - inversion E; subst. now left.
Qed.

(** X15: a run of either script, however it ends, writes inside the target
    directory only: every file it writes lies in the target directory or in
    a directory below it reached through names that are not reserved, and
    is named [README.md] or [_sidebar.md]. *)
Theorem writes_stay_below_target
        (specifiedPath : string) (targetDir : path) (w : world) (file : path) :
  In file (written (trace (fst (Final.main specifiedPath targetDir w))))
  \/ In file (written (trace (fst (Usage.main specifiedPath targetDir w)))) ->
  In file (written (trace w))
  \/ exists rel g,
      file = (targetDir ++ rel ++ [g])%list
      /\ is_generated g = true
      /\ Forall (fun segment => includes ignoreFiles segment = false) rel.
Proof.
  set (w1 := {| disk := disk w;
                trace := (trace w ++ [ConsoleLog ("Starting to generate docs from: "
                                                  ++ path_string targetDir)])%list |}).
  assert (T1 : written (trace w1) = written (trace w)).
  { unfold w1. cbn [trace]. rewrite written_app. cbn. now rewrite app_nil_r. }
  assert (Ab : forall message,
             In file (written (trace (fst (console_error message w1)))) ->
             In file (written (trace w))).
  { intros message I. unfold console_error, emit in I. cbn [fst trace] in I.
    rewrite written_app in I. apply in_app_or in I as [I|I]; [|contradiction].
    now rewrite <- T1. }
  intros [I|I].
  - unfold Final.main in I.
    change (console_log ("Starting to generate docs from: " ++ path_string targetDir) w)
      with (w1, @Ok unit tt) in I.
    cbv beta iota in I.
    destruct (existsSync (disk w1) targetDir); cbn [negb] in I.
    + match type of I with
      | context [match ?m with _ => _ end] => destruct m as [w' r] eqn:E
      end.
      assert (I' : In file (written (trace w'))) by (destruct r; exact I).
      rewrite <- T1.
      apply (main_writes_below (files_of_final specifiedPath)
               (fun structure => Final.generateDocs specifiedPath structure targetDir true)
               targetDir w1 w' r file); [| | exact E | exact I'].
      * intros structure. apply writes_Final.
      * intros structure f G If.
        apply (written_files_below specifiedPath (disk w1) targetDir 0 structure f G).
        now left.
    + left. apply (Ab ("Target directory does not exist: " ++ path_string targetDir)%string).
      now destruct (console_error ("Target directory does not exist: "
                                   ++ path_string targetDir) w1).
  - unfold Usage.main in I.
    change (console_log ("Starting to generate docs from: " ++ path_string targetDir) w)
      with (w1, @Ok unit tt) in I.
    cbv beta iota in I.
    destruct (existsSync (disk w1) targetDir); cbn [negb] in I.
    + match type of I with
      | context [match ?m with _ => _ end] => destruct m as [w' r] eqn:E
      end.
      assert (I' : In file (written (trace w'))) by (destruct r; exact I).
      rewrite <- T1.
      apply (main_writes_below two_files_each
               (fun structure => Usage.generateDocs specifiedPath structure targetDir true)
               targetDir w1 w' r file); [| | exact E | exact I'].
      * intros structure. apply writes_Usage.
      * intros structure f G If.
        apply (written_files_below specifiedPath (disk w1) targetDir 0 structure f G).
        now right.
    + left. apply (Ab ("Target directory does not exist: " ++ path_string targetDir)%string).
      now destruct (console_error ("Target directory does not exist: "
                                   ++ path_string targetDir) w1).
Qed.

Lemma writes_stay_below_target_witness :
  In ["r"; "C"; "A"; "README.md"] (written (trace (start scenario_fs)))
  \/ exists rel g,
      ["r"; "C"; "A"; "README.md"] = (["r"] ++ rel ++ [g])%list
      /\ is_generated g = true
      /\ Forall (fun segment => includes ignoreFiles segment = false) rel.
Proof.
  apply (writes_stay_below_target "C" ["r"] (start scenario_fs) ["r"; "C"; "A"; "README.md"]).
  left. vm_compute. tauto.
Defined.

(** * The links of every page *)

Lemma links_concat (tables : list page) :
  links (List.concat tables) = flat_map links tables.
Proof.
  induction tables as [|t l IH]; [reflexivity|].
  cbn [List.concat flat_map]. now rewrite links_app, IH.
Qed.

Lemma flat_map_Forall2 {A B C} (f : A -> list C) (g : B -> list C)
      (l : list A) (l' : list B) :
  Forall2 (fun a b => g b = f a) l l' -> flat_map g l' = flat_map f l.
Proof.
  induction 1 as [|a b l l' H _ IH]; [reflexivity|].
  cbn [flat_map]. now rewrite H, IH.
Qed.

Lemma links_file_nodes (basePath dir : path) (depth : N) (l : list (string * node)) :
  links (flat_map (file_row basePath) (map (file_node dir depth) l))
  = map (child_link basePath) (map (file_node dir depth) l).
Proof.
  rewrite links_flat_map. apply flat_map_singleton.
  intros c I. apply in_map_iff in I as (e & <- & _).
  apply links_file_row, file_node_is_file.
Qed.

Lemma links_expected_rows (fs : node) (basePath : path) (dir : item) :
  links (expected_rows fs basePath dir) = table_links true fs basePath dir.
Proof.
  unfold expected_rows, table_links. cbv zeta.
  destruct (0 <? count_of (documents_in fs (item_path dir)));
    [apply links_file_nodes|].
  cbn [andb]. now destruct (0 <? count_of (subdirectories_in fs (item_path dir))).
Qed.

Lemma links_documents_table (fs : node) (basePath : path) (dir : item) :
  links (documents_table fs basePath dir) = table_links false fs basePath dir.
Proof.
  unfold documents_table, table_links. cbv zeta.
  rewrite !links_app, links_file_nodes. cbn [links subtable_head flat_map app].
  rewrite app_nil_r.
  destruct (0 <? count_of (documents_in fs (item_path dir))) eqn:E; [reflexivity|].
  cbn [andb]. now rewrite (count_of_positive _ E).
Qed.

Lemma links_overview (fs : node) (structure : item) (name_cell : page) :
  links (overview fs structure name_cell) = links name_cell.
Proof.
  unfold overview. rewrite !links_app, links_page_head.
  cbn [links flat_map app]. now rewrite app_nil_r.
Qed.

(** The links of the designated-collection page, for the two scripts. *)
Lemma links_designated (fs : node) (structure : item) (basePath : path) :
  (forall dir, In dir (filter is_directory (item_children structure)) ->
               getDirectoryStructure fs (item_path dir) 0 <> Throw) ->
  (exists pg,
      Usage.generateSpecifiedPathReadmeContent fs structure basePath = Ok pg
      /\ links pg
         = (item_name structure, "/README.md")
             :: flat_map (table_links true fs basePath)
                         (filter is_directory (item_children structure)))
  /\ (exists pg,
         Final.generateSpecifiedPathReadmeContent fs structure basePath = Ok pg
         /\ links pg
            = flat_map (table_links false fs basePath)
                       (filter is_directory (item_children structure))).
Proof.
  intros H. split.
  - unfold Usage.generateSpecifiedPathReadmeContent.
    destruct (for_each_page_Ok
                (Usage.subtable fs basePath)
                (fun dir table => links table = table_links true fs basePath dir)
                (filter is_directory (item_children structure)))
      as (tables & E & F).
    + intros dir I. specialize (H dir I). unfold Usage.subtable.
      destruct (getDirectoryStructure fs (item_path dir) 0) as [sub|] eqn:S;
        [|contradiction].
      cbn [bind]. eexists. split; [reflexivity|].
      rewrite (subtable_rows_expected _ _ _ _ S), !links_app, links_expected_rows.
      cbn [links subtable_head flat_map app]. now rewrite app_nil_r.
    + rewrite E. cbn [bind]. eexists. split; [reflexivity|].
      rewrite !links_app, links_overview, links_concat.
      rewrite (flat_map_Forall2 (table_links true fs basePath) links _ _ F).
      cbn [links page_foot flat_map app]. now rewrite app_nil_r.
  - unfold Final.generateSpecifiedPathReadmeContent.
    destruct (for_each_page_Ok
                (Final.subtable fs basePath)
                (fun dir table => links table = table_links false fs basePath dir)
                (filter is_directory (item_children structure)))
      as (tables & E & F).
    + intros dir I. specialize (H dir I). unfold Final.subtable.
      destruct (getDirectoryStructure fs (item_path dir) 0) as [sub|] eqn:S;
        [|contradiction].
      cbn [bind]. eexists. split; [reflexivity|].
      rewrite (scanned_documents _ _ _ S).
      exact (links_documents_table fs basePath dir).
    + rewrite E. cbn [bind]. eexists. split; [reflexivity|].
      rewrite !links_app, links_overview, links_concat.
      rewrite (flat_map_Forall2 (table_links false fs basePath) links _ _ F).
      cbn [links page_foot flat_map app]. now rewrite app_nil_r.
Qed.

(** C4, amended: every link a template computes with [path.relative] is
    [path.relative(basePath, target)] with backslashes turned into slashes
    (followed by [/README.md] when the target is a directory), where
    [basePath] is the scan root that [generateDocs] hands down unchanged:
    the document rows and sub-directory links of the normal and
    intermediate index pages, the document rows and the roll-up row of the
    designated-collection page, the entries of the sidebars.  For a
    directory scanned at [rel] below the root, the link to its child [file]
    therefore spells [rel/file]: it is relative to the scan root on every
    page, and relative to the page's own directory only on the pages of the
    root itself.  In the script of the usage notes the sidebar links the
    parent directory and the directory itself by the same root-relative
    path [rel], the parent's being [rel] without its last segment.  The
    root pages build their links from the names of the collection and of
    its sub-directories, which spell the paths of their index pages from
    the root.  Every other link is one of the fixed strings [/README.md],
    [../README.md], [./README.md] and [README.md]. *)
Theorem links_relative_to_scan_root
        (specifiedPath : string) (fs : node) (base rel : path) (depth : N)
        (n : node) (structure : item) :
  scan_node (base ++ rel)%list depth n = Ok structure ->
  let children := (filter is_file (item_children structure)
                   ++ filter is_directory (item_children structure))%list in
  let directories := filter is_directory (item_children structure) in
  let relativePath := root_relative rel in
  links (Final.generateNormalReadmeContent structure base)
  = map (child_link base) children
  /\ links (Usage.generateNormalReadmeContent structure base)
     = map (child_link base) children
  /\ links (Usage.generateIntermediateReadmeContent fs structure base)
     = map (child_link base) children
  /\ links (Final.generateSubdirSidebarContent structure base)
     = ([("返回根目录", "../README.md"); ("返回上一级", "./README.md")]
        ++ map (child_link base) (filter is_file (item_children structure)))%list
  /\ links (Usage.generateSubdirSidebarContent specifiedPath structure base)
     = ([("返回根目录", "/README.md");
         ("返回上一级",
          if count_of (split_slash relativePath) <=? 1 then "/README.md"
          else (String.concat "/" (removelast (split_slash relativePath))
                ++ "/README.md")%string);
         if (relativePath =? "")%string
         then (specifiedPath, (specifiedPath ++ "/README.md")%string)
         else (relativePath, (relativePath ++ "/README.md")%string)]
        ++ map (child_link base) children)%list
  /\ (forall c, In c (item_children structure) ->
                exists file,
                  item_path c = (base ++ rel ++ [file])%list
                  /\ child_link base c
                     = (item_name c,
                        root_relative (rel ++ [file])%list
                        ++ (if is_directory c then "/README.md" else "")))
  /\ ((forall dir, In dir directories ->
                   getDirectoryStructure fs (item_path dir) 0 <> Throw) ->
      (exists pg,
          Usage.generateSpecifiedPathReadmeContent fs structure base = Ok pg
          /\ links pg = (item_name structure, "/README.md")
                          :: flat_map (table_links true fs base) directories)
      /\ (exists pg,
             Final.generateSpecifiedPathReadmeContent fs structure base = Ok pg
             /\ links pg = flat_map (table_links false fs base) directories))
  /\ (forall dir file c,
         In dir directories ->
         exists name,
           item_path dir = (base ++ rel ++ [name])%list
           /\ child_link base (file_node (item_path dir) 0 (file, c))
              = (basename_ext file ".md", root_relative (rel ++ [name; file])%list))
  /\ (rel = [] ->
      forall designated,
        find_specified specifiedPath structure = Some designated ->
        let listed := designated :: filter is_directory (item_children designated) in
        links (Final.generateRootReadmeContent specifiedPath fs structure base)
        = map (index_link base) listed
        /\ links (Usage.generateRootReadmeContent specifiedPath fs structure base)
           = map (index_link base) listed
        /\ links (Final.generateRootSidebarContent specifiedPath structure base)
           = ("首页", "README.md") :: map (index_link base) listed
        /\ links (Usage.generateRootSidebarContent specifiedPath structure base)
           = ("首页", "/README.md") :: map (index_link base) listed)
  /\ (find_specified specifiedPath structure = None ->
      links (Final.generateRootReadmeContent specifiedPath fs structure base) = []
      /\ links (Usage.generateRootReadmeContent specifiedPath fs structure base) = []
      /\ links (Final.generateRootSidebarContent specifiedPath structure base)
         = [("首页", "README.md")]
      /\ links (Usage.generateRootSidebarContent specifiedPath structure base)
         = [("首页", "/README.md")]).
Proof.
  intros S children directories relativePath. repeat apply conj.
  - apply links_Final_normal.
  - apply links_Usage_normal.
  - apply links_Usage_intermediate.
  - apply links_Final_sidebar.
  - pose proof (links_Usage_sidebar_parts specifiedPath structure base) as L.
    cbv zeta in L. rewrite L.
    destruct (scan_children _ _ _ _ S) as (_ & _ & _ & _ & P & _).
    rewrite P, link_to_under. reflexivity.
  - intros c I. destruct (scan_child _ _ _ _ c S I) as (file & P & _).
    exists file. unfold resolve in P. rewrite <- app_assoc in P.
    split; [exact P|]. unfold child_link. now rewrite P, link_to_under.
  - apply links_designated.
  - intros dir file c I. apply filter_In in I as [I _].
    destruct (scan_child _ _ _ _ dir S I) as (name & P & _).
    exists name. unfold resolve in P. rewrite <- app_assoc in P.
    split; [exact P|].
    unfold child_link, file_node. cbn [item_name item_path is_directory is_file negb].
    rewrite P, append_empty. unfold resolve.
    replace ((base ++ rel ++ [name]) ++ [file])%list
      with (base ++ (rel ++ [name; file]))%list
      by (now rewrite <- !app_assoc).
    now rewrite link_to_under.
  - intros -> designated F listed. rewrite app_nil_r in S.
    destruct (root_links specifiedPath fs base depth n structure designated S F)
      as (T & L & _).
    fold listed in T, L.
    unfold Final.generateRootReadmeContent, Usage.generateRootReadmeContent,
      Final.generateRootSidebarContent, Usage.generateRootSidebarContent.
    rewrite !links_app, !links_bullet, T, L. cbn [links flat_map app].
    rewrite !app_nil_r. repeat split.
  - intros F.
    unfold Final.generateRootReadmeContent, Usage.generateRootReadmeContent,
      Final.generateRootSidebarContent, Usage.generateRootSidebarContent,
      root_table, root_sidebar_links.
    rewrite F. repeat split.
Qed.

Lemma links_relative_to_scan_root_witness :
  links (Final.generateNormalReadmeContent scenario_A ["r"])
  = [("a", "C/A/a.md"); ("b", "C/A/b.md")]
  /\ links (Usage.generateSubdirSidebarContent "C" scenario_A ["r"])
     = [("返回根目录", "/README.md"); ("返回上一级", "C/README.md");
        ("C/A", "C/A/README.md"); ("a", "C/A/a.md"); ("b", "C/A/b.md")]
  /\ exists file, item_path (FileNode "a" ["r"; "C"; "A"; "a.md"] 3 500 "500 B" 167)
                  = (["r"] ++ ["C"; "A"] ++ [file])%list.
Proof.
  destruct (links_relative_to_scan_root
              "C" scenario_fs ["r"] ["C"; "A"] 2
              (Dir true [("b.md", File 2000 (Some 2000)); ("a.md", File 500 (Some 500))])
              scenario_A eq_refl) as (L & _ & _ & _ & U & P & _).
  split; [exact L|]. split; [exact U|].
  destruct (P (FileNode "a" ["r"; "C"; "A"; "a.md"] 3 500 "500 B" 167)) as (file & E & _).
  - left. reflexivity.
  - exists file. exact E.
Defined.

(** C4 as stated fails: the index page that the run writes into the nested
    directory [/r/C/A] links its documents as [C/A/a.md] and [C/A/b.md],
    from the scan root, not as [a.md] and [b.md]. *)
Lemma nested_page_links_from_root :
  In (WriteFile ["r"; "C"; "A"; "README.md"]
                (render (Final.generateNormalReadmeContent scenario_A ["r"])))
     (trace (fst (Final.main "C" ["r"] (start scenario_fs))))
  /\ links (Final.generateNormalReadmeContent scenario_A ["r"])
     = [("a", "C/A/a.md"); ("b", "C/A/b.md")]
  /\ map (fun c => link_to (item_path scenario_A) (item_path c))
         (item_children scenario_A) = ["a.md"; "b.md"]
  /\ ~ links_relative_to_page (Final.generateNormalReadmeContent scenario_A ["r"])
       scenario_A.
Proof.
  repeat apply conj.
  - vm_compute. repeat (try (left; reflexivity); right).
  - reflexivity.
  - reflexivity.
  - intros H.
    specialize (H (FileNode "a" ["r"; "C"; "A"; "a.md"] 3 500 "500 B" 167)
                  (or_introl eq_refl) eq_refl).
    vm_compute in H. destruct H as [H|[H|[]]]; discriminate.
Qed.
